(** * EnergyGrid Data Aggregator: batching, retrying and rate limiting

    A shallow embedding of the client of the EnergyGrid data aggregator
    (utils/batchManager.js, utils/signatureGenerator.js,
    services/rateLimiter.js, services/apiClient.js and core/aggregator.js)
    together with the properties its specification states about them.

    - [BatchManager] holds the pure array utilities.
    - [SignatureGenerator] is the request signature, for any hash
      function.
    - [Scheduler] is the rate limiter as a transition system, with
      arbitrary interleavings of [schedule] calls, clock ticks and task
      completions.
    - [Aggregator] is the sequential path the aggregator really takes
      ([executeAll] awaits every [schedule] before the next one), written
      in a small state-and-exception monad, for a server whose
      responses carry arrays of device records.
    - [Wire] is that path for responses that are any value, which the
      client does not check, and for a file system that takes time. *)

From Stdlib Require Import String Ascii ZArith Bool Lia Arith List.
From Stdlib Require Import DecimalString DecimalNat DecimalPos DecimalZ.
Import ListNotations.

Local Open Scope string_scope.
Local Open Scope list_scope.
Local Open Scope Z_scope.

(** ** Completions

    A JavaScript call returns a value, throws, or does not come back.
    Errors are represented by their [message].  [OutOfFuel] is the
    answer of a bounded loop whose bound was reached: the call has given
    no result.  It says nothing of what becomes of a process whose loop
    cannot end. *)

Inductive outcome (A : Type) : Type :=
| Returned (a : A)
| Thrown (message : string)
| OutOfFuel.

Arguments Returned {A} a.
Arguments Thrown {A} message.
Arguments OutOfFuel {A}.

(** ** utils/batchManager.js *)

Module BatchManager.

Section Arrays.
Context {A : Type}.

(** [Array.prototype.slice(start, end)] on integer arguments: negative
    indices count from the end, both are clamped to the array. *)
Definition slice (array : list A) (start stop : Z) : list A :=
  let len := Z.of_nat (length array) in
  let k := if start <? 0 then Z.max (len + start) 0 else Z.min start len in
  let final := if stop <? 0 then Z.max (len + stop) 0 else Z.min stop len in
  firstn (Z.to_nat (final - k)) (skipn (Z.to_nat k) array).

(** The [for (let i = 0; i < array.length; i += batchSize)] loop of
    [createBatches], entered with the current [i] and [batches]. *)
Fixpoint createBatches_for (fuel : nat) (array : list A) (batchSize i : Z)
    (batches : list (list A)) : outcome (list (list A)) :=
  match fuel with
  | O => OutOfFuel
  | S fuel' =>
      if i <? Z.of_nat (length array) then
        let batch := slice array i (i + batchSize) in
        createBatches_for fuel' array batchSize (i + batchSize) (batches ++ [batch])
      else Returned batches
  end.

(** One iteration more than the array has elements is enough for every
    batch size of at least 1 and for the empty array (see
    [createBatches_for_fuel]).  With a size of 0 or less the index does
    not move forward: on a non-empty array the source allocates a batch
    per iteration until the process is out of memory, and the model
    gives [OutOfFuel]. *)
Definition createBatches (array : list A) (batchSize : Z) : outcome (list (list A)) :=
  createBatches_for (S (length array)) array batchSize 0 [].

(** The batches the loop is meant to produce from what is left of the
    array: full windows of [k], then a shorter non-empty one. *)
Inductive Chunked (k : nat) : list A -> list (list A) -> Prop :=
| Chunked_nil : Chunked k [] []
| Chunked_cons l bs :
    l <> [] -> Chunked k (skipn k l) bs -> Chunked k l (firstn k l :: bs).

End Arrays.

Arguments Chunked {A} k _ _.
Arguments Chunked_nil {A} k.
Arguments Chunked_cons {A} k l bs _ _.

(** [String.prototype.padStart(targetLength, "0")]. *)
Fixpoint zeros (n : nat) : string :=
  match n with
  | O => EmptyString
  | S n' => String "0"%char (zeros n')
  end.

Definition padStart0 (targetLength : nat) (s : string) : string :=
  (zeros (targetLength - String.length s) ++ s)%string.

(** [Number.prototype.toString()] on a natural number. *)
Definition toString (i : nat) : string := NilEmpty.string_of_uint (Nat.to_uint i).

(** The counting loop of [generateSerialNumbers], from [i] on, with
    [remaining = count - i] iterations left. *)
Fixpoint generateSerialNumbers_for (remaining i : nat) (prefix : string)
    (serialNumbers : list string) : list string :=
  match remaining with
  | O => serialNumbers
  | S remaining' =>
      let paddedNumber := padStart0 3 (toString i) in
      generateSerialNumbers_for remaining' (S i) prefix
        (serialNumbers ++ [(prefix ++ paddedNumber)%string])
  end.

Definition generateSerialNumbers (count : nat) (prefix : string) : list string :=
  generateSerialNumbers_for count 0 prefix [].

(** The serial number the loop makes at index [i]. *)
Definition serial (prefix : string) (i : nat) : string :=
  (prefix ++ padStart0 3 (toString i))%string.

(** The number a string of decimal digits stands for, leading zeros
    allowed. *)
Definition digits_value (s : string) : option nat :=
  option_map Nat.of_uint (NilEmpty.uint_of_string s).

End BatchManager.


(** ** Array updates *)

Fixpoint replace_nth {X : Type} (i : nat) (x : X) (l : list X) : list X :=
  match l, i with
  | [], _ => []
  | _ :: l', O => x :: l'
  | y :: l', S i' => y :: replace_nth i' x l'
  end.

Fixpoint remove_nth {X : Type} (i : nat) (l : list X) : list X :=
  match l, i with
  | [], _ => []
  | _ :: l', O => l'
  | y :: l', S i' => y :: remove_nth i' l'
  end.

(** ** services/rateLimiter.js: the delay computation *)

Module RateLimiter.

(** [_calculateDelay()], with [Date.now()] passed as [now]. *)
Definition _calculateDelay (intervalMs lastRequestTime now : Z) : Z :=
  let timeSinceLastRequest := now - lastRequestTime in
  if timeSinceLastRequest >=? intervalMs then 0
  else intervalMs - timeSinceLastRequest.

End RateLimiter.

(** ** services/rateLimiter.js as a transition system

    JavaScript runs one synchronous block at a time; an [async] function
    gives control back at each [await].  The state below holds the
    fields of a [RateLimiter], the clock, and the activations of
    [_processQueue] that are suspended at an [await].  An action runs
    one synchronous block.  Whether a second activation can ever coexist
    with the first is not assumed: it is what [isProcessing] is there to
    prevent, and is proved.

    Queue entries ([{ task, resolve, reject }]) are values of an
    arbitrary type [T]; what a task returns or throws is chosen by the
    environment when it finishes. *)

Module Scheduler.

Section Model.
Variables T R : Type.

(** How the promise returned by [schedule] ends. *)
Inductive settlement : Type :=
| Resolved (result : R)
| Rejected (error : string).

(** Where an activation of [_processQueue] is suspended. *)
Inductive activation : Type :=
| Delaying (entry : T) (until : Z)
    (* entry shifted, delay computed at time [until - delay]; sleeping
       when [delay > 0], else about to assign [lastRequestTime] *)
| Executing (entry : T).
    (* [await task()] *)

Record sys : Type := {
  intervalMs : Z;
  queue : list T;
  isProcessing : bool;
  lastRequestTime : Z;
  loops : list activation;
  now : Z;
  (* history, not read by the code *)
  enqueued : list T;
  started : list (T * Z);
  settled : list (T * settlement)
}.

Definition init (interval clock0 : Z) : sys :=
  {| intervalMs := interval; queue := []; isProcessing := false;
     lastRequestTime := 0; loops := []; now := clock0;
     enqueued := []; started := []; settled := [] |}.

Definition set_queue (q : list T) (s : sys) : sys :=
  {| intervalMs := intervalMs s; queue := q; isProcessing := isProcessing s;
     lastRequestTime := lastRequestTime s; loops := loops s; now := now s;
     enqueued := enqueued s; started := started s; settled := settled s |}.

Definition set_isProcessing (b : bool) (s : sys) : sys :=
  {| intervalMs := intervalMs s; queue := queue s; isProcessing := b;
     lastRequestTime := lastRequestTime s; loops := loops s; now := now s;
     enqueued := enqueued s; started := started s; settled := settled s |}.

Definition set_loops (l : list activation) (s : sys) : sys :=
  {| intervalMs := intervalMs s; queue := queue s; isProcessing := isProcessing s;
     lastRequestTime := lastRequestTime s; loops := l; now := now s;
     enqueued := enqueued s; started := started s; settled := settled s |}.

Definition set_now (t : Z) (s : sys) : sys :=
  {| intervalMs := intervalMs s; queue := queue s; isProcessing := isProcessing s;
     lastRequestTime := lastRequestTime s; loops := loops s; now := t;
     enqueued := enqueued s; started := started s; settled := settled s |}.

Definition record_enqueue (t : T) (s : sys) : sys :=
  {| intervalMs := intervalMs s; queue := queue s; isProcessing := isProcessing s;
     lastRequestTime := lastRequestTime s; loops := loops s; now := now s;
     enqueued := enqueued s ++ [t]; started := started s; settled := settled s |}.

(** [this.lastRequestTime = Date.now()], the start of [entry]. *)
Definition start_now (t : T) (s : sys) : sys :=
  {| intervalMs := intervalMs s; queue := queue s; isProcessing := isProcessing s;
     lastRequestTime := now s; loops := loops s; now := now s;
     enqueued := enqueued s; started := started s ++ [(t, now s)];
     settled := settled s |}.

(** [resolve(result)] or [reject(error)] of [entry]. *)
Definition settle (t : T) (v : settlement) (s : sys) : sys :=
  {| intervalMs := intervalMs s; queue := queue s; isProcessing := isProcessing s;
     lastRequestTime := lastRequestTime s; loops := loops s; now := now s;
     enqueued := enqueued s; started := started s;
     settled := settled s ++ [(t, v)] |}.

(** The test of [while (this.queue.length > 0)] and, when it holds,
    the body up to the sleep: [queue.shift()] and [_calculateDelay()].
    When it fails, [this.isProcessing = false] and the activation
    ends. *)
Definition while_head (s : sys) : sys * option activation :=
  match queue s with
  | [] => (set_isProcessing false s, None)
  | entry :: rest =>
      let delay := RateLimiter._calculateDelay (intervalMs s) (lastRequestTime s) (now s) in
      (set_queue rest s, Some (Delaying entry (now s + delay)))
  end.

(** A call of [_processQueue()], up to its first suspension. *)
Definition _processQueue (s : sys) : sys :=
  if isProcessing s || (length (queue s) =? 0)%nat then s
  else
    match while_head (set_isProcessing true s) with
    | (s', Some a) => set_loops (loops s' ++ [a]) s'
    | (s', None) => s'
    end.

(** [schedule(task)]: the executor of the returned promise. *)
Definition schedule (t : T) (s : sys) : sys :=
  _processQueue (record_enqueue t (set_queue (queue s ++ [t]) s)).

Inductive action : Type :=
| Tick (d : Z)                       (* time passes *)
| Schedule (entry : T)               (* somebody calls [schedule] *)
| Wake (i : nat)                     (* activation [i] is past its delay *)
| Finish (i : nat) (v : settlement). (* the task of activation [i] is over *)

Definition step (a : action) (s : sys) : option sys :=
  match a with
  | Tick d => if 0 <=? d then Some (set_now (now s + d) s) else None
  | Schedule t => Some (schedule t s)
  | Wake i =>
      match nth_error (loops s) i with
      | Some (Delaying t until) =>
          if until <=? now s
          then Some (set_loops (replace_nth i (Executing t) (loops s)) (start_now t s))
          else None
      | _ => None
      end
  | Finish i v =>
      match nth_error (loops s) i with
      | Some (Executing t) =>
          match while_head (settle t v s) with
          | (s', Some a) => Some (set_loops (replace_nth i a (loops s')) s')
          | (s', None) => Some (set_loops (remove_nth i (loops s')) s')
          end
      | _ => None
      end
  end.

Fixpoint run (acts : list action) (s : sys) : option sys :=
  match acts with
  | [] => Some s
  | a :: acts' =>
      match step a s with
      | Some s' => run acts' s'
      | None => None
      end
  end.

Definition reachable (interval clock0 : Z) (s : sys) : Prop :=
  exists acts, run acts (init interval clock0) = Some s.

(** The entries an activation holds before, and after, its start. *)
Definition delaying (a : activation) : list T :=
  match a with Delaying t _ => [t] | Executing _ => [] end.

Definition executing (a : activation) : list T :=
  match a with Delaying _ _ => [] | Executing t => [t] end.

Definition holding (a : activation) : list T :=
  match a with Delaying t _ => [t] | Executing t => [t] end.

(** Successive start times are at least [interval] apart. *)
Fixpoint spaced (interval : Z) (times : list Z) : Prop :=
  match times with
  | t1 :: ((t2 :: _) as rest) => t1 + interval <= t2 /\ spaced interval rest
  | _ => True
  end.

(** The drain loop left alone: no new [schedule] call, the clock moves
    on just as far as the sleep needs, and the task of entry [t] ends
    as [verdict t] says. *)
Definition loop_action (verdict : T -> settlement) (s : sys) : option action :=
  match loops s with
  | Delaying _ until :: _ =>
      if until <=? now s then Some (Wake 0) else Some (Tick (until - now s))
  | Executing t :: _ => Some (Finish 0 (verdict t))
  | [] => None
  end.

Fixpoint drain (fuel : nat) (verdict : T -> settlement) (s : sys) : list action :=
  match fuel with
  | O => []
  | S fuel' =>
      match loop_action verdict s with
      | Some a =>
          match step a s with
          | Some s' => a :: drain fuel' verdict s'
          | None => []
          end
      | None => []
      end
  end.

(** *** Vocabulary of the statements *)

Definition times (s : sys) : list Z := map snd (started s).

(** What holds in every state the limiter can be in. *)
Record Inv (interval : Z) (s : sys) : Prop := {
  inv_interval : intervalMs s = interval;
  inv_flag :
    (isProcessing s = true /\ exists act, loops s = [act])
    \/ (isProcessing s = false /\ loops s = [] /\ queue s = []);
  inv_pending :
    enqueued s = map fst (started s) ++ concat (map delaying (loops s)) ++ queue s;
  inv_running :
    map fst (started s) = map fst (settled s) ++ concat (map executing (loops s));
  inv_spaced : spaced interval (times s);
  inv_last : started s <> [] -> last (times s) 0 = lastRequestTime s;
  inv_delay :
    forall t until, In (Delaying t until) (loops s) ->
      started s <> [] -> lastRequestTime s + interval <= until
}.

Definition verdicts (verdict : T -> settlement) (l : list T) : list (T * settlement) :=
  map (fun t => (t, verdict t)) l.

(** Where [drain] is meant to arrive from [s], having settled the
    entries [l]. *)
Definition Drained (verdict : T -> settlement) (l : list T) (s s' : sys) : Prop :=
  loops s' = [] /\ isProcessing s' = false /\ queue s' = []
  /\ settled s' = settled s ++ verdicts verdict l
  /\ enqueued s' = enqueued s.

(** The loop drains from a state whose activation is executing
    (resp. delaying) an entry, with [n] more in the queue. *)
Definition ExecutingDrains (verdict : T -> settlement) (n : nat) : Prop :=
  forall (s : sys) t fuel,
    length (queue s) = n -> loops s = [Executing t] ->
    (1 + 3 * n <= fuel)%nat ->
    exists s', run (drain fuel verdict s) s = Some s'
               /\ Drained verdict (t :: queue s) s s'.

Definition DelayingDrains (verdict : T -> settlement) (n : nat) : Prop :=
  forall (s : sys) t until fuel,
    length (queue s) = n -> loops s = [Delaying t until] ->
    (3 + 3 * n <= fuel)%nat ->
    exists s', run (drain fuel verdict s) s = Some s'
               /\ Drained verdict (t :: queue s) s s'.

End Model.

Arguments Resolved {R} result.
Arguments Rejected {R} error.
Arguments Delaying {T} entry until.
Arguments Executing {T} entry.
Arguments Tick {T R} d.
Arguments Schedule {T R} entry.
Arguments Wake {T R} i.
Arguments Finish {T R} i v.
Arguments intervalMs {T R} s.
Arguments queue {T R} s.
Arguments isProcessing {T R} s.
Arguments lastRequestTime {T R} s.
Arguments loops {T R} s.
Arguments now {T R} s.
Arguments enqueued {T R} s.
Arguments started {T R} s.
Arguments settled {T R} s.
Arguments init {T R} interval clock0.
Arguments step {T R} a s.
Arguments run {T R} acts s.
Arguments reachable {T R} interval clock0 s.
Arguments schedule {T R} t s.
Arguments _processQueue {T R} s.
Arguments while_head {T R} s.
Arguments delaying {T} a.
Arguments executing {T} a.
Arguments holding {T} a.
Arguments loop_action {T R} verdict s.
Arguments drain {T R} fuel verdict s.
Arguments times {T R} s.
Arguments Inv {T R} interval s.
Arguments verdicts {T R} verdict l.
Arguments Drained {T R} verdict l s s'.
Arguments ExecutingDrains {T R} verdict n.
Arguments DelayingDrains {T R} verdict n.

(** [getStatus()] *)
Module Status.
Record t : Type := {
  queueLength : nat;
  isProcessing : bool;
  intervalMs : Z
}.
End Status.

Definition getStatus {T R : Type} (s : sys T R) : Status.t :=
  {| Status.queueLength := length (queue s);
     Status.isProcessing := isProcessing s;
     Status.intervalMs := intervalMs s |}.

(** A run with three entries: the second is scheduled while the first
    is being delayed, the third while the first is executing; the first
    task rejects. *)
Definition sample_actions : list (action nat unit) :=
  [Schedule 1%nat; Schedule 2%nat; Tick 400; Wake 0; Schedule 3%nat; Tick 250;
   Finish 0 (Rejected "boom"); Tick 750; Wake 0].

Definition sample_state : sys nat unit :=
  match run sample_actions (init 1000 600) with
  | Some s => s
  | None => init 1000 600
  end.

(** The task of entry 2 fails, the others succeed. *)
Definition sample_verdict (t : nat) : settlement unit :=
  if (t =? 2)%nat then Rejected "late" else Resolved tt.

End Scheduler.

(** ** utils/signatureGenerator.js *)

Module SignatureGenerator.

(** [Number.prototype.toString()] on an integer. *)
Definition toString (n : Z) : string := NilZero.string_of_int (Z.to_int n).

(** What [generateWithTimestamp] returns. *)
Record Signed : Type := {
  signature : string;
  timestamp : string
}.

Section Hash.
(** [payload => crypto.createHash('md5').update(payload).digest('hex')] *)
Variable md5 : string -> string.

Definition generate (url token timestamp : string) : string :=
  let payload := ((url ++ token) ++ timestamp)%string in
  md5 payload.

(** [generateWithTimestamp(url, token)] when [Date.now()] is [now]. *)
Definition generateWithTimestamp (now : Z) (url token : string) : Signed :=
  let timestamp := toString now in
  let signature := generate url token timestamp in
  {| signature := signature; timestamp := timestamp |}.

End Hash.

(** The number a decimal string stands for. *)
Definition parse (s : string) : option Z :=
  option_map Z.of_int (NilZero.int_of_string s).

End SignatureGenerator.

(** ** The sequential path: the aggregator and its use of the limiter

    [DataAggregator.run] awaits every call it makes, and [executeAll]
    awaits each [schedule] before it makes the next: the code below runs
    as one thread of control.  It is written in a monad of state and
    exceptions; [await] of an [async] call is sequencing, a rejected
    promise is a thrown error.  State changes made before a [throw] stay,
    as in JavaScript.

    In this module a response that is no error carries a list of device
    records, and a file operation succeeds or fails at once and as a
    whole.  Module [Wire] has the same path without these two
    assumptions. *)

Module Aggregator.

Definition M (S A : Type) : Type := S -> outcome A * S.

Definition ret {S A : Type} (a : A) : M S A := fun s => (Returned a, s).

Definition bind {S A B : Type} (m : M S A) (k : A -> M S B) : M S B :=
  fun s =>
    match m s with
    | (Returned a, s') => k a s'
    | (Thrown message, s') => (Thrown message, s')
    | (OutOfFuel, s') => (OutOfFuel, s')
    end.

Definition throw {S A : Type} (message : string) : M S A :=
  fun s => (Thrown message, s).

Definition out_of_fuel {S A : Type} : M S A := fun s => (OutOfFuel, s).

(** [try { m } catch (error) { handler(error.message) }] *)
Definition try_catch {S A : Type} (m : M S A) (handler : string -> M S A) : M S A :=
  fun s =>
    match m s with
    | (Thrown message, s') => handler message s'
    | r => r
    end.

Definition get {S : Type} : M S S := fun s => (Returned s, s).
Definition gets {S A : Type} (f : S -> A) : M S A := fun s => (Returned (f s), s).
Definition modify {S : Type} (f : S -> S) : M S unit := fun s => (Returned tt, f s).
Definition of_outcome {S A : Type} (o : outcome A) : M S A := fun s => (o, s).

Declare Scope js_scope.
Delimit Scope js_scope with js.
Notation "x <- m ;; k" := (bind m (fun x => k))
  (at level 61, m at next level, right associativity) : js_scope.
Notation "m ;; k" := (bind m (fun _ => k))
  (at level 61, right associativity) : js_scope.
Local Open Scope js_scope.

(** *** config/constants.js *)

Record Config : Type := {
  TOTAL_DEVICES : nat;
  DEVICE_SN_PREFIX : string;
  BATCH_SIZE : Z;
  REQUEST_INTERVAL_MS : Z;
  MAX_RETRIES : nat;
  RETRY_DELAY_MS : Z
}.

Definition constants : Config :=
  {| TOTAL_DEVICES := 500; DEVICE_SN_PREFIX := "SN-"; BATCH_SIZE := 10;
     REQUEST_INTERVAL_MS := 1000; MAX_RETRIES := 3; RETRY_DELAY_MS := 2000 |}.

(** *** Data *)

Record DeviceRecord : Type := {
  sn : string;
  power : string;
  status : string;
  last_updated : string
}.

(** An element of [this.errors]. *)
Record FailureEntry : Type := {
  batch : nat;
  serialNumbers : list string;
  error : string
}.

(** The [summary] object that [saveResults] writes. *)
Module Summary.
Record t : Type := {
  totalDevices : nat;
  successfulFetches : nat;
  failedFetches : nat;
  timestamp : Z;
  data : list DeviceRecord;
  errors : list FailureEntry
}.
End Summary.

(** What [Logger] and [console.log] print, by content. *)
Inductive Message : Type :=
| MStarting
| MTesting
| MConnectionOk
| MConnectionFailed (error : string)
| MGenerating (count : nat)
| MGenerated (count : nat) (first last : option string)
| MCreatingBatches (size : Z)
| MCreatedBatches (count : nat)
| MBatchRetrying (batchNo : nat) (error : string) (retry maxRetries : nat)
| MBatchFailed (batchNo maxRetries : nat) (error : string)
| MStartFetch (batches : nat)
| MEstimated (seconds : nat)
| MFetched (devices : nat) (durationMs : Z)
| MSaved
| MSaveFailed (error : string)
| MCompleted
| MFatal (error : string).

Inductive Event : Type :=
| Info (m : Message)
| Success (m : Message)
| Warning (m : Message)
| Error (m : Message)
| Progress (current total : nat)
| SummaryTable (total fetched failed : nat) (onlineOffline : option (nat * nat)).

(** *** The world outside

    What [axios.post] answers to the [k]-th request of the run, how long
    that takes, how late the [k]-th timer fires, and whether [fs.mkdir]
    and [fs.writeFile] throw. *)

Inductive AxiosResult : Type :=
| Response (data : list DeviceRecord)                 (* [response.data.data] *)
| ErrorResponse (status : nat) (error : option string) (* [error.response] *)
| NoResponse                                           (* [error.request] *)
| SetupError (message : string).

Record World : Type := {
  axios_post : nat -> list string -> AxiosResult;
  latency : nat -> Z;
  oversleep : nat -> Z;
  fs_mkdir : option string;
  fs_writeFile : option string
}.

(** The clock, the requests sent, the timers used, the two fields of the
    [DataAggregator] that its tasks share, the output file, the console
    and the exit code of the process. *)
Record Env : Type := {
  clock : Z;
  posted : list (list string);
  timers : nat;
  errors : list FailureEntry;
  results : list DeviceRecord;
  disk : option Summary.t;
  log : list Event;
  exitCode : option Z
}.

Definition set_clock (c : Z) (e : Env) : Env :=
  {| clock := c; posted := posted e; timers := timers e; errors := errors e;
     results := results e; disk := disk e; log := log e; exitCode := exitCode e |}.

Definition push_posted (body : list string) (e : Env) : Env :=
  {| clock := clock e; posted := posted e ++ [body]; timers := timers e;
     errors := errors e; results := results e; disk := disk e; log := log e;
     exitCode := exitCode e |}.

Definition next_timer (e : Env) : Env :=
  {| clock := clock e; posted := posted e; timers := S (timers e);
     errors := errors e; results := results e; disk := disk e; log := log e;
     exitCode := exitCode e |}.

Definition push_error (entry : FailureEntry) (e : Env) : Env :=
  {| clock := clock e; posted := posted e; timers := timers e;
     errors := errors e ++ [entry]; results := results e; disk := disk e;
     log := log e; exitCode := exitCode e |}.

Definition set_results (r : list DeviceRecord) (e : Env) : Env :=
  {| clock := clock e; posted := posted e; timers := timers e; errors := errors e;
     results := r; disk := disk e; log := log e; exitCode := exitCode e |}.

Definition set_disk (d : option Summary.t) (e : Env) : Env :=
  {| clock := clock e; posted := posted e; timers := timers e; errors := errors e;
     results := results e; disk := d; log := log e; exitCode := exitCode e |}.

Definition push_log (ev : Event) (e : Env) : Env :=
  {| clock := clock e; posted := posted e; timers := timers e; errors := errors e;
     results := results e; disk := disk e; log := log e ++ [ev];
     exitCode := exitCode e |}.

Definition set_exitCode (c : option Z) (e : Env) : Env :=
  {| clock := clock e; posted := posted e; timers := timers e; errors := errors e;
     results := results e; disk := disk e; log := log e; exitCode := c |}.

(** [Date.now()] *)
Definition Date_now : M Env Z := gets clock.

(** [Logger.info] and the like, [console.log] *)
Definition print (ev : Event) : M Env unit := modify (push_log ev).

(** [process.exit(code)] *)
Definition process_exit (code : Z) : M Env unit := modify (set_exitCode (Some code)).

Fixpoint mapi_from {A B : Type} (f : A -> nat -> B) (index : nat) (l : list A) : list B :=
  match l with
  | [] => []
  | a :: l' => f a index :: mapi_from f (S index) l'
  end.

(** [array.map((element, index) => ...)] *)
Definition mapi {A B : Type} (f : A -> nat -> B) (l : list A) : list B :=
  mapi_from f 0 l.

Section Run.
Variable cfg : Config.
Variable world : World.

(** [await new Promise(resolve => setTimeout(resolve, ms))]: the timer
    fires after [ms], or later. *)
Definition timer_fired (ms : Z) (e : Env) : Env :=
  next_timer (set_clock (clock e + Z.max ms 0 + oversleep world (timers e)) e).

Definition sleep (ms : Z) : M Env unit := modify (timer_fired ms).

(** *** services/apiClient.js *)

(** The error that [fetchDeviceData] throws for each way [axios.post]
    fails. *)
Definition fetch_result (r : AxiosResult) : outcome (list DeviceRecord) :=
  match r with
  | Response data => Returned data
  | ErrorResponse status error =>
      let message :=
        match error with
        | Some m => if (m =? "")%string then "Unknown error" else m
        | None => "Unknown error"
        end in
      Thrown ("API Error [" ++ BatchManager.toString status ++ "]: " ++ message)%string
  | NoResponse => Thrown "No response from server. Is the mock API running?"
  | SetupError message => Thrown ("Request failed: " ++ message)%string
  end.

(** [fetchDeviceData(serialNumbers)].  The signature and timestamp
    headers do not influence what the client does next and are left
    out. *)
Definition request_sent (body : list string) (e : Env) : Env :=
  set_clock (clock e + latency world (length (posted e))) (push_posted body e).

Definition fetchDeviceData (serialNumbers : list string) : M Env (list DeviceRecord) :=
  k <- gets (fun e => length (posted e)) ;;
  modify (request_sent serialNumbers) ;;
  of_outcome (fetch_result (axios_post world k serialNumbers)).

Definition testConnection : M Env bool :=
  try_catch
    (fetchDeviceData ["SN-000"] ;;
     print (Success MConnectionOk) ;;
     ret true)
    (fun error =>
     print (Error (MConnectionFailed error)) ;;
     ret false).

(** *** services/rateLimiter.js, called by one awaiting caller

    Tasks are computations on [Env]: the tasks of this program do not
    touch the limiter that runs them. *)

Section Limiter.
Variable R : Type.

Definition Task : Type := M Env R.

Inductive settlement : Type :=
| Fulfilled (result : R)
| Rejected (error : string).

(** An element of [this.queue]; [resolve] and [reject] are the two
    ways to settle [promise]. *)
Record Entry : Type := {
  task : Task;
  promise : nat
}.

Record RateLimiter : Type := {
  intervalMs : Z;
  queue : list Entry;
  isProcessing : bool;
  lastRequestTime : Z
}.

(** The limiter, the promises returned by [schedule] so far ([None]
    while pending), and the rest. *)
Record State : Type := {
  rateLimiter : RateLimiter;
  promises : list (option settlement);
  env : Env
}.

Definition set_env (e : Env) (st : State) : State :=
  {| rateLimiter := rateLimiter st; promises := promises st; env := e |}.

Definition set_promises (p : list (option settlement)) (st : State) : State :=
  {| rateLimiter := rateLimiter st; promises := p; env := env st |}.

Definition set_rateLimiter (rl : RateLimiter) (st : State) : State :=
  {| rateLimiter := rl; promises := promises st; env := env st |}.

Definition set_queue (q : list Entry) (st : State) : State :=
  set_rateLimiter
    {| intervalMs := intervalMs (rateLimiter st); queue := q;
       isProcessing := isProcessing (rateLimiter st);
       lastRequestTime := lastRequestTime (rateLimiter st) |} st.

Definition set_isProcessing (b : bool) (st : State) : State :=
  set_rateLimiter
    {| intervalMs := intervalMs (rateLimiter st); queue := queue (rateLimiter st);
       isProcessing := b;
       lastRequestTime := lastRequestTime (rateLimiter st) |} st.

Definition set_lastRequestTime (t : Z) (st : State) : State :=
  set_rateLimiter
    {| intervalMs := intervalMs (rateLimiter st); queue := queue (rateLimiter st);
       isProcessing := isProcessing (rateLimiter st);
       lastRequestTime := t |} st.

(** [new RateLimiter(intervalMs)] *)
Definition new_RateLimiter (interval : Z) : RateLimiter :=
  {| intervalMs := interval; queue := []; isProcessing := false;
     lastRequestTime := 0 |}.

Definition liftEnv {A : Type} (m : M Env A) : M State A :=
  fun st => let (o, e') := m (env st) in (o, set_env e' st).

(** [new Promise(...)]: a fresh pending promise. *)
Definition new_promise : M State nat :=
  st <- get ;;
  modify (set_promises (promises st ++ [None])) ;;
  ret (length (promises st)).

(** [resolve(result)] and [reject(error)]: only a pending promise
    changes. *)
Definition settle (p : nat) (v : settlement) : M State unit :=
  modify (fun st =>
    match nth_error (promises st) p with
    | Some None => set_promises (replace_nth p (Some v) (promises st)) st
    | _ => st
    end).

(** [await] of a promise made by [new_promise]; one that is still
    pending when this single thread comes to wait for it would never
    be settled. *)
Definition await (p : nat) : M State R :=
  st <- get ;;
  match nth_error (promises st) p with
  | Some (Some (Fulfilled result)) => ret result
  | Some (Some (Rejected error)) => throw error
  | _ => out_of_fuel
  end.

(** The [while (this.queue.length > 0)] loop of [_processQueue]. *)
Fixpoint _processQueue_while (fuel : nat) : M State unit :=
  match fuel with
  | O => out_of_fuel
  | S fuel' =>
      rl <- gets rateLimiter ;;
      match queue rl with
      | [] => ret tt
      | entry :: rest =>
          modify (set_queue rest) ;;
          now <- liftEnv Date_now ;;
          let delay := RateLimiter._calculateDelay
                         (intervalMs rl) (lastRequestTime rl) now in
          (if delay >? 0 then liftEnv (sleep delay) else ret tt) ;;
          try_catch
            (now <- liftEnv Date_now ;;
             modify (set_lastRequestTime now) ;;
             result <- liftEnv (task entry) ;;
             settle (promise entry) (Fulfilled result))
            (fun error => settle (promise entry) (Rejected error)) ;;
          _processQueue_while fuel'
      end
  end.

(** [_processQueue()].  No task of this model adds to the queue, so
    the loop ends within as many iterations as there are entries. *)
Definition _processQueue : M State unit :=
  rl <- gets rateLimiter ;;
  if isProcessing rl || (length (queue rl) =? 0)%nat then ret tt
  else
    modify (set_isProcessing true) ;;
    _processQueue_while (S (length (queue rl))) ;;
    modify (set_isProcessing false).

(** [schedule(task)], awaited by its caller. *)
Definition schedule (t : Task) : M State R :=
  p <- new_promise ;;
  st <- get ;;
  modify (set_queue (queue (rateLimiter st) ++ [{| task := t; promise := p |}])) ;;
  _processQueue ;;
  await p.

(** The [for] loop of [executeAll], from index [i] on, with
    [tasks] the elements from [i] to the end. *)
Fixpoint executeAll_for (tasks : list Task) (i total : nat)
    (onProgress : option (nat -> nat -> M Env unit)) (results : list R)
    : M State (list R) :=
  match tasks with
  | [] => ret results
  | t :: tasks' =>
      result <- schedule t ;;
      let results := results ++ [result] in
      match onProgress with
      | Some f => liftEnv (f (i + 1)%nat total)
      | None => ret tt
      end ;;
      executeAll_for tasks' (i + 1)%nat total onProgress results
  end.

Definition executeAll (tasks : list Task)
    (onProgress : option (nat -> nat -> M Env unit)) : M State (list R) :=
  executeAll_for tasks 0 (length tasks) onProgress [].

End Limiter.

Arguments liftEnv {R A} m.
Arguments rateLimiter {R} s.
Arguments promises {R} s.
Arguments env {R} s.
Arguments intervalMs {R} r.
Arguments queue {R} r.
Arguments isProcessing {R} r.
Arguments lastRequestTime {R} r.

(** *** core/aggregator.js *)

Definition generateSerialNumbers : M Env (list string) :=
  print (Info (MGenerating (TOTAL_DEVICES cfg))) ;;
  let serialNumbers :=
    BatchManager.generateSerialNumbers (TOTAL_DEVICES cfg) (DEVICE_SN_PREFIX cfg) in
  print (Success (MGenerated (length serialNumbers)
                    (nth_error serialNumbers 0)
                    (nth_error serialNumbers (length serialNumbers - 1)))) ;;
  ret serialNumbers.

Definition createBatches (serialNumbers : list string) : M Env (list (list string)) :=
  print (Info (MCreatingBatches (BATCH_SIZE cfg))) ;;
  batches <- of_outcome (BatchManager.createBatches serialNumbers (BATCH_SIZE cfg)) ;;
  print (Success (MCreatedBatches (length batches))) ;;
  ret batches.

(** [fetchBatchWithRetry(batch, batchIndex, retryCount)]; [fuel]
    bounds the depth of the recursion. *)
Fixpoint fetchBatchWithRetry_rec (fuel : nat) (batch : list string)
    (batchIndex retryCount : nat) : M Env (list DeviceRecord) :=
  match fuel with
  | O => out_of_fuel
  | S fuel' =>
      try_catch
        (data <- fetchDeviceData batch ;;
         ret data)
        (fun error =>
           if (retryCount <? MAX_RETRIES cfg)%nat then
             print (Warning (MBatchRetrying (batchIndex + 1) error
                               (retryCount + 1) (MAX_RETRIES cfg))) ;;
             sleep (RETRY_DELAY_MS cfg) ;;
             fetchBatchWithRetry_rec fuel' batch batchIndex (retryCount + 1)
           else
             print (Error (MBatchFailed (batchIndex + 1) (MAX_RETRIES cfg) error)) ;;
             modify (push_error {| batch := batchIndex + 1;
                                   serialNumbers := batch;
                                   error := error |}) ;;
             ret [])
  end.

(** The recursion is at most [MAX_RETRIES - retryCount] calls deep
    below the first. *)
Definition fetchBatchWithRetry (batch : list string) (batchIndex retryCount : nat)
    : M Env (list DeviceRecord) :=
  fetchBatchWithRetry_rec (S (MAX_RETRIES cfg - retryCount)) batch batchIndex retryCount.

(** The progress callback of [fetchAllData]:
    [(current, total) => Logger.progress(current, total, ...)]. *)
Definition on_progress : option (nat -> nat -> M Env unit) :=
  Some (fun current total => print (Progress current total)).

Definition fetchAllData (batches : list (list string))
    : M (State (list DeviceRecord)) (list DeviceRecord) :=
  liftEnv (print (Info (MStartFetch (length batches)))) ;;
  liftEnv (print (Info (MEstimated (length batches)))) ;;
  startTime <- liftEnv Date_now ;;
  let tasks := mapi (fun batch index => fetchBatchWithRetry batch index 0) batches in
  batchResults <- executeAll (list DeviceRecord) tasks on_progress ;;
  let allData := concat batchResults in
  endTime <- liftEnv Date_now ;;
  liftEnv (print (Success (MFetched (length allData) (endTime - startTime)))) ;;
  ret allData.

Definition fs_call (failure : option string) : M Env unit :=
  match failure with
  | Some message => throw message
  | None => ret tt
  end.

Definition saveResults (data : list DeviceRecord) : M Env unit :=
  try_catch
    (fs_call (fs_mkdir world) ;;
     e <- get ;;
     let summary :=
       {| Summary.totalDevices := TOTAL_DEVICES cfg;
          Summary.successfulFetches := length data;
          Summary.failedFetches := length (errors e);
          Summary.timestamp := clock e;
          Summary.data := data;
          Summary.errors := errors e |} in
     fs_call (fs_writeFile world) ;;
     modify (set_disk (Some summary)) ;;
     print (Success MSaved))
    (fun error => print (Error (MSaveFailed error))).

(** [displaySummary(data)], without the two figures computed in
    floating point (success rate and total power). *)
Definition displaySummary (data : list DeviceRecord) : M Env unit :=
  e <- get ;;
  let count s := length (filter (fun d => (status d =? s)%string) data) in
  print (SummaryTable (TOTAL_DEVICES cfg) (length data) (length (errors e))
           (if (0 <? length data)%nat
            then Some (count "Online", count "Offline") else None)).

Definition run : M (State (list DeviceRecord)) unit :=
  try_catch
    (liftEnv (print (Info MStarting)) ;;
     liftEnv (print (Info MTesting)) ;;
     isConnected <- liftEnv testConnection ;;
     (if negb isConnected
      then throw "Cannot connect to API. Please ensure the mock server is running."
      else ret tt) ;;
     serialNumbers <- liftEnv generateSerialNumbers ;;
     batches <- liftEnv (createBatches serialNumbers) ;;
     data <- fetchAllData batches ;;
     liftEnv (modify (set_results data)) ;;
     liftEnv (saveResults data) ;;
     liftEnv (displaySummary data) ;;
     liftEnv (print (Success MCompleted)))
    (fun error =>
       liftEnv (print (Error (MFatal error))) ;;
       liftEnv (process_exit 1)).

(** [new DataAggregator()] in a process started at time [clock0]. *)
Definition new_DataAggregator (clock0 : Z) : State (list DeviceRecord) :=
  {| rateLimiter := new_RateLimiter (list DeviceRecord) (REQUEST_INTERVAL_MS cfg);
     promises := [];
     env := {| clock := clock0; posted := []; timers := 0%nat; errors := [];
               results := []; disk := None; log := []; exitCode := None |} |}.

(** *** Vocabulary of the statements *)

(** What request number [k] with body [body] gives the caller of
    [fetchDeviceData]. *)
Definition answer (k : nat) (body : list string) : outcome (list DeviceRecord) :=
  fetch_result (axios_post world k body).

(** The warnings of [n] successive retries of a batch, the first being
    retry number [retryCount + 1], when failure number [j] has message
    [message j]. *)
Definition retry_log (batchIndex : nat) (message : nat -> string)
    (retryCount n : nat) : list Event :=
  map (fun j => Warning (MBatchRetrying (batchIndex + 1) (message j)
                           (retryCount + j + 1) (MAX_RETRIES cfg)))
      (seq 0 n).

(** [e'] comes after [e]: nothing recorded in [e] was changed. *)
Record grows (e e' : Env) : Prop := {
  grows_exitCode : exitCode e' = exitCode e;
  grows_disk : disk e' = disk e;
  grows_results : results e' = results e;
  grows_errors : exists l, errors e' = errors e ++ l;
  grows_posted : exists l, posted e' = posted e ++ l;
  grows_log : exists l, log e' = log e ++ l
}.

(** The environment in which [run] calls [fetchAllData], when the
    probe, sent from [e], succeeded and [batches] were made. *)
Definition prepared (batches : list (list string)) (e : Env) : Env :=
  let serialNumbers :=
    BatchManager.generateSerialNumbers (TOTAL_DEVICES cfg) (DEVICE_SN_PREFIX cfg) in
  push_log (Success (MCreatedBatches (length batches)))
    (push_log (Info (MCreatingBatches (BATCH_SIZE cfg)))
       (push_log (Success (MGenerated (length serialNumbers)
                             (nth_error serialNumbers 0)
                             (nth_error serialNumbers (length serialNumbers - 1))))
          (push_log (Info (MGenerating (TOTAL_DEVICES cfg)))
             (push_log (Success MConnectionOk)
                (request_sent ["SN-000"]
                   (push_log (Info MTesting) (push_log (Info MStarting) e))))))).

(** The [summary] that [saveResults] makes of [data] in [e]. *)
Definition report (data : list DeviceRecord) (e : Env) : Summary.t :=
  {| Summary.totalDevices := TOTAL_DEVICES cfg;
     Summary.successfulFetches := length data;
     Summary.failedFetches := length (errors e);
     Summary.timestamp := clock e;
     Summary.data := data;
     Summary.errors := errors e |}.

(** The environment [run] ends in, when [fetchAllData] returned [data]
    in the environment [e]. *)
Definition completed (data : list DeviceRecord) (e : Env) : Env :=
  push_log (Success MCompleted)
    (snd (displaySummary data (snd (saveResults data (set_results data e))))).

(** The tasks [fetchAllData] makes of its batches. *)
Definition batch_tasks (batches : list (list string)) : list (Task (list DeviceRecord)) :=
  mapi (fun batch index => fetchBatchWithRetry batch index 0) batches.

Section LimiterVocabulary.
Variable R : Type.

(** The limiter is at rest. *)
Definition Idle (st : State R) : Prop :=
  queue (rateLimiter st) = [] /\ isProcessing (rateLimiter st) = false.

(** The environment once the limiter, at rest in [st], has waited
    for the next slot. *)
Definition slot_env (st : State R) : Env :=
  let rl := rateLimiter st in
  let delay := RateLimiter._calculateDelay
                 (intervalMs rl) (lastRequestTime rl) (clock (env st)) in
  if delay >? 0 then timer_fired delay (env st) else env st.

(** The state after [schedule] from the state at rest [st], when the
    task ended as [v] and left the environment [e']. *)
Definition scheduled (st : State R) (v : settlement R) (e' : Env) : State R :=
  {| rateLimiter :=
       {| intervalMs := intervalMs (rateLimiter st); queue := [];
          isProcessing := false; lastRequestTime := clock (slot_env st) |};
     promises := promises st ++ [Some v];
     env := e' |}.

(** The call of [onProgress] after the task at index [i]. *)
Definition progress_call (onProgress : option (nat -> nat -> M Env unit))
    (i total : nat) : M (State R) unit :=
  match onProgress with
  | Some f => liftEnv (f (i + 1)%nat total)
  | None => ret tt
  end.

(** [executeAll] served the [tasks] from the limiter at rest in [st],
    with results [rs], and left [st']: each task in turn waited for its
    slot, ran in the environment the limiter had then and returned its
    result there, its promise was fulfilled with it, and the progress
    callback ran, leaving the state in which the next task is served. *)
Fixpoint served (onProgress : option (nat -> nat -> M Env unit)) (i total : nat)
    (st : State R) (tasks : list (Task R)) (rs : list R) (st' : State R) : Prop :=
  match tasks, rs with
  | [], [] => st' = st
  | t :: tasks', r :: rs' =>
      exists e' st2,
        t (slot_env st) = (Returned r, e')
        /\ progress_call onProgress i total (scheduled st (Fulfilled R r) e')
           = (Returned tt, st2)
        /\ served onProgress (i + 1)%nat total st2 tasks' rs' st'
  | _, _ => False
  end.

(** A task, or a progress callback, that always returns and changes
    nothing of what was recorded. *)
Definition Total (t : Task R) : Prop :=
  forall e, exists r e', t e = (Returned r, e') /\ grows e e'.

Definition TotalProgress (onProgress : option (nat -> nat -> M Env unit)) : Prop :=
  match onProgress with
  | Some f =>
      forall current total e,
        exists e', f current total e = (Returned tt, e') /\ grows e e'
  | None => True
  end.

End LimiterVocabulary.

End Run.

Arguments Idle {R} st.
Arguments progress_call {R} onProgress i total.
Arguments Total {R} t.
Arguments served world {R} onProgress i total st tasks rs st'.
Arguments slot_env world {R} st.
Arguments scheduled world {R} st v e'.
Arguments Fulfilled {R} result.
Arguments Rejected {R} error.
Arguments task {R} e.
Arguments promise {R} e.
Arguments intervalMs {R} r.
Arguments queue {R} r.
Arguments isProcessing {R} r.
Arguments lastRequestTime {R} r.
Arguments rateLimiter {R} s.
Arguments promises {R} s.
Arguments env {R} s.
Arguments set_env {R} e st.
Arguments set_promises {R} p st.
Arguments set_rateLimiter {R} rl st.
Arguments set_queue {R} q st.
Arguments set_isProcessing {R} b st.
Arguments set_lastRequestTime {R} t st.
Arguments liftEnv {R A} m.
Arguments new_promise {R}.
Arguments settle {R} p v.
Arguments await {R} p.
Arguments _processQueue_while world {R} fuel.
Arguments _processQueue world {R}.
Arguments schedule world {R} t.
Arguments executeAll_for world {R} tasks i total onProgress results.
Arguments executeAll world {R} tasks onProgress.

(** *** Sample configurations and worlds *)

Definition cfg23 : Config :=
  {| TOTAL_DEVICES := 23; DEVICE_SN_PREFIX := "SN-"; BATCH_SIZE := 10;
     REQUEST_INTERVAL_MS := 1000; MAX_RETRIES := 3; RETRY_DELAY_MS := 2000 |}.

(** No devices, and a batch size of zero. *)
Definition cfg0 : Config :=
  {| TOTAL_DEVICES := 0; DEVICE_SN_PREFIX := "SN-"; BATCH_SIZE := 0;
     REQUEST_INTERVAL_MS := 1000; MAX_RETRIES := 3; RETRY_DELAY_MS := 2000 |}.

Definition record_of (serial : string) : DeviceRecord :=
  {| sn := serial; power := "0.57 kW"; status := "Online"; last_updated := "" |}.

(** Every request is answered with one record per serial number. *)
Definition healthy_world : World :=
  {| axios_post := fun _ body => Response (map record_of body);
     latency := fun _ => 20; oversleep := fun _ => 1;
     fs_mkdir := None; fs_writeFile := None |}.

(** The first two requests get no response. *)
Definition flaky_world : World :=
  {| axios_post := fun k body =>
       if (k <? 2)%nat then NoResponse else Response (map record_of body);
     latency := fun _ => 20; oversleep := fun _ => 1;
     fs_mkdir := None; fs_writeFile := None |}.

(** Requests for the batch that starts with SN-010 are refused. *)
Definition dead_batch_world : World :=
  {| axios_post := fun _ body =>
       if (hd "" body =? "SN-010")%string
       then ErrorResponse 500 (Some "down")
       else Response (map record_of body);
     latency := fun _ => 20; oversleep := fun _ => 1;
     fs_mkdir := None; fs_writeFile := None |}.

(** No request gets a response. *)
Definition offline_world : World :=
  {| axios_post := fun _ _ => NoResponse;
     latency := fun _ => 5000; oversleep := fun _ => 1;
     fs_mkdir := None; fs_writeFile := None |}.

(** The server answers, the output directory cannot be made. *)
Definition readonly_world : World :=
  {| axios_post := fun _ body => Response (map record_of body);
     latency := fun _ => 20; oversleep := fun _ => 1;
     fs_mkdir := Some "EACCES: permission denied"; fs_writeFile := None |}.

(** A process that has just started, with the clock at 0. *)
Definition fresh_env : Env :=
  {| clock := 0; posted := []; timers := 0%nat; errors := []; results := [];
     disk := None; log := []; exitCode := None |}.

(** A limiter of one second with tasks that return numbers. *)
Definition fresh_limiter : State nat :=
  {| rateLimiter := new_RateLimiter nat 1000; promises := []; env := fresh_env |}.

Definition task_returning (n : nat) : Task nat := ret n.

(** A task that returns the time at which it runs, and a limiter of
    one second for such tasks. *)
Definition task_reading_clock : Task Z := gets clock.

Definition fresh_clock_limiter : State Z :=
  {| rateLimiter := new_RateLimiter Z 1000; promises := []; env := fresh_env |}.

Definition task_throwing (message : string) : Task nat := throw message.

(** The limiter once [executeAll] is through a first task, of three,
    that returned 1. *)
Definition after_first_task : State nat :=
  snd (executeAll_for healthy_world [task_returning 1] 0 3 None [] fresh_limiter).

(** *** Vocabulary of further statements *)

(** The three ways a request fails, as [fetchDeviceData] tells them
    apart. *)
Inductive FailureKind : Type :=
| RemoteRejected
| NoResponseReceived
| RequestNotSent.

Definition failure_kind (r : AxiosResult) : option FailureKind :=
  match r with
  | Response _ => None
  | ErrorResponse _ _ => Some RemoteRejected
  | NoResponse => Some NoResponseReceived
  | SetupError _ => Some RequestNotSent
  end.

(** How the task of one batch ends: with the records of a response, or
    with the message of the failure it gave up on. *)
Inductive Fate : Type :=
| Fetched (data : list DeviceRecord)
| GaveUp (message : string).

Definition fate_data (f : Fate) : list DeviceRecord :=
  match f with
  | Fetched data => data
  | GaveUp _ => []
  end.

(** The entries the batches numbered from [index] on leave in the
    errors, given their fates. *)
Fixpoint fate_errors (index : nat) (batches : list (list string)) (fates : list Fate)
    : list FailureEntry :=
  match batches, fates with
  | b :: batches', f :: fates' =>
      match f with
      | Fetched _ => []
      | GaveUp message =>
          [{| batch := index + 1; serialNumbers := b; error := message |}]
      end ++ fate_errors (S index) batches' fates'
  | _, _ => []
  end.

(** The requests made for the batches, when [counts] gives the number
    of requests for each. *)
Fixpoint requests_of (batches : list (list string)) (counts : list nat)
    : list (list string) :=
  match batches, counts with
  | b :: batches', k :: counts' => repeat b k ++ requests_of batches' counts'
  | _, _ => []
  end.

(** The answers of the world explain the fates and the request counts
    of the batches, the first request being number [offset] of the
    run: each batch is requested until a request is answered or the
    retries are used up, the requests of a batch following those of the
    batch before. *)
Fixpoint explains (cfg : Config) (world : World) (offset : nat)
    (batches : list (list string)) (fates : list Fate) (counts : list nat) : Prop :=
  match batches, fates, counts with
  | [], [], [] => True
  | b :: batches', f :: fates', k :: counts' =>
      (1 <= k)%nat
      /\ (forall j, (j < k - 1)%nat ->
            exists message, answer world (offset + j) b = Thrown message)
      /\ match f with
         | Fetched data =>
             (k <= S (MAX_RETRIES cfg))%nat
             /\ answer world (offset + (k - 1)) b = Returned data
         | GaveUp message =>
             k = S (MAX_RETRIES cfg)
             /\ answer world (offset + (k - 1)) b = Thrown message
         end
      /\ explains cfg world (offset + k) batches' fates' counts'
  | _, _, _ => False
  end.

(** The number of identifiers listed in failure entries. *)
Definition failed_identifiers (l : list FailureEntry) : nat :=
  list_sum (map (fun entry => length (serialNumbers entry)) l).

Definition is_progress (ev : Event) : bool :=
  match ev with
  | Progress _ _ => true
  | _ => false
  end.

(** The clock of this world does not run backwards: requests take time,
    timers do not fire early. *)
Definition forward (world : World) : Prop :=
  (forall k, 0 <= latency world k) /\ (forall k, 0 <= oversleep world k).

(** *** The sequential path seen from the transition system

    A limiter state of this module and a state of [Scheduler] whose
    entries are the promises: the same fields, no activation left, the
    same time. *)

Definition matches {R : Type} (st : State R) (s : Scheduler.sys nat R) : Prop :=
  Scheduler.intervalMs s = intervalMs (rateLimiter st)
  /\ Scheduler.queue s = map promise (queue (rateLimiter st))
  /\ Scheduler.isProcessing s = isProcessing (rateLimiter st)
  /\ Scheduler.lastRequestTime s = lastRequestTime (rateLimiter st)
  /\ Scheduler.loops s = []
  /\ Scheduler.now s = clock (env st).

(** The actions of one awaited [schedule] from the state at rest [st]:
    the call, the wait for the slot, the start, the time the task takes
    to leave the environment [e'], and its end [v]. *)
Definition schedule_actions {R : Type} (world : World) (st : State R)
    (v : Scheduler.settlement R) (e' : Env) : list (Scheduler.action nat R) :=
  [Scheduler.Schedule (length (promises st));
   Scheduler.Tick (clock (slot_env world st) - clock (env st));
   Scheduler.Wake 0;
   Scheduler.Tick (clock e' - clock (slot_env world st));
   Scheduler.Finish 0 v].

End Aggregator.

(** ** The same client on responses as they come

    [Aggregator] takes every successful response to carry an array of
    device records.  The client does not check that: [fetchDeviceData]
    returns [response.data.data] whatever it is, and [displaySummary]
    reads the [status] of every element of what was fetched.  This
    module is the same path on responses that are JavaScript values, as
    far as the client tells values apart, with a file system whose
    operations take time and whose failed write can leave the file
    unfinished. *)

Module Wire.
Import Aggregator.
Local Open Scope js_scope.

(** *** Values *)

#[warnings="-register-all"] Inductive JSValue : Type :=
| Undefined
| Null
| Boolean (b : bool)
| Number (n : Z)
| Text (s : string)
| Object (fields : list (string * JSValue))
| Array (elements : list JSValue).

Definition nullish (v : JSValue) : bool :=
  match v with
  | Undefined | Null => true
  | _ => false
  end.

(** The value of the field [name] of an object written with [fields]:
    of two fields of one name the later counts. *)
Definition field (name : string) (fields : list (string * JSValue)) : JSValue :=
  match find (fun kv => (fst kv =? name)%string) (rev fields) with
  | Some kv => snd kv
  | None => Undefined
  end.

(** [v.name] for a [name] that no prototype has ([data], [status]):
    reading it from [undefined] or [null] throws a [TypeError], a value
    that is not an object has no such property. *)
Definition property (v : JSValue) (name : string) : outcome JSValue :=
  match v with
  | Undefined =>
      Thrown ("Cannot read properties of undefined (reading '" ++ name ++ "')")%string
  | Null =>
      Thrown ("Cannot read properties of null (reading '" ++ name ++ "')")%string
  | Object fields => Returned (field name fields)
  | _ => Returned Undefined
  end.

(** [v === s] for a string [s]. *)
Definition is_text (v : JSValue) (s : string) : bool :=
  match v with
  | Text s' => (s' =? s)%string
  | _ => false
  end.

(** [Array.prototype.flat()]: the elements of the elements that are
    arrays, the other elements as they are. *)
Definition flat (array : list JSValue) : list JSValue :=
  flat_map (fun v => match v with Array elements => elements | _ => [v] end) array.

(** *** Data *)

Module Summary.
Record t : Type := {
  totalDevices : nat;
  successfulFetches : nat;
  failedFetches : nat;
  timestamp : Z;
  data : list JSValue;
  errors : list FailureEntry
}.
End Summary.

(** The output file: not there, created or emptied by a write that
    did not finish, or holding [JSON.stringify(summary, null, 2)]. *)
Inductive File : Type :=
| Absent
| Unfinished
| Written (summary : Summary.t).

(** What is printed: the lines of [Logger], the progress bar, and the
    two parts of the table of [displaySummary]. *)
Inductive Event : Type :=
| Info (m : Message)
| Success (m : Message)
| Warning (m : Message)
| Error (m : Message)
| Progress (current total : nat)
| SummaryCounts (total fetched failed : nat)
| SummaryStatus (online offline : nat).

(** *** The world outside *)

Inductive AxiosResult : Type :=
| Response (data : JSValue)                            (* [response.data] *)
| ErrorResponse (status : nat) (error : option string) (* [error.response] *)
| NoResponse                                           (* [error.request] *)
| SetupError (message : string).

(** What [axios.post] answers to the [k]-th request, how long that
    takes, how late the [k]-th timer fires; whether [fs.mkdir] throws
    and how long it takes; whether [fs.writeFile] throws, whether it had
    opened the file by then, and how long it takes. *)
Record World : Type := {
  axios_post : nat -> list string -> AxiosResult;
  latency : nat -> Z;
  oversleep : nat -> Z;
  fs_mkdir : option string;
  fs_mkdir_ms : Z;
  fs_writeFile : option (string * bool);
  fs_writeFile_ms : Z
}.

Record Env : Type := {
  clock : Z;
  posted : list (list string);
  timers : nat;
  errors : list FailureEntry;
  results : list JSValue;
  disk : File;
  log : list Event;
  exitCode : option Z
}.

Definition set_clock (c : Z) (e : Env) : Env :=
  {| clock := c; posted := posted e; timers := timers e; errors := errors e;
     results := results e; disk := disk e; log := log e; exitCode := exitCode e |}.

Definition push_posted (body : list string) (e : Env) : Env :=
  {| clock := clock e; posted := posted e ++ [body]; timers := timers e;
     errors := errors e; results := results e; disk := disk e; log := log e;
     exitCode := exitCode e |}.

Definition next_timer (e : Env) : Env :=
  {| clock := clock e; posted := posted e; timers := S (timers e);
     errors := errors e; results := results e; disk := disk e; log := log e;
     exitCode := exitCode e |}.

Definition push_error (entry : FailureEntry) (e : Env) : Env :=
  {| clock := clock e; posted := posted e; timers := timers e;
     errors := errors e ++ [entry]; results := results e; disk := disk e;
     log := log e; exitCode := exitCode e |}.

Definition set_results (r : list JSValue) (e : Env) : Env :=
  {| clock := clock e; posted := posted e; timers := timers e; errors := errors e;
     results := r; disk := disk e; log := log e; exitCode := exitCode e |}.

Definition set_disk (d : File) (e : Env) : Env :=
  {| clock := clock e; posted := posted e; timers := timers e; errors := errors e;
     results := results e; disk := d; log := log e; exitCode := exitCode e |}.

Definition push_log (ev : Event) (e : Env) : Env :=
  {| clock := clock e; posted := posted e; timers := timers e; errors := errors e;
     results := results e; disk := disk e; log := log e ++ [ev];
     exitCode := exitCode e |}.

Definition set_exitCode (c : option Z) (e : Env) : Env :=
  {| clock := clock e; posted := posted e; timers := timers e; errors := errors e;
     results := results e; disk := disk e; log := log e; exitCode := c |}.

Definition Date_now : M Env Z := gets clock.

Definition print (ev : Event) : M Env unit := modify (push_log ev).

Definition process_exit (code : Z) : M Env unit := modify (set_exitCode (Some code)).

Section Run.
Variable cfg : Config.
Variable world : World.

Definition timer_fired (ms : Z) (e : Env) : Env :=
  next_timer (set_clock (clock e + Z.max ms 0 + oversleep world (timers e)) e).

Definition sleep (ms : Z) : M Env unit := modify (timer_fired ms).

(** *** services/apiClient.js *)

(** What [fetchDeviceData] returns or throws for each result of
    [axios.post].  [response.data.data] is read inside the [try]: the
    [TypeError] of a response without body has neither [response] nor
    [request] and leaves by the last branch of the [catch]. *)
Definition fetch_result (r : AxiosResult) : outcome JSValue :=
  match r with
  | Response data =>
      match property data "data" with
      | Thrown message => Thrown ("Request failed: " ++ message)%string
      | o => o
      end
  | ErrorResponse status error =>
      let message :=
        match error with
        | Some m => if (m =? "")%string then "Unknown error" else m
        | None => "Unknown error"
        end in
      Thrown ("API Error [" ++ BatchManager.toString status ++ "]: " ++ message)%string
  | NoResponse => Thrown "No response from server. Is the mock API running?"
  | SetupError message => Thrown ("Request failed: " ++ message)%string
  end.

Definition request_sent (body : list string) (e : Env) : Env :=
  set_clock (clock e + latency world (length (posted e))) (push_posted body e).

Definition fetchDeviceData (serialNumbers : list string) : M Env JSValue :=
  k <- gets (fun e => length (posted e)) ;;
  modify (request_sent serialNumbers) ;;
  of_outcome (fetch_result (axios_post world k serialNumbers)).

Definition testConnection : M Env bool :=
  try_catch
    (fetchDeviceData ["SN-000"] ;;
     print (Success MConnectionOk) ;;
     ret true)
    (fun error =>
     print (Error (MConnectionFailed error)) ;;
     ret false).

(** *** services/rateLimiter.js, called by one awaiting caller *)

Section Limiter.
Variable R : Type.

Definition Task : Type := M Env R.

Inductive settlement : Type :=
| Fulfilled (result : R)
| Rejected (error : string).

Record Entry : Type := {
  task : Task;
  promise : nat
}.

Record RateLimiter : Type := {
  intervalMs : Z;
  queue : list Entry;
  isProcessing : bool;
  lastRequestTime : Z
}.

Record State : Type := {
  rateLimiter : RateLimiter;
  promises : list (option settlement);
  env : Env
}.

Definition set_env (e : Env) (st : State) : State :=
  {| rateLimiter := rateLimiter st; promises := promises st; env := e |}.

Definition set_promises (p : list (option settlement)) (st : State) : State :=
  {| rateLimiter := rateLimiter st; promises := p; env := env st |}.

Definition set_rateLimiter (rl : RateLimiter) (st : State) : State :=
  {| rateLimiter := rl; promises := promises st; env := env st |}.

Definition set_queue (q : list Entry) (st : State) : State :=
  set_rateLimiter
    {| intervalMs := intervalMs (rateLimiter st); queue := q;
       isProcessing := isProcessing (rateLimiter st);
       lastRequestTime := lastRequestTime (rateLimiter st) |} st.

Definition set_isProcessing (b : bool) (st : State) : State :=
  set_rateLimiter
    {| intervalMs := intervalMs (rateLimiter st); queue := queue (rateLimiter st);
       isProcessing := b;
       lastRequestTime := lastRequestTime (rateLimiter st) |} st.

Definition set_lastRequestTime (t : Z) (st : State) : State :=
  set_rateLimiter
    {| intervalMs := intervalMs (rateLimiter st); queue := queue (rateLimiter st);
       isProcessing := isProcessing (rateLimiter st);
       lastRequestTime := t |} st.

Definition new_RateLimiter (interval : Z) : RateLimiter :=
  {| intervalMs := interval; queue := []; isProcessing := false;
     lastRequestTime := 0 |}.

Definition liftEnv {A : Type} (m : M Env A) : M State A :=
  fun st => let (o, e') := m (env st) in (o, set_env e' st).

Definition new_promise : M State nat :=
  st <- get ;;
  modify (set_promises (promises st ++ [None])) ;;
  ret (length (promises st)).

Definition settle (p : nat) (v : settlement) : M State unit :=
  modify (fun st =>
    match nth_error (promises st) p with
    | Some None => set_promises (replace_nth p (Some v) (promises st)) st
    | _ => st
    end).

Definition await (p : nat) : M State R :=
  st <- get ;;
  match nth_error (promises st) p with
  | Some (Some (Fulfilled result)) => ret result
  | Some (Some (Rejected error)) => throw error
  | _ => out_of_fuel
  end.

Fixpoint _processQueue_while (fuel : nat) : M State unit :=
  match fuel with
  | O => out_of_fuel
  | S fuel' =>
      rl <- gets rateLimiter ;;
      match queue rl with
      | [] => ret tt
      | entry :: rest =>
          modify (set_queue rest) ;;
          now <- liftEnv Date_now ;;
          let delay := RateLimiter._calculateDelay
                         (intervalMs rl) (lastRequestTime rl) now in
          (if delay >? 0 then liftEnv (sleep delay) else ret tt) ;;
          try_catch
            (now <- liftEnv Date_now ;;
             modify (set_lastRequestTime now) ;;
             result <- liftEnv (task entry) ;;
             settle (promise entry) (Fulfilled result))
            (fun error => settle (promise entry) (Rejected error)) ;;
          _processQueue_while fuel'
      end
  end.

Definition _processQueue : M State unit :=
  rl <- gets rateLimiter ;;
  if isProcessing rl || (length (queue rl) =? 0)%nat then ret tt
  else
    modify (set_isProcessing true) ;;
    _processQueue_while (S (length (queue rl))) ;;
    modify (set_isProcessing false).

Definition schedule (t : Task) : M State R :=
  p <- new_promise ;;
  st <- get ;;
  modify (set_queue (queue (rateLimiter st) ++ [{| task := t; promise := p |}])) ;;
  _processQueue ;;
  await p.

Fixpoint executeAll_for (tasks : list Task) (i total : nat)
    (onProgress : option (nat -> nat -> M Env unit)) (results : list R)
    : M State (list R) :=
  match tasks with
  | [] => ret results
  | t :: tasks' =>
      result <- schedule t ;;
      let results := results ++ [result] in
      match onProgress with
      | Some f => liftEnv (f (i + 1)%nat total)
      | None => ret tt
      end ;;
      executeAll_for tasks' (i + 1)%nat total onProgress results
  end.

Definition executeAll (tasks : list Task)
    (onProgress : option (nat -> nat -> M Env unit)) : M State (list R) :=
  executeAll_for tasks 0 (length tasks) onProgress [].

End Limiter.

Arguments liftEnv {R A} m.
Arguments rateLimiter {R} s.
Arguments promises {R} s.
Arguments env {R} s.
Arguments intervalMs {R} r.
Arguments queue {R} r.
Arguments isProcessing {R} r.
Arguments lastRequestTime {R} r.

(** *** core/aggregator.js *)

Definition generateSerialNumbers : M Env (list string) :=
  print (Info (MGenerating (TOTAL_DEVICES cfg))) ;;
  let serialNumbers :=
    BatchManager.generateSerialNumbers (TOTAL_DEVICES cfg) (DEVICE_SN_PREFIX cfg) in
  print (Success (MGenerated (length serialNumbers)
                    (nth_error serialNumbers 0)
                    (nth_error serialNumbers (length serialNumbers - 1)))) ;;
  ret serialNumbers.

Definition createBatches (serialNumbers : list string) : M Env (list (list string)) :=
  print (Info (MCreatingBatches (BATCH_SIZE cfg))) ;;
  batches <- of_outcome (BatchManager.createBatches serialNumbers (BATCH_SIZE cfg)) ;;
  print (Success (MCreatedBatches (length batches))) ;;
  ret batches.

Fixpoint fetchBatchWithRetry_rec (fuel : nat) (batch : list string)
    (batchIndex retryCount : nat) : M Env JSValue :=
  match fuel with
  | O => out_of_fuel
  | S fuel' =>
      try_catch
        (data <- fetchDeviceData batch ;;
         ret data)
        (fun error =>
           if (retryCount <? MAX_RETRIES cfg)%nat then
             print (Warning (MBatchRetrying (batchIndex + 1) error
                               (retryCount + 1) (MAX_RETRIES cfg))) ;;
             sleep (RETRY_DELAY_MS cfg) ;;
             fetchBatchWithRetry_rec fuel' batch batchIndex (retryCount + 1)
           else
             print (Error (MBatchFailed (batchIndex + 1) (MAX_RETRIES cfg) error)) ;;
             modify (push_error {| batch := batchIndex + 1;
                                   serialNumbers := batch;
                                   error := error |}) ;;
             ret (Array []))
  end.

Definition fetchBatchWithRetry (batch : list string) (batchIndex retryCount : nat)
    : M Env JSValue :=
  fetchBatchWithRetry_rec (S (MAX_RETRIES cfg - retryCount)) batch batchIndex retryCount.

Definition on_progress : option (nat -> nat -> M Env unit) :=
  Some (fun current total => print (Progress current total)).

Definition fetchAllData (batches : list (list string))
    : M (State JSValue) (list JSValue) :=
  liftEnv (print (Info (MStartFetch (length batches)))) ;;
  liftEnv (print (Info (MEstimated (length batches)))) ;;
  startTime <- liftEnv Date_now ;;
  let tasks := mapi (fun batch index => fetchBatchWithRetry batch index 0) batches in
  batchResults <- executeAll JSValue tasks on_progress ;;
  let allData := flat batchResults in
  endTime <- liftEnv Date_now ;;
  liftEnv (print (Success (MFetched (length allData) (endTime - startTime)))) ;;
  ret allData.

(** [await fs.mkdir(outputDir, { recursive: true })] *)
Definition mkdir : M Env unit :=
  modify (fun e => set_clock (clock e + fs_mkdir_ms world) e) ;;
  match fs_mkdir world with
  | Some message => throw message
  | None => ret tt
  end.

(** [await fs.writeFile(OUTPUT_FILE, JSON.stringify(summary, null, 2), 'utf8')]:
    a write that fails after it has opened the file leaves it created
    or emptied, with at most a part of the text. *)
Definition writeFile (summary : Summary.t) : M Env unit :=
  modify (fun e => set_clock (clock e + fs_writeFile_ms world) e) ;;
  match fs_writeFile world with
  | Some (message, opened) =>
      (if opened then modify (set_disk Unfinished) else ret tt) ;;
      throw message
  | None => modify (set_disk (Written summary))
  end.

Definition saveResults (data : list JSValue) : M Env unit :=
  try_catch
    (mkdir ;;
     e <- get ;;
     let summary :=
       {| Summary.totalDevices := TOTAL_DEVICES cfg;
          Summary.successfulFetches := length data;
          Summary.failedFetches := length (errors e);
          Summary.timestamp := clock e;
          Summary.data := data;
          Summary.errors := errors e |} in
     writeFile summary ;;
     print (Success MSaved))
    (fun error => print (Error (MSaveFailed error))).

(** [data.filter(d => d.status === s).length] *)
Fixpoint count_status (s : string) (data : list JSValue) : outcome nat :=
  match data with
  | [] => Returned 0%nat
  | d :: rest =>
      match property d "status" with
      | Returned v =>
          match count_status s rest with
          | Returned n => Returned (if is_text v s then S n else n)
          | o => o
          end
      | Thrown message => Thrown message
      | OutOfFuel => OutOfFuel
      end
  end.

(** [displaySummary(data)], without the figures computed in floating
    point (success rate, percentages and total power), none of which
    can throw once the two counts are made. *)
Definition displaySummary (data : list JSValue) : M Env unit :=
  e <- get ;;
  print (SummaryCounts (TOTAL_DEVICES cfg) (length data) (length (errors e))) ;;
  if (0 <? length data)%nat then
    onlineDevices <- of_outcome (count_status "Online" data) ;;
    offlineDevices <- of_outcome (count_status "Offline" data) ;;
    print (SummaryStatus onlineDevices offlineDevices)
  else ret tt.

Definition run : M (State JSValue) unit :=
  try_catch
    (liftEnv (print (Info MStarting)) ;;
     liftEnv (print (Info MTesting)) ;;
     isConnected <- liftEnv testConnection ;;
     (if negb isConnected
      then throw "Cannot connect to API. Please ensure the mock server is running."
      else ret tt) ;;
     serialNumbers <- liftEnv generateSerialNumbers ;;
     batches <- liftEnv (createBatches serialNumbers) ;;
     data <- fetchAllData batches ;;
     liftEnv (modify (set_results data)) ;;
     liftEnv (saveResults data) ;;
     liftEnv (displaySummary data) ;;
     liftEnv (print (Success MCompleted)))
    (fun error =>
       liftEnv (print (Error (MFatal error))) ;;
       liftEnv (process_exit 1)).

(** [new DataAggregator()] in a process started at time [clock0], with
    the output file as an earlier run left it. *)
Definition new_DataAggregator (clock0 : Z) (file0 : File) : State JSValue :=
  {| rateLimiter := new_RateLimiter JSValue (REQUEST_INTERVAL_MS cfg);
     promises := [];
     env := {| clock := clock0; posted := []; timers := 0%nat; errors := [];
               results := []; disk := file0; log := []; exitCode := None |} |}.

(** *** Vocabulary of the statements *)

Definition answer (k : nat) (body : list string) : outcome JSValue :=
  fetch_result (axios_post world k body).

(** [d] is an element of what some request was answered, as [flat]
    takes it. *)
Definition answered (d : JSValue) : Prop :=
  exists k body v, answer k body = Returned v /\ In d (flat [v]).

(** No answer has [undefined] or [null] where an element is
    expected. *)
Definition Sound : Prop :=
  forall k body v, answer k body = Returned v -> existsb nullish (flat [v]) = false.

(** [e'] comes after [e] in a task: the exit code, the output file and
    the results are as they were. *)
Definition keeps (e e' : Env) : Prop :=
  exitCode e' = exitCode e /\ disk e' = disk e /\ results e' = results e.

(** The environment in which [run] calls [fetchAllData]. *)
Definition prepared (batches : list (list string)) (e : Env) : Env :=
  let serialNumbers :=
    BatchManager.generateSerialNumbers (TOTAL_DEVICES cfg) (DEVICE_SN_PREFIX cfg) in
  push_log (Success (MCreatedBatches (length batches)))
    (push_log (Info (MCreatingBatches (BATCH_SIZE cfg)))
       (push_log (Success (MGenerated (length serialNumbers)
                             (nth_error serialNumbers 0)
                             (nth_error serialNumbers (length serialNumbers - 1))))
          (push_log (Info (MGenerating (TOTAL_DEVICES cfg)))
             (push_log (Success MConnectionOk)
                (request_sent ["SN-000"]
                   (push_log (Info MTesting) (push_log (Info MStarting) e))))))).

Definition batch_tasks (batches : list (list string)) : list (Task JSValue) :=
  mapi (fun batch index => fetchBatchWithRetry batch index 0) batches.

Section LimiterVocabulary.
Variable R : Type.

Definition Idle (st : State R) : Prop :=
  queue (rateLimiter st) = [] /\ isProcessing (rateLimiter st) = false.

Definition slot_env (st : State R) : Env :=
  let rl := rateLimiter st in
  let delay := RateLimiter._calculateDelay
                 (intervalMs rl) (lastRequestTime rl) (clock (env st)) in
  if delay >? 0 then timer_fired delay (env st) else env st.

Definition scheduled (st : State R) (v : settlement R) (e' : Env) : State R :=
  {| rateLimiter :=
       {| intervalMs := intervalMs (rateLimiter st); queue := [];
          isProcessing := false; lastRequestTime := clock (slot_env st) |};
     promises := promises st ++ [Some v];
     env := e' |}.

End LimiterVocabulary.

End Run.

Arguments Idle {R} st.
Arguments slot_env world {R} st.
Arguments scheduled world {R} st v e'.
Arguments Fulfilled {R} result.
Arguments Rejected {R} error.
Arguments task {R} e.
Arguments promise {R} e.
Arguments intervalMs {R} r.
Arguments queue {R} r.
Arguments isProcessing {R} r.
Arguments lastRequestTime {R} r.
Arguments rateLimiter {R} s.
Arguments promises {R} s.
Arguments env {R} s.
Arguments set_env {R} e st.
Arguments set_promises {R} p st.
Arguments set_rateLimiter {R} rl st.
Arguments set_queue {R} q st.
Arguments set_isProcessing {R} b st.
Arguments set_lastRequestTime {R} t st.
Arguments liftEnv {R A} m.
Arguments new_promise {R}.
Arguments settle {R} p v.
Arguments await {R} p.
Arguments _processQueue_while world {R} fuel.
Arguments _processQueue world {R}.
Arguments schedule world {R} t.
Arguments executeAll_for world {R} tasks i total onProgress results.
Arguments executeAll world {R} tasks onProgress.

(** *** Sample worlds *)

(** A device record as the mock server writes it. *)
Definition device (serial : string) : JSValue :=
  Object [("sn", Text serial); ("power", Text "0.57 kW");
          ("status", Text "Online"); ("last_updated", Text "")].

(** A response body with the records of the serial numbers asked for. *)
Definition body_of (serials : list string) : JSValue :=
  Object [("data", Array (map device serials))].

(** Every request is answered in full, the file system works. *)
Definition healthy_world : World :=
  {| axios_post := fun _ body => Response (body_of body);
     latency := fun _ => 20; oversleep := fun _ => 1;
     fs_mkdir := None; fs_mkdir_ms := 2;
     fs_writeFile := None; fs_writeFile_ms := 5 |}.

(** No request gets a response. *)
Definition offline_world : World :=
  {| axios_post := fun _ _ => NoResponse;
     latency := fun _ => 5000; oversleep := fun _ => 1;
     fs_mkdir := None; fs_mkdir_ms := 2;
     fs_writeFile := None; fs_writeFile_ms := 5 |}.

(** Requests for the batch that starts with SN-010 are refused. *)
Definition dead_batch_world : World :=
  {| axios_post := fun _ body =>
       if (hd "" body =? "SN-010")%string
       then ErrorResponse 500 (Some "down")
       else Response (body_of body);
     latency := fun _ => 20; oversleep := fun _ => 1;
     fs_mkdir := None; fs_mkdir_ms := 2;
     fs_writeFile := None; fs_writeFile_ms := 5 |}.

(** The server answers, the output directory cannot be made. *)
Definition readonly_world : World :=
  {| axios_post := fun _ body => Response (body_of body);
     latency := fun _ => 20; oversleep := fun _ => 1;
     fs_mkdir := Some "EACCES: permission denied"; fs_mkdir_ms := 2;
     fs_writeFile := None; fs_writeFile_ms := 5 |}.

(** The server answers every request with status 200 and a body that
    has no [data]. *)
Definition bare_world : World :=
  {| axios_post := fun _ _ => Response (Object [("success", Boolean true)]);
     latency := fun _ => 20; oversleep := fun _ => 1;
     fs_mkdir := None; fs_mkdir_ms := 2;
     fs_writeFile := None; fs_writeFile_ms := 5 |}.

End Wire.

(** * Properties *)

(** ** BatchManager *)

Module BatchManagerFacts.
Import BatchManager.

Example generateSerialNumbers_12 :
  nth 11 (generateSerialNumbers 12 "SN-") "" = "SN-011".
Proof. reflexivity. Qed.

Example createBatches_7_3 :
  createBatches [1; 2; 3; 4; 5; 6; 7] 3 = Returned [[1; 2; 3]; [4; 5; 6]; [7]].
Proof. reflexivity. Qed.

Section Partition.
Context {A : Type}.
Implicit Types (array l : list A) (batches bs : list (list A)).

(** Inside the array and with a positive size, [slice] is a window of
    [firstn]/[skipn]. *)
Lemma slice_window array (i k : nat) :
  (i <= length array)%nat -> 
  slice array (Z.of_nat i) (Z.of_nat i + Z.of_nat k) = firstn k (skipn i array).
Proof.
  intros Hi. unfold slice.
  destruct (Z.ltb_spec (Z.of_nat i) 0) as [?|_]; [lia|].
  destruct (Z.ltb_spec (Z.of_nat i + Z.of_nat k) 0) as [?|_]; [lia|].
  rewrite (Z.min_l (Z.of_nat i)) by lia.
  rewrite Nat2Z.id.
  destruct (Z.min_spec (Z.of_nat i + Z.of_nat k) (Z.of_nat (length array)))
    as [[Hlt ->]|[Hge ->]].
  - replace (Z.to_nat (Z.of_nat i + Z.of_nat k - Z.of_nat i)) with k by lia.
    reflexivity.
  - rewrite !firstn_all2; try reflexivity; rewrite length_skipn; lia.
Qed.

Lemma Chunked_concat k l bs : Chunked k l bs -> concat bs = l.
Proof.
  induction 1 as [|l bs _ _ IH]; simpl; [reflexivity|].
  rewrite IH. apply firstn_skipn.
Qed.

Lemma Chunked_empty k l bs : Chunked k l bs -> (bs = [] <-> l = []).
Proof.
  destruct 1 as [|l bs Hl _]; split; intros E; try reflexivity;
    try discriminate; contradiction.
Qed.

Lemma Chunked_inner k l bs :
  Chunked k l bs ->
  forall j, (S j < length bs)%nat -> length (nth j bs []) = k.
Proof.
  induction 1 as [|l bs Hl Hbs IH]; intros j Hj; simpl in Hj; [lia|].
  destruct j as [|j]; simpl.
  - apply firstn_length_le.
    destruct (Nat.le_gt_cases k (length l)) as [?|Hlt]; [assumption|].
    exfalso. rewrite skipn_all2 in Hbs by lia.
    apply Chunked_empty in Hbs. destruct bs; [simpl in Hj; lia|].
    destruct Hbs as [_ Hbs]. discriminate (Hbs eq_refl).
  - apply IH. lia.
Qed.

Lemma Chunked_last k l bs :
  (1 <= k)%nat -> Chunked k l bs ->
  bs <> [] -> (1 <= length (last bs []) <= k)%nat.
Proof.
  intros Hk. induction 1 as [|l bs Hl Hbs IH]; intros Hne; [contradiction|].
  destruct bs as [|b bs'].
  - simpl. rewrite length_firstn. destruct l; [contradiction|]. simpl. lia.
  - change (last (firstn k l :: b :: bs') []) with (last (b :: bs') []).
    apply IH. discriminate.
Qed.

(** The loop, entered at index [i], appends the chunks of the rest of
    the array as soon as the fuel exceeds the number of elements left. *)
Lemma createBatches_for_fuel (k : nat) array :
  (1 <= k)%nat ->
  forall fuel (i : nat) batches,
    (length (skipn i array) < fuel)%nat ->
    exists bs,
      createBatches_for fuel array (Z.of_nat k) (Z.of_nat i) batches
        = Returned (batches ++ bs)
      /\ Chunked k (skipn i array) bs.
Proof.
  intros Hk. induction fuel as [|fuel IH]; intros i batches Hfuel; [lia|].
  simpl. destruct (Z.ltb_spec (Z.of_nat i) (Z.of_nat (length array))) as [Hlt|Hge].
  - assert (Hrest : skipn i array <> []).
    { intros E. apply (f_equal (@length A)) in E.
      rewrite length_skipn in E. simpl in E. lia. }
    rewrite <- Nat2Z.inj_add.
    destruct (IH (i + k)%nat (batches ++ [slice array (Z.of_nat i) (Z.of_nat (i + k))]))
      as [bs [Hrun Hbs]].
    { rewrite length_skipn in *. lia. }
    exists (firstn k (skipn i array) :: bs). split.
    + rewrite Hrun, <- app_assoc. simpl. do 3 f_equal.
      rewrite Nat2Z.inj_add. apply slice_window. lia.
    + constructor; [assumption|].
      rewrite skipn_skipn, (Nat.add_comm k i). assumption.
  - exists []. rewrite app_nil_r. split; [reflexivity|].
    rewrite skipn_all2 by lia. constructor.
Qed.

Lemma createBatches_chunked array (batchSize : Z) :
  1 <= batchSize ->
  exists batches,
    createBatches array batchSize = Returned batches
    /\ Chunked (Z.to_nat batchSize) array batches.
Proof.
  intros HK.
  destruct (createBatches_for_fuel (Z.to_nat batchSize) array ltac:(lia)
              (S (length array)) 0%nat [])
    as [bs [Hrun Hbs]].
  { simpl. lia. }
  rewrite Z2Nat.id in Hrun by lia. exists bs. split; assumption.
Qed.

(** C9. For every array and every integer batch size of at least 1,
    [createBatches] returns batches whose concatenation, in order, is
    the array; every batch but the last has exactly [batchSize]
    elements; the last one has between 1 and [batchSize]; and there are
    no batches exactly when the array is empty. *)
Theorem createBatches_partitions array (batchSize : Z) :
  1 <= batchSize ->
  exists batches,
    createBatches array batchSize = Returned batches
    /\ concat batches = array
    /\ (forall j, (S j < length batches)%nat ->
          Z.of_nat (length (nth j batches [])) = batchSize)
    /\ (batches <> [] -> 1 <= Z.of_nat (length (last batches [])) <= batchSize)
    /\ (batches = [] <-> array = []).
Proof.
  intros HK.
  assert (Hk : (1 <= Z.to_nat batchSize)%nat) by lia.
  destruct (createBatches_chunked array batchSize HK) as [bs [Hrun Hbs]].
  exists bs. split; [exact Hrun|]. split; [|split; [|split]].
  - exact (Chunked_concat _ _ _ Hbs).
  - intros j Hj. rewrite (Chunked_inner _ _ _ Hbs j Hj). lia.
  - intros Hne. pose proof (Chunked_last _ _ _ Hk Hbs Hne). lia.
  - exact (Chunked_empty _ _ _ Hbs).
Qed.

(** C3, as the code has it. [createBatches] does not validate its
    arguments: for the empty array and a batch size that is zero or
    negative it does not fail, it returns the empty list of batches.
    What a call with such a size does on a non-empty array is not
    stated here. *)
Theorem createBatches_nonpositive (batchSize : Z) :
  batchSize <= 0 ->
  createBatches (@nil A) batchSize = Returned [].
Proof.
  intros _. unfold createBatches. simpl.
  destruct (Z.ltb_spec 0 0); [lia|reflexivity].
Qed.

End Partition.

(** C9 at seven elements in batches of three. *)
Lemma createBatches_partitions_witness :
  1 <= 3 /\
  exists batches,
    createBatches [1; 2; 3; 4; 5; 6; 7] 3 = Returned batches
    /\ concat batches = [1; 2; 3; 4; 5; 6; 7]
    /\ (forall j, (S j < length batches)%nat ->
          Z.of_nat (length (nth j batches [])) = 3)
    /\ (batches <> [] -> 1 <= Z.of_nat (length (last batches [])) <= 3)
    /\ (batches = [] <-> [1; 2; 3; 4; 5; 6; 7] = []).
Proof.
  split; [lia|]. apply (createBatches_partitions [1; 2; 3; 4; 5; 6; 7] 3). lia.
Defined.

(** C3 as the specification words it fails: a call with batch size 0
    (and one with -2) on the empty array returns normally, with no
    batches, instead of failing with an invalid-argument error. *)
Lemma createBatches_zero_size_returns :
  createBatches (@nil string) 0 = Returned []
  /\ createBatches (@nil string) (-2) = Returned []
  /\ ~ (forall (array : list string) (batchSize : Z),
          batchSize <= 0 -> exists message, createBatches array batchSize = Thrown message).
Proof.
  split; [reflexivity|]. split; [reflexivity|].
  intros H. destruct (H [] 0) as [message E]; [lia|]. discriminate E.
Qed.

(** C3 as the code has it, at batch size -3. *)
Lemma createBatches_nonpositive_witness :
  -3 <= 0 /\ createBatches (@nil string) (-3) = Returned [].
Proof.
  split; [lia|]. apply (createBatches_nonpositive (-3)). lia.
Defined.

End BatchManagerFacts.

(** ** The rate limiter as a transition system *)

Module SchedulerFacts.
Import Scheduler.

Section Invariant.
Context {T R : Type}.
Implicit Types (s : sys T R) (a : action T R) (verdict : T -> settlement R).

Lemma spaced_snoc interval l x :
  spaced interval l -> (l <> [] -> last l 0 + interval <= x) ->
  spaced interval (l ++ [x]).
Proof.
  induction l as [|y l IH]; intros Hs Hx; [exact I|].
  destruct l as [|z l].
  - simpl. split; [|exact I]. apply Hx. discriminate.
  - destruct Hs as [Hyz Hs]. split; [exact Hyz|].
    apply IH; [exact Hs|]. intros _. apply Hx. discriminate.
Qed.

Lemma spaced_nth interval l :
  spaced interval l ->
  forall i t1 t2, nth_error l i = Some t1 -> nth_error l (S i) = Some t2 ->
    t1 + interval <= t2.
Proof.
  induction l as [|y l IH]; intros Hs i t1 t2 H1 H2; [destruct i; discriminate|].
  destruct l as [|z l]; [destruct i; discriminate|].
  destruct Hs as [Hyz Hs]. destruct i as [|i].
  - simpl in H1, H2. injection H1 as <-. injection H2 as <-. exact Hyz.
  - exact (IH Hs i t1 t2 H1 H2).
Qed.

Lemma spaced_span interval l :
  spaced interval l -> l <> [] ->
  (Z.of_nat (length l) - 1) * interval <= last l 0 - hd 0 l.
Proof.
  induction l as [|y l IH]; intros Hs Hne; [contradiction|].
  destruct l as [|z l]; [simpl; lia|].
  destruct Hs as [Hyz Hs].
  assert (IH' := IH Hs ltac:(discriminate)).
  change (last (y :: z :: l) 0) with (last (z :: l) 0).
  change (hd 0 (y :: z :: l)) with y.
  change (hd 0 (z :: l)) with z in IH'.
  change (length (y :: z :: l)) with (S (length (z :: l))).
  rewrite Nat2Z.inj_succ. lia.
Qed.

Lemma calculateDelay_reaches interval lastRequestTime now :
  lastRequestTime + interval
    <= now + RateLimiter._calculateDelay interval lastRequestTime now.
Proof.
  unfold RateLimiter._calculateDelay.
  destruct (Z.geb_spec (now - lastRequestTime) interval); lia.
Qed.

Lemma calculateDelay_nonneg interval lastRequestTime now :
  0 <= RateLimiter._calculateDelay interval lastRequestTime now.
Proof.
  unfold RateLimiter._calculateDelay.
  destruct (Z.geb_spec (now - lastRequestTime) interval); lia.
Qed.

Lemma Inv_init interval clock0 : Inv interval (@init T R interval clock0).
Proof.
  constructor; simpl; auto; try contradiction.
Qed.

Lemma last_times_snoc s (t : T) (x : Z) :
  last (map snd (started s ++ [(t, x)])) 0 = x.
Proof. rewrite map_app. simpl. apply last_last. Qed.

Lemma Inv_step interval a s s' :
  Inv interval s -> step a s = Some s' -> Inv interval s'.
Proof.
  intros [Hint Hflag Hpend Hrun Hsp Hlast Hdelay] Hstep.
  destruct a as [d|t|i|i v]; simpl in Hstep.
  - (* Tick *)
    destruct (0 <=? d); [|discriminate]. injection Hstep as <-.
    constructor; simpl; auto.
  - (* Schedule *)
    injection Hstep as <-. unfold schedule, _processQueue. simpl.
    destruct Hflag as [[Hp [act Hl]]|[Hp [Hl Hq]]]; rewrite Hp; simpl.
    + constructor; simpl; auto.
      * left. eauto.
      * rewrite Hpend, <- !app_assoc. reflexivity.
    + rewrite Hq. simpl. rewrite Hl in *. rewrite Hq in *. simpl in *.
      constructor; simpl; auto.
      * left. eauto.
      * rewrite Hpend, <- !app_assoc. reflexivity.
      * intros t0 until [E|[]] Hne. injection E as _ <-.
        rewrite Hint. apply calculateDelay_reaches.
  - (* Wake *)
    destruct Hflag as [[Hp [act Hl]]|[Hp [Hl Hq]]]; rewrite Hl in *;
      [|destruct i; discriminate].
    destruct i as [|i]; [|destruct i; discriminate]. simpl in Hstep.
    destruct act as [t until|t]; [|discriminate].
    destruct (Z.leb_spec until (now s)) as [Hu|]; [|discriminate].
    injection Hstep as <-. simpl in *.
    constructor; simpl; auto.
    * left. eauto.
    * rewrite Hpend, map_app, <- !app_assoc. reflexivity.
    * rewrite map_app, Hrun, !app_nil_r. reflexivity.
    * unfold times. simpl. rewrite map_app. apply spaced_snoc; [exact Hsp|].
      intros Hne. simpl.
      assert (Hs : started s <> []) by (destruct (started s); [contradiction|discriminate]).
      fold (times s). rewrite (Hlast Hs).
      specialize (Hdelay t until (or_introl eq_refl) Hs). lia.
    * intros _. unfold times. simpl. apply last_times_snoc.
    * intros t0 until0 [E|[]]. discriminate.
  - (* Finish *)
    destruct Hflag as [[Hp [act Hl]]|[Hp [Hl Hq]]]; rewrite Hl in *;
      [|destruct i; discriminate].
    destruct i as [|i]; [|destruct i; discriminate]. simpl in Hstep.
    destruct act as [t until|t]; [discriminate|].
    unfold while_head in Hstep. simpl in Hstep.
    destruct (queue s) as [|t' rest] eqn:Hq; injection Hstep as <-;
      simpl in *; rewrite ?Hl; simpl.
    + constructor; simpl; rewrite ?Hl, ?Hq; simpl; auto.
      * rewrite map_app, Hrun, app_nil_r. reflexivity.
      * intros; contradiction.
    + constructor; simpl; rewrite ?Hl, ?Hq; simpl; auto.
      * left. eauto.
      * rewrite map_app, Hrun, app_nil_r. reflexivity.
      * intros t0 until0 [E|[]] Hne. injection E as _ <-.
        rewrite Hint. apply calculateDelay_reaches.
Qed.

Lemma Inv_run interval acts :
  forall s s', Inv interval s -> run acts s = Some s' -> Inv interval s'.
Proof.
  induction acts as [|a acts IH]; intros s s' HI Hrun; simpl in Hrun.
  - injection Hrun as <-. exact HI.
  - destruct (step a s) as [s1|] eqn:Hstep; [|discriminate].
    exact (IH s1 s' (Inv_step _ _ _ _ HI Hstep) Hrun).
Qed.

Lemma Inv_reachable interval clock0 s :
  reachable interval clock0 s -> Inv interval s.
Proof.
  intros [acts Hrun]. exact (Inv_run _ acts _ _ (Inv_init interval clock0) Hrun).
Qed.

(** *** The drain loop left to itself *)

Lemma drain_step verdict fuel s a s1 :
  loop_action verdict s = Some a -> step a s = Some s1 ->
  run (drain (S fuel) verdict s) s = run (drain fuel verdict s1) s1.
Proof. intros Ha Hs. simpl. rewrite Ha, Hs. simpl. rewrite Hs. reflexivity. Qed.

Lemma Drained_after verdict l1 l2 s s1 s' :
  settled s1 = settled s ++ verdicts verdict l1 ->
  enqueued s1 = enqueued s ->
  Drained verdict l2 s1 s' -> Drained verdict (l1 ++ l2) s s'.
Proof.
  intros Hs He (Hl & Hp & Hq & Hs' & He').
  repeat split; try assumption.
  - rewrite Hs', Hs. unfold verdicts. rewrite map_app, app_assoc. reflexivity.
  - congruence.
Qed.

Lemma wake_then_drains verdict n :
  ExecutingDrains verdict n ->
  forall s t until fuel,
    length (queue s) = n -> loops s = [Delaying t until] ->
    until <= now s -> (2 + 3 * n <= fuel)%nat ->
    exists s', run (drain fuel verdict s) s = Some s'
               /\ Drained verdict (t :: queue s) s s'.
Proof.
  intros HE s t until fuel Hn Hl Hu Hfuel.
  destruct fuel as [|fuel]; [lia|].
  assert (Ha : loop_action verdict s = Some (Wake 0)).
  { unfold loop_action. rewrite Hl.
    destruct (Z.leb_spec until (now s)); [reflexivity|lia]. }
  assert (Hs : step (Wake 0) s
               = Some (set_loops T R [Executing t] (start_now T R t s))).
  { simpl. rewrite Hl. simpl.
    destruct (Z.leb_spec until (now s)); [reflexivity|lia]. }
  rewrite (drain_step _ _ _ _ _ Ha Hs).
  destruct (HE (set_loops T R [Executing t] (start_now T R t s)) t fuel)
    as [s' [Hrun HD]]; [exact Hn|reflexivity|lia|].
  exists s'. split; [exact Hrun|].
  exact (Drained_after verdict [] _ s _ s' (eq_sym (app_nil_r _)) eq_refl HD).
Qed.

Lemma delay_then_drains verdict n :
  ExecutingDrains verdict n -> DelayingDrains verdict n.
Proof.
  intros HE s t until fuel Hn Hl Hfuel.
  destruct (Z.leb_spec until (now s)) as [Hu|Hu].
  - apply (wake_then_drains verdict n HE s t until fuel Hn Hl Hu). lia.
  - destruct fuel as [|fuel]; [lia|].
    assert (Ha : loop_action verdict s = Some (Tick (until - now s))).
    { unfold loop_action. rewrite Hl.
      destruct (Z.leb_spec until (now s)); [lia|reflexivity]. }
    assert (Hs : step (Tick (until - now s)) s
                 = Some (set_now T R (now s + (until - now s)) s)).
    { simpl. destruct (Z.leb_spec 0 (until - now s)); [reflexivity|lia]. }
    rewrite (drain_step _ _ _ _ _ Ha Hs).
    destruct (wake_then_drains verdict n HE
                (set_now T R (now s + (until - now s)) s) t until fuel)
      as [s' [Hrun HD]]; [exact Hn|exact Hl|simpl; lia|lia|].
    exists s'. split; [exact Hrun|].
    exact (Drained_after verdict [] _ s _ s' (eq_sym (app_nil_r _)) eq_refl HD).
Qed.

Lemma finish_action verdict s t :
  loops s = [Executing t] ->
  loop_action verdict s = Some (Finish 0 (verdict t)).
Proof. intros Hl. unfold loop_action. rewrite Hl. reflexivity. Qed.

Lemma finish_last s t v :
  loops s = [Executing t] -> queue s = [] ->
  step (Finish 0 v) s
  = Some (set_loops T R [] (set_isProcessing T R false (settle T R t v s))).
Proof.
  intros Hl Hq. simpl. rewrite Hl. simpl. unfold while_head. simpl.
  rewrite Hq. simpl. rewrite Hl. reflexivity.
Qed.

Lemma finish_next s t v t' rest :
  loops s = [Executing t] -> queue s = t' :: rest ->
  step (Finish 0 v) s
  = Some (set_loops T R
            [Delaying t' (now s + RateLimiter._calculateDelay
                                     (intervalMs s) (lastRequestTime s) (now s))]
            (set_queue T R rest (settle T R t v s))).
Proof.
  intros Hl Hq. simpl. rewrite Hl. simpl. unfold while_head. simpl.
  rewrite Hq. simpl. rewrite Hl. reflexivity.
Qed.

Lemma drain_all verdict n :
  ExecutingDrains verdict n /\ DelayingDrains verdict n.
Proof.
  induction n as [|n [_ IHD]].
  - assert (HE : ExecutingDrains verdict 0).
    { intros s t fuel Hn Hl Hfuel.
      destruct (queue s) as [|? ?] eqn:Hq; [|discriminate].
      destruct fuel as [|fuel]; [lia|].
      rewrite (drain_step _ _ _ _ _ (finish_action verdict s t Hl)
                 (finish_last s t (verdict t) Hl Hq)).
      eexists. split.
      - destruct fuel; simpl; reflexivity.
      - repeat split; simpl; auto. }
    split; [exact HE|]. exact (delay_then_drains verdict 0 HE).
  - assert (HE : ExecutingDrains verdict (S n)).
    { intros s t fuel Hn Hl Hfuel.
      destruct (queue s) as [|t' rest] eqn:Hq; [discriminate|].
      destruct fuel as [|fuel]; [lia|].
      rewrite (drain_step _ _ _ _ _ (finish_action verdict s t Hl)
                 (finish_next s t (verdict t) t' rest Hl Hq)).
      match goal with
      | |- exists _, run _ ?s1 = _ /\ _ =>
          destruct (IHD s1 t'
                      (now s + RateLimiter._calculateDelay
                                 (intervalMs s) (lastRequestTime s) (now s))
                      fuel)
            as [s' [Hrun HD]]
      end.
      { simpl. simpl in Hn. lia. }
      { reflexivity. }
      { lia. }
      exists s'. split; [exact Hrun|].
      simpl in HD.
      eapply (Drained_after verdict [t] (t' :: rest)); [| |exact HD]; reflexivity. }
    split; [exact HE|]. exact (delay_then_drains verdict (S n) HE).
Qed.

End Invariant.

Section Claims.
Context {T R : Type}.
Implicit Types (s : sys T R).

(** C4. In every state the limiter can reach, whatever the order of
    [schedule] calls, clock ticks and task completions (the clock never
    runs backwards and a sleep ends no sooner than asked), two tasks
    started one after the other start at least [interval] apart, and
    the time from the first start to the last is at least the number
    of started tasks minus one, times [interval]. *)
Theorem admissions_spaced interval clock0 s :
  reachable interval clock0 s ->
  (forall i t1 t2,
      nth_error (times s) i = Some t1 -> nth_error (times s) (S i) = Some t2 ->
      t1 + interval <= t2)
  /\ (started s <> [] ->
      (Z.of_nat (length (started s)) - 1) * interval
        <= last (times s) 0 - hd 0 (times s)).
Proof.
  intros Hr. destruct (Inv_reachable _ _ _ Hr) as [_ _ _ _ Hsp _ _].
  split.
  - exact (spaced_nth _ _ Hsp).
  - intros Hne. unfold times in *.
    rewrite <- (length_map snd (started s)).
    apply spaced_span; [exact Hsp|].
    destruct (started s); [contradiction|discriminate].
Qed.

(** C5. In every state the limiter can reach there is at most one
    activation of the drain loop and so at most one task in hand; the
    tasks started so far, followed by the one in hand that is still
    waiting for its slot and by the queue, are the tasks enqueued so
    far in the order of their [schedule] calls; and the tasks settled
    so far, followed by the one being executed, are the tasks started
    so far in the order in which they started.  Ticks of any length
    may come between any two steps. *)
Theorem fifo_single_flight interval clock0 s :
  reachable interval clock0 s ->
  (length (loops s) <= 1)%nat
  /\ (length (concat (map holding (loops s))) <= 1)%nat
  /\ enqueued s
     = map fst (started s) ++ concat (map delaying (loops s)) ++ queue s
  /\ map fst (started s)
     = map fst (settled s) ++ concat (map executing (loops s)).
Proof.
  intros Hr. destruct (Inv_reachable _ _ _ Hr) as [_ Hflag Hpend Hrun _ _ _].
  repeat split; try assumption.
  - destruct Hflag as [[_ [act ->]]|[_ [-> _]]]; simpl; lia.
  - destruct Hflag as [[_ [act ->]]|[_ [-> _]]]; [destruct act|]; simpl; lia.
Qed.

(** C7. Whatever the tasks do, the drain loop goes on.  In every
    reachable state: (1) if the task in execution rejects, its error is
    appended to the settlements for that very entry and for no other,
    and when the queue is not empty the same activation shifts the next
    entry and stays active; (2) whenever no activation is left, the
    queue is empty and every entry enqueued so far has been settled, in
    order; (3) for any assignment of results and errors to the tasks,
    the loop left to itself settles the task in hand and every queued
    entry, each with its own result or error, and stops with an empty
    queue. *)
Theorem drain_isolation interval clock0 s (verdict : T -> settlement R) :
  reachable interval clock0 s ->
  (forall i error s',
      step (Finish i (Rejected error)) s = Some s' ->
      exists t,
        loops s = [Executing t]
        /\ settled s' = settled s ++ [(t, Rejected error)]
        /\ (forall t' rest, queue s = t' :: rest ->
              isProcessing s' = true /\ queue s' = rest
              /\ exists until, loops s' = [Delaying t' until]))
  /\ (loops s = [] -> queue s = [] /\ map fst (settled s) = enqueued s)
  /\ (exists s',
        run (drain (3 * S (length (queue s))) verdict s) s = Some s'
        /\ loops s' = [] /\ isProcessing s' = false /\ queue s' = []
        /\ settled s'
           = settled s
             ++ map (fun t => (t, verdict t))
                  (concat (map holding (loops s)) ++ queue s)
        /\ enqueued s' = enqueued s).
Proof.
  intros Hr. destruct (Inv_reachable _ _ _ Hr) as [_ Hflag Hpend Hrun _ _ _].
  split; [|split].
  - intros i error s' Hstep. simpl in Hstep.
    destruct Hflag as [[Hp [act Hl]]|[_ [Hl _]]]; rewrite Hl in Hstep;
      [|destruct i; discriminate].
    destruct i as [|i]; [|destruct i; discriminate]. simpl in Hstep.
    destruct act as [t until|t]; [discriminate|].
    exists t. split; [exact Hl|].
    unfold while_head in Hstep. simpl in Hstep.
    destruct (queue s) as [|t' rest] eqn:Hq; injection Hstep as <-; simpl.
    + split; [reflexivity|]. intros ? ? E. discriminate E.
    + split; [reflexivity|]. intros ? ? E. injection E as <- <-.
      rewrite Hl. simpl. eauto.
  - intros Hl. rewrite Hl in *. simpl in *.
    destruct Hflag as [[_ [act E]]|[_ [_ Hq]]]; [discriminate|].
    split; [exact Hq|]. rewrite Hpend, Hq, Hrun, !app_nil_r. reflexivity.
  - destruct Hflag as [[_ [act Hl]]|[Hp [Hl Hq]]].
    + destruct (drain_all verdict (length (queue s))) as [HE HD].
      destruct act as [t until|t].
      * destruct (HD s t until (3 * S (length (queue s)))%nat eq_refl Hl)
          as [s' [Hrun' (H1 & H2 & H3 & H4 & H5)]]; [lia|].
        exists s'. rewrite Hl. simpl. auto 6.
      * destruct (HE s t (3 * S (length (queue s)))%nat eq_refl Hl)
          as [s' [Hrun' (H1 & H2 & H3 & H4 & H5)]]; [lia|].
        exists s'. rewrite Hl. simpl. auto 6.
    + exists s. rewrite Hl, Hq. simpl. rewrite app_nil_r.
      unfold loop_action. rewrite Hl. auto 6.
Qed.

End Claims.

Example sample_state_started : started sample_state = [(1%nat, 1000); (2%nat, 2000)].
Proof. vm_compute. reflexivity. Qed.

(** C4 on the sample run. *)
Lemma admissions_spaced_witness :
  reachable 1000 600 sample_state
  /\ ((forall i t1 t2,
          nth_error (times sample_state) i = Some t1 ->
          nth_error (times sample_state) (S i) = Some t2 ->
          t1 + 1000 <= t2)
      /\ (started sample_state <> [] ->
          (Z.of_nat (length (started sample_state)) - 1) * 1000
            <= last (times sample_state) 0 - hd 0 (times sample_state))).
Proof.
  assert (Hr : reachable 1000 600 sample_state)
    by (exists sample_actions; vm_compute; reflexivity).
  split; [exact Hr|]. exact (admissions_spaced 1000 600 sample_state Hr).
Defined.

(** C5 on the sample run. *)
Lemma fifo_single_flight_witness :
  reachable 1000 600 sample_state
  /\ ((length (loops sample_state) <= 1)%nat
      /\ (length (concat (map holding (loops sample_state))) <= 1)%nat
      /\ enqueued sample_state
         = map fst (started sample_state)
             ++ concat (map delaying (loops sample_state)) ++ queue sample_state
      /\ map fst (started sample_state)
         = map fst (settled sample_state)
             ++ concat (map executing (loops sample_state))).
Proof.
  assert (Hr : reachable 1000 600 sample_state)
    by (exists sample_actions; vm_compute; reflexivity).
  split; [exact Hr|]. exact (fifo_single_flight 1000 600 sample_state Hr).
Defined.

(** C7 on the sample run: entry 2, in execution, is about to reject,
    entry 3 is queued behind it. *)
Lemma drain_isolation_witness :
  reachable 1000 600 sample_state
  /\ ((forall i error s',
          step (Finish i (Rejected error)) sample_state = Some s' ->
          exists t,
            loops sample_state = [Executing t]
            /\ settled s' = settled sample_state ++ [(t, Rejected error)]
            /\ (forall t' rest, queue sample_state = t' :: rest ->
                  isProcessing s' = true /\ queue s' = rest
                  /\ exists until, loops s' = [Delaying t' until]))
      /\ (loops sample_state = [] ->
          queue sample_state = []
          /\ map fst (settled sample_state) = enqueued sample_state)
      /\ (exists s',
            run (drain (3 * S (length (queue sample_state))) sample_verdict sample_state)
                sample_state = Some s'
            /\ loops s' = [] /\ isProcessing s' = false /\ queue s' = []
            /\ settled s'
               = settled sample_state
                 ++ map (fun t => (t, sample_verdict t))
                      (concat (map holding (loops sample_state)) ++ queue sample_state)
            /\ enqueued s' = enqueued sample_state)).
Proof.
  assert (Hr : reachable 1000 600 sample_state)
    by (exists sample_actions; vm_compute; reflexivity).
  split; [exact Hr|].
  exact (drain_isolation 1000 600 sample_state sample_verdict Hr).
Defined.

Example sample_state_drained :
  option_map (@settled nat unit)
    (run (drain 6 sample_verdict sample_state) sample_state)
  = Some [(1%nat, Rejected "boom"); (2%nat, Rejected "late"); (3%nat, Resolved tt)].
Proof. vm_compute. reflexivity. Qed.

End SchedulerFacts.

(** ** The aggregator *)

Module AggregatorFacts.
Import Aggregator.

Section Retry.
Variable cfg : Config.
Variable world : World.

#[local] Abbreviation answer := (answer world).
#[local] Abbreviation fetchDeviceData := (fetchDeviceData world).
#[local] Abbreviation fetchBatchWithRetry_rec := (fetchBatchWithRetry_rec cfg world).
#[local] Abbreviation fetchBatchWithRetry := (fetchBatchWithRetry cfg world).
#[local] Abbreviation request_sent := (request_sent world).
#[local] Abbreviation timer_fired := (timer_fired world).
#[local] Abbreviation retry_log := (retry_log cfg).

(** *** [grows] *)

Lemma grows_refl e : grows e e.
Proof. constructor; try reflexivity; exists []; symmetry; apply app_nil_r. Qed.

Lemma grows_trans e1 e2 e3 : grows e1 e2 -> grows e2 e3 -> grows e1 e3.
Proof.
  intros [Hx Hd Hr [l1 He] [l2 Hp] [l3 Hl]] [Hx' Hd' Hr' [l1' He'] [l2' Hp'] [l3' Hl']].
  constructor; try congruence.
  - exists (l1 ++ l1'). rewrite He', He, app_assoc. reflexivity.
  - exists (l2 ++ l2'). rewrite Hp', Hp, app_assoc. reflexivity.
  - exists (l3 ++ l3'). rewrite Hl', Hl, app_assoc. reflexivity.
Qed.

Lemma grows_request_sent body e : grows e (request_sent body e).
Proof.
  constructor; simpl; try reflexivity;
    [exists []; symmetry; apply app_nil_r | eexists; reflexivity
    | exists []; symmetry; apply app_nil_r].
Qed.

Lemma grows_timer_fired ms e : grows e (timer_fired ms e).
Proof.
  constructor; simpl; try reflexivity; exists []; symmetry; apply app_nil_r.
Qed.

Lemma grows_push_log ev e : grows e (push_log ev e).
Proof.
  constructor; simpl; try reflexivity;
    [exists []; symmetry; apply app_nil_r | exists []; symmetry; apply app_nil_r
    | eexists; reflexivity].
Qed.

Lemma grows_push_error entry e : grows e (push_error entry e).
Proof.
  constructor; simpl; try reflexivity;
    [eexists; reflexivity | exists []; symmetry; apply app_nil_r
    | exists []; symmetry; apply app_nil_r].
Qed.

(** *** One call of [fetchBatchWithRetry] *)

Lemma fetchDeviceData_eq body e :
  fetchDeviceData body e = (answer (length (posted e)) body, request_sent body e).
Proof. reflexivity. Qed.

Lemma answer_cases k body :
  (exists data, answer k body = Returned data)
  \/ (exists message, answer k body = Thrown message).
Proof.
  unfold answer, fetch_result. destruct (axios_post world k body); eauto.
Qed.

Lemma retry_step_ok fuel batch batchIndex retryCount e data :
  answer (length (posted e)) batch = Returned data ->
  fetchBatchWithRetry_rec (S fuel) batch batchIndex retryCount e
  = (Returned data, request_sent batch e).
Proof.
  intros H. simpl. unfold try_catch, bind at 1.
  rewrite fetchDeviceData_eq, H. reflexivity.
Qed.

Lemma retry_step_again fuel batch batchIndex retryCount e message :
  answer (length (posted e)) batch = Thrown message ->
  (retryCount < MAX_RETRIES cfg)%nat ->
  fetchBatchWithRetry_rec (S fuel) batch batchIndex retryCount e
  = fetchBatchWithRetry_rec fuel batch batchIndex (retryCount + 1)
      (timer_fired (RETRY_DELAY_MS cfg)
         (push_log (Warning (MBatchRetrying (batchIndex + 1) message
                               (retryCount + 1) (MAX_RETRIES cfg)))
            (request_sent batch e))).
Proof.
  intros H Hlt. simpl. unfold try_catch, bind at 1.
  rewrite fetchDeviceData_eq, H.
  destruct (Nat.ltb_spec retryCount (MAX_RETRIES cfg)); [reflexivity|lia].
Qed.

Lemma retry_step_giveup fuel batch batchIndex retryCount e message :
  answer (length (posted e)) batch = Thrown message ->
  (MAX_RETRIES cfg <= retryCount)%nat ->
  fetchBatchWithRetry_rec (S fuel) batch batchIndex retryCount e
  = (Returned [],
     push_error {| batch := batchIndex + 1; serialNumbers := batch; error := message |}
       (push_log (Error (MBatchFailed (batchIndex + 1) (MAX_RETRIES cfg) message))
          (request_sent batch e))).
Proof.
  intros H Hge. simpl. unfold try_catch, bind at 1.
  rewrite fetchDeviceData_eq, H.
  destruct (Nat.ltb_spec retryCount (MAX_RETRIES cfg)); [lia|reflexivity].
Qed.

Lemma retry_log_S batchIndex message retryCount n :
  retry_log batchIndex message retryCount (S n)
  = Warning (MBatchRetrying (batchIndex + 1) (message 0%nat)
               (retryCount + 1) (MAX_RETRIES cfg))
    :: retry_log batchIndex (fun j => message (S j)) (retryCount + 1) n.
Proof.
  unfold Aggregator.retry_log. simpl. rewrite Nat.add_0_r. f_equal.
  rewrite <- seq_shift, map_map. apply map_ext. intros j.
  do 2 f_equal. lia.
Qed.

(** *** The whole retry loop *)

Lemma retry_succeeds batch batchIndex data n :
  forall fuel retryCount message e,
    (n < fuel)%nat -> (retryCount + n <= MAX_RETRIES cfg)%nat ->
    (forall j, (j < n)%nat ->
       answer (length (posted e) + j) batch = Thrown (message j)) ->
    answer (length (posted e) + n) batch = Returned data ->
    exists e',
      fetchBatchWithRetry_rec fuel batch batchIndex retryCount e = (Returned data, e')
      /\ errors e' = errors e
      /\ posted e' = posted e ++ repeat batch (S n)
      /\ log e' = log e ++ retry_log batchIndex message retryCount n
      /\ grows e e'.
Proof.
  induction n as [|n IH]; intros fuel retryCount message e Hfuel Hmax Hfail Hok;
    (destruct fuel as [|fuel]; [lia|]).
  - rewrite Nat.add_0_r in Hok. rewrite (retry_step_ok _ _ _ _ _ _ Hok).
    eexists. split; [reflexivity|].
    split; [reflexivity|]. split; [reflexivity|].
    split; [symmetry; apply app_nil_r|]. apply grows_request_sent.
  - assert (H0 := Hfail 0%nat ltac:(lia)). rewrite Nat.add_0_r in H0.
    rewrite (retry_step_again _ _ _ _ _ _ H0) by lia.
    match goal with
    | |- exists _, fetchBatchWithRetry_rec _ _ _ _ ?e1 = _ /\ _ =>
        destruct (IH fuel (retryCount + 1)%nat (fun j => message (S j)) e1)
          as [e' (Hrun & Herr & Hpost & Hlog & Hgrow)]
    end.
    + lia.
    + lia.
    + intros j Hj. simpl. rewrite length_app. simpl.
      rewrite <- (Hfail (S j)) by lia. f_equal. lia.
    + simpl. rewrite length_app. simpl. rewrite <- Hok. f_equal. lia.
    + exists e'. split; [exact Hrun|]. simpl in Herr, Hpost, Hlog.
      split; [|split; [|split]].
      * exact Herr.
      * rewrite Hpost, <- app_assoc. reflexivity.
      * rewrite Hlog, retry_log_S, <- app_assoc. reflexivity.
      * refine (grows_trans _ _ _ _ Hgrow).
        eapply grows_trans; [apply grows_request_sent|].
        eapply grows_trans; [apply grows_push_log|]. apply grows_timer_fired.
Qed.

Lemma retry_exhausted batch batchIndex n :
  forall fuel retryCount message e,
    (n < fuel)%nat -> (retryCount + n = MAX_RETRIES cfg)%nat ->
    (forall j, (j <= n)%nat ->
       answer (length (posted e) + j) batch = Thrown (message j)) ->
    exists e',
      fetchBatchWithRetry_rec fuel batch batchIndex retryCount e = (Returned [], e')
      /\ errors e'
         = errors e ++ [{| batch := batchIndex + 1; serialNumbers := batch;
                           error := message n |}]
      /\ posted e' = posted e ++ repeat batch (S n)
      /\ log e'
         = log e ++ retry_log batchIndex message retryCount n
             ++ [Error (MBatchFailed (batchIndex + 1) (MAX_RETRIES cfg) (message n))]
      /\ grows e e'.
Proof.
  induction n as [|n IH]; intros fuel retryCount message e Hfuel Hmax Hfail;
    (destruct fuel as [|fuel]; [lia|]);
    assert (H0 := Hfail 0%nat ltac:(lia)); rewrite Nat.add_0_r in H0.
  - rewrite (retry_step_giveup _ _ _ _ _ _ H0) by lia.
    eexists. split; [reflexivity|].
    split; [reflexivity|]. split; [reflexivity|]. split; [reflexivity|].
    eapply grows_trans; [apply grows_request_sent|].
    eapply grows_trans; [apply grows_push_log|]. apply grows_push_error.
  - rewrite (retry_step_again _ _ _ _ _ _ H0) by lia.
    match goal with
    | |- exists _, fetchBatchWithRetry_rec _ _ _ _ ?e1 = _ /\ _ =>
        destruct (IH fuel (retryCount + 1)%nat (fun j => message (S j)) e1)
          as [e' (Hrun & Herr & Hpost & Hlog & Hgrow)]
    end.
    + lia.
    + lia.
    + intros j Hj. simpl. rewrite length_app. simpl.
      rewrite <- (Hfail (S j)) by lia. f_equal. lia.
    + exists e'. split; [exact Hrun|]. simpl in Herr, Hpost, Hlog.
      split; [|split; [|split]].
      * exact Herr.
      * rewrite Hpost, <- app_assoc. reflexivity.
      * rewrite Hlog, retry_log_S, <- !app_assoc. reflexivity.
      * refine (grows_trans _ _ _ _ Hgrow).
        eapply grows_trans; [apply grows_request_sent|].
        eapply grows_trans; [apply grows_push_log|]. apply grows_timer_fired.
Qed.

(** Whatever the transport answers, a call returns, and what was
    recorded before is still there. *)
Lemma retry_total batch batchIndex n :
  forall fuel retryCount e,
    (MAX_RETRIES cfg - retryCount <= n)%nat -> (n < fuel)%nat ->
    exists data e',
      fetchBatchWithRetry_rec fuel batch batchIndex retryCount e = (Returned data, e')
      /\ grows e e'.
Proof.
  induction n as [|n IH]; intros fuel retryCount e Hn Hfuel;
    (destruct fuel as [|fuel]; [lia|]);
    destruct (answer_cases (length (posted e)) batch) as [[data H]|[message H]].
  - rewrite (retry_step_ok _ _ _ _ _ _ H). eauto using grows_request_sent.
  - rewrite (retry_step_giveup _ _ _ _ _ _ H) by lia.
    do 2 eexists. split; [reflexivity|].
    eapply grows_trans; [apply grows_request_sent|].
    eapply grows_trans; [apply grows_push_log|]. apply grows_push_error.
  - rewrite (retry_step_ok _ _ _ _ _ _ H). eauto using grows_request_sent.
  - destruct (Nat.lt_ge_cases retryCount (MAX_RETRIES cfg)) as [Hlt|Hge].
    + rewrite (retry_step_again _ _ _ _ _ _ H) by assumption.
      match goal with
      | |- exists _ _, fetchBatchWithRetry_rec _ _ _ _ ?e1 = _ /\ _ =>
          destruct (IH fuel (retryCount + 1)%nat e1) as [data [e' [Hrun Hgrow]]]
      end; [lia|lia|].
      exists data, e'. split; [exact Hrun|].
      refine (grows_trans _ _ _ _ Hgrow).
      eapply grows_trans; [apply grows_request_sent|].
      eapply grows_trans; [apply grows_push_log|]. apply grows_timer_fired.
    + rewrite (retry_step_giveup _ _ _ _ _ _ H) by assumption.
      do 2 eexists. split; [reflexivity|].
      eapply grows_trans; [apply grows_request_sent|].
      eapply grows_trans; [apply grows_push_log|]. apply grows_push_error.
Qed.

Lemma fetchBatchWithRetry_total batch batchIndex retryCount e :
  exists data e',
    fetchBatchWithRetry batch batchIndex retryCount e = (Returned data, e')
    /\ grows e e'.
Proof.
  apply (retry_total batch batchIndex (MAX_RETRIES cfg - retryCount)); lia.
Qed.

End Retry.

Section Limiter.
Variable world : World.
Variable R : Type.
Implicit Types (st : State R) (t : Task R).

#[local] Abbreviation schedule := (schedule world).
#[local] Abbreviation slot_env := (slot_env world).
#[local] Abbreviation scheduled := (scheduled world).

Lemma nth_error_snoc {X : Type} (l : list X) (x : X) :
  nth_error (l ++ [x]) (length l) = Some x.
Proof. induction l; simpl; auto. Qed.

Lemma replace_nth_snoc {X : Type} (l : list X) (x y : X) :
  replace_nth (length l) y (l ++ [x]) = l ++ [y].
Proof. induction l; simpl; congruence. Qed.

(** Runs [schedule] from a state at rest up to the call of the task. *)
Ltac run_schedule ps :=
  unfold Aggregator.schedule, Aggregator.scheduled, Aggregator.slot_env,
    Aggregator._processQueue, Aggregator.new_promise;
  cbn;
  remember (length ps) as p eqn:Hp;
  cbv beta iota zeta delta
    [_processQueue_while bind ret gets get modify try_catch liftEnv Date_now
     sleep Aggregator.settle await throw out_of_fuel set_queue set_isProcessing
     set_lastRequestTime set_rateLimiter set_promises set_env rateLimiter
     queue isProcessing intervalMs lastRequestTime promises env task promise
     length Nat.eqb orb].

(** From a state at rest, [schedule] waits for the slot, runs the
    task, settles its promise with what the task returned, and leaves
    the limiter at rest. *)
Lemma schedule_idle_returned t st r e' :
  Idle st -> t (slot_env st) = (Returned r, e') ->
  schedule t st = (Returned r, scheduled st (Fulfilled r) e').
Proof.
  intros [Hq Hp] Ht. destruct st as [[interval q p last] ps e].
  simpl in Hq, Hp. subst q p.
  unfold Aggregator.slot_env in Ht. simpl in Ht.
  destruct (RateLimiter._calculateDelay interval last (clock e) >? 0) eqn:Hd;
    run_schedule ps; rewrite Hd, Ht; subst p;
    rewrite nth_error_snoc, replace_nth_snoc, nth_error_snoc; reflexivity.
Qed.

(** The same when the task throws: the promise is rejected with the
    task's error, which the caller of [schedule] gets. *)
Lemma schedule_idle_thrown t st message e' :
  Idle st -> t (slot_env st) = (Thrown message, e') ->
  schedule t st = (Thrown message, scheduled st (Rejected message) e').
Proof.
  intros [Hq Hp] Ht. destruct st as [[interval q p last] ps e].
  simpl in Hq, Hp. subst q p.
  unfold Aggregator.slot_env in Ht. simpl in Ht.
  destruct (RateLimiter._calculateDelay interval last (clock e) >? 0) eqn:Hd;
    run_schedule ps; rewrite Hd, Ht; subst p;
    rewrite nth_error_snoc, replace_nth_snoc, nth_error_snoc; reflexivity.
Qed.

Lemma scheduled_Idle st v e' : Idle (scheduled st v e').
Proof. split; reflexivity. Qed.

Lemma grows_slot_env st : grows (env st) (slot_env st).
Proof.
  unfold Aggregator.slot_env.
  destruct (_ >? 0); [apply grows_timer_fired|apply grows_refl].
Qed.

Lemma schedule_idle_out_of_fuel t st e' :
  Idle st -> t (slot_env st) = (OutOfFuel, e') ->
  fst (schedule t st) = OutOfFuel.
Proof.
  intros [Hq Hp] Ht. destruct st as [[interval q p last] ps e].
  simpl in Hq, Hp. subst q p.
  unfold Aggregator.slot_env in Ht. simpl in Ht.
  destruct (RateLimiter._calculateDelay interval last (clock e) >? 0) eqn:Hd;
    run_schedule ps; rewrite Hd, Ht; reflexivity.
Qed.

(** *** [executeAll] *)

#[local] Abbreviation executeAll_for := (executeAll_for world).
#[local] Abbreviation executeAll := (executeAll world).

Lemma executeAll_for_cons t tasks i total onProgress results st :
  executeAll_for (t :: tasks) i total onProgress results st
  = bind (schedule t) (fun result =>
      bind (progress_call onProgress i total) (fun _ =>
        executeAll_for tasks (i + 1)%nat total onProgress (results ++ [result]))) st.
Proof. reflexivity. Qed.

Lemma executeAll_for_app pre post total onProgress :
  forall i results st,
    executeAll_for (pre ++ post) i total onProgress results st
    = bind (executeAll_for pre i total onProgress results)
        (fun rs => executeAll_for post (i + length pre)%nat total onProgress rs) st.
Proof.
  induction pre as [|t pre IH]; intros i results st.
  - simpl. unfold bind, ret. rewrite Nat.add_0_r. reflexivity.
  - change ((t :: pre) ++ post) with (t :: (pre ++ post)).
    unfold bind. rewrite !executeAll_for_cons. unfold bind.
    destruct (schedule t st) as [[r|message|] st1]; try reflexivity.
    destruct (progress_call onProgress i total st1) as [[[]|message|] st2];
      try reflexivity.
    rewrite IH. unfold bind. simpl length.
    replace (i + 1 + length pre)%nat with (i + S (length pre))%nat by lia.
    reflexivity.
Qed.

Lemma progress_call_total onProgress i total st :
  TotalProgress onProgress ->
  exists e',
    progress_call onProgress i total st = (Returned tt, set_env e' st)
    /\ grows (env st) e'.
Proof.
  intros H. destruct onProgress as [f|]; simpl.
  - destruct (H (i + 1)%nat total (env st)) as [e' [Hf Hg]].
    exists e'. unfold liftEnv. rewrite Hf. auto.
  - exists (env st). destruct st. split; [reflexivity|apply grows_refl].
Qed.

Lemma progress_call_limiter onProgress i total st o st' :
  progress_call onProgress i total st = (o, st') ->
  rateLimiter st' = rateLimiter st /\ promises st' = promises st.
Proof.
  destruct onProgress as [f|]; simpl.
  - unfold liftEnv. destruct (f (i + 1)%nat total (env st)). intros [= _ <-].
    split; reflexivity.
  - intros [= _ <-]. split; reflexivity.
Qed.

(** With tasks that always return, [executeAll] returns one result per
    task, in order, and leaves the limiter at rest. *)
Lemma executeAll_for_total total onProgress tasks :
  Forall Total tasks -> TotalProgress onProgress ->
  forall i results st,
    Idle st ->
    exists rs st',
      executeAll_for tasks i total onProgress results st = (Returned (results ++ rs), st')
      /\ Idle st' /\ grows (env st) (env st') /\ length rs = length tasks.
Proof.
  intros Htasks Hprog. induction Htasks as [|t tasks Ht _ IH]; intros i results st Hidle.
  - exists [], st. simpl. unfold ret. rewrite app_nil_r.
    auto using grows_refl.
  - rewrite executeAll_for_cons.
    destruct (Ht (slot_env st)) as [r [e' [Hrun Hgrow]]].
    unfold bind at 1. rewrite (schedule_idle_returned t st r e' Hidle Hrun).
    destruct (progress_call_total onProgress i total
                (scheduled st (Fulfilled r) e') Hprog) as [e2 [Hp Hgrow2]].
    unfold bind at 1. rewrite Hp.
    destruct (IH (i + 1)%nat (results ++ [r])
                 (set_env e2 (scheduled st (Fulfilled r) e')))
      as [rs [st' (Hrest & Hidle' & Hgrow' & Hlen)]].
    { split; reflexivity. }
    exists (r :: rs), st'. rewrite Hrest, <- app_assoc.
    split; [reflexivity|]. split; [exact Hidle'|]. split; [|simpl; lia].
    simpl in Hgrow', Hgrow2.
    eapply grows_trans; [apply grows_slot_env|].
    eapply grows_trans; [exact Hgrow|].
    eapply grows_trans; [exact Hgrow2|exact Hgrow'].
Qed.

(** When [executeAll] returns, the limiter is at rest again and one
    promise was made per task. *)
Lemma executeAll_for_Idle total onProgress tasks :
  forall i results st rs st',
    Idle st ->
    executeAll_for tasks i total onProgress results st = (Returned rs, st') ->
    Idle st' /\ length (promises st') = (length (promises st) + length tasks)%nat.
Proof.
  induction tasks as [|t tasks IH]; intros i results st rs st' Hidle Hrun.
  - simpl in Hrun. injection Hrun as _ <-. split; [exact Hidle|simpl; lia].
  - rewrite executeAll_for_cons in Hrun. unfold bind at 1 in Hrun.
    destruct (t (slot_env st)) as [[r|message|] e'] eqn:Ht.
    + rewrite (schedule_idle_returned t st r e' Hidle Ht) in Hrun.
      unfold bind at 1 in Hrun.
      destruct (progress_call onProgress i total (scheduled st (Fulfilled r) e'))
        as [[[]|message|] st2] eqn:Hp; try discriminate.
      destruct (progress_call_limiter _ _ _ _ _ _ Hp) as [Hrl Hps].
      destruct (IH _ _ _ _ _ (conj (eq_trans (f_equal queue Hrl) eq_refl)
                                   (eq_trans (f_equal isProcessing Hrl) eq_refl)) Hrun)
        as [Hidle' Hlen].
      split; [exact Hidle'|]. rewrite Hlen, Hps. simpl. rewrite length_app. simpl. lia.
    + rewrite (schedule_idle_thrown t st message e' Hidle Ht) in Hrun. discriminate.
    + pose proof (schedule_idle_out_of_fuel t st e' Hidle Ht) as Hs.
      destruct (schedule t st) as [o st1]. simpl in Hs. subst o. discriminate.
Qed.

(** C10. When the tasks before the one at index [length pre] (and the
    progress callbacks after them) have returned, leaving the state
    [st1], and that task throws, then [executeAll] throws the same
    error.  The state it leaves is the one in which that task threw:
    its promise is the last one made and is rejected with the error,
    the queue is empty, and nothing of the tasks [post] behind it was
    scheduled or run. *)
Theorem executeAll_stops_at_rejection pre t post onProgress st rs st1 message e2 :
  Idle st ->
  executeAll_for pre 0 (length (pre ++ t :: post)) onProgress [] st = (Returned rs, st1) ->
  t (slot_env st1) = (Thrown message, e2) ->
  exists st2,
    executeAll (pre ++ t :: post) onProgress st = (Thrown message, st2)
    /\ env st2 = e2
    /\ promises st2 = promises st1 ++ [Some (Rejected message)]
    /\ length (promises st2) = (length (promises st) + length pre + 1)%nat
    /\ queue (rateLimiter st2) = [] /\ isProcessing (rateLimiter st2) = false.
Proof.
  intros Hidle Hpre Ht.
  destruct (executeAll_for_Idle _ _ _ _ _ _ _ _ Hidle Hpre) as [Hidle1 Hlen].
  exists (scheduled st1 (Rejected message) e2).
  split; [|split; [reflexivity|split; [reflexivity|split; [|split; reflexivity]]]].
  - unfold Aggregator.executeAll. rewrite executeAll_for_app.
    unfold bind at 1. rewrite Hpre. rewrite executeAll_for_cons.
    unfold bind at 1. rewrite (schedule_idle_thrown t st1 message e2 Hidle1 Ht).
    reflexivity.
  - simpl. rewrite length_app, Hlen. simpl. lia.
Qed.

End Limiter.

Section Run.
Variable cfg : Config.
Variable world : World.
Implicit Types (st : State (list DeviceRecord)) (e : Env).

#[local] Abbreviation answer := (answer world).
#[local] Abbreviation fetchBatchWithRetry := (fetchBatchWithRetry cfg world).
#[local] Abbreviation fetchAllData := (fetchAllData cfg world).
#[local] Abbreviation saveResults := (saveResults cfg world).
#[local] Abbreviation displaySummary := (displaySummary cfg).
#[local] Abbreviation run := (run cfg world).
#[local] Abbreviation batch_tasks := (batch_tasks cfg world).
#[local] Abbreviation prepared := (prepared cfg world).
#[local] Abbreviation completed := (completed cfg world).
#[local] Abbreviation report := (report cfg).
#[local] Abbreviation request_sent := (request_sent world).
#[local] Abbreviation slot_env := (slot_env world).
#[local] Abbreviation scheduled := (scheduled world).

Lemma on_progress_total : TotalProgress on_progress.
Proof.
  intros current total e. eexists. split; [reflexivity|apply grows_push_log].
Qed.

Lemma batch_tasks_total batches : Forall Total (batch_tasks batches).
Proof.
  assert (H : forall start,
             Forall Total
               (mapi_from (fun batch index => fetchBatchWithRetry batch index 0)
                  start batches)).
  { induction batches as [|b batches IH]; intros start; simpl; constructor.
    - intros e. apply fetchBatchWithRetry_total.
    - apply IH. }
  apply H.
Qed.

Lemma set_env_set_env {R : Type} (e1 e2 : Env) (s : State R) :
  set_env e2 (set_env e1 s) = set_env e2 s.
Proof. reflexivity. Qed.

Lemma set_env_env {R : Type} (s : State R) : set_env (env s) s = s.
Proof. destruct s. reflexivity. Qed.

(** [fetchAllData] in terms of [executeAll]. *)
Lemma fetchAllData_eq batches st rs st1 :
  executeAll_for world (batch_tasks batches) 0 (length (batch_tasks batches))
    on_progress []
    (set_env (push_log (Info (MEstimated (length batches)))
                (push_log (Info (MStartFetch (length batches))) (env st))) st)
  = (Returned rs, st1) ->
  fetchAllData batches st
  = (Returned (concat rs),
     set_env (push_log (Success (MFetched (length (concat rs))
                                   (clock (env st1) - clock (env st))))
                (env st1)) st1).
Proof.
  intros H. unfold Aggregator.fetchAllData, Aggregator.executeAll.
  fold (batch_tasks batches).
  cbv beta iota zeta delta [bind liftEnv print modify Date_now gets ret] in *.
  cbn [env set_env clock push_log] in *.
  rewrite !set_env_set_env, H, set_env_env. reflexivity.
Qed.

Lemma fetchAllData_total batches st :
  Idle st ->
  exists data st',
    fetchAllData batches st = (Returned data, st')
    /\ Idle st' /\ grows (env st) (env st').
Proof.
  intros Hidle.
  destruct (executeAll_for_total world (list DeviceRecord)
              (length (batch_tasks batches)) on_progress (batch_tasks batches)
              (batch_tasks_total batches) on_progress_total 0%nat []
              (set_env (push_log (Info (MEstimated (length batches)))
                          (push_log (Info (MStartFetch (length batches))) (env st))) st))
    as [rs [st1 (Hrun & Hidle1 & Hgrow & _)]].
  { exact Hidle. }
  rewrite (fetchAllData_eq batches st rs st1 Hrun).
  do 2 eexists. split; [reflexivity|]. split; [exact Hidle1|].
  simpl in *.
  eapply grows_trans; [apply grows_push_log|].
  eapply grows_trans; [apply grows_push_log|].
  eapply grows_trans; [exact Hgrow|apply grows_push_log].
Qed.

(** *** [saveResults] and [displaySummary] *)

Lemma saveResults_eq data e :
  saveResults data e = (Returned tt, snd (saveResults data e)).
Proof.
  unfold Aggregator.saveResults, try_catch, bind, fs_call.
  destruct (fs_mkdir world), (fs_writeFile world); reflexivity.
Qed.

Lemma saveResults_written data e :
  fs_mkdir world = None -> fs_writeFile world = None ->
  snd (saveResults data e)
  = push_log (Success MSaved) (set_disk (Some (report data e)) e).
Proof.
  intros H1 H2. unfold Aggregator.saveResults, try_catch, bind, fs_call.
  rewrite H1, H2. reflexivity.
Qed.

Lemma saveResults_frame data e :
  exitCode (snd (saveResults data e)) = exitCode e
  /\ errors (snd (saveResults data e)) = errors e
  /\ results (snd (saveResults data e)) = results e.
Proof.
  unfold Aggregator.saveResults, try_catch, bind, fs_call.
  destruct (fs_mkdir world), (fs_writeFile world); simpl; auto.
Qed.

Lemma displaySummary_eq data e :
  displaySummary data e = (Returned tt, snd (displaySummary data e)).
Proof. reflexivity. Qed.

Lemma displaySummary_frame data e :
  exitCode (snd (displaySummary data e)) = exitCode e
  /\ errors (snd (displaySummary data e)) = errors e
  /\ results (snd (displaySummary data e)) = results e
  /\ disk (snd (displaySummary data e)) = disk e.
Proof. simpl. auto. Qed.

Lemma completed_frame data e :
  exitCode (completed data e) = exitCode e
  /\ errors (completed data e) = errors e
  /\ results (completed data e) = data.
Proof.
  unfold Aggregator.completed. simpl.
  destruct (saveResults_frame data (set_results data e)) as (H1 & H2 & H3).
  simpl in *. auto.
Qed.

Lemma completed_disk data e :
  fs_mkdir world = None -> fs_writeFile world = None ->
  disk (completed data e) = Some (report data e).
Proof.
  intros H1 H2. unfold Aggregator.completed. simpl.
  rewrite (saveResults_written _ _ H1 H2). reflexivity.
Qed.

(** *** [run] *)

Lemma testConnection_ok e data :
  answer (length (posted e)) ["SN-000"] = Returned data ->
  testConnection world e
  = (Returned true, push_log (Success MConnectionOk) (request_sent ["SN-000"] e)).
Proof.
  intros H. unfold testConnection, try_catch, bind.
  rewrite fetchDeviceData_eq, H. reflexivity.
Qed.

Lemma testConnection_failed e message :
  answer (length (posted e)) ["SN-000"] = Thrown message ->
  testConnection world e
  = (Returned false,
     push_log (Error (MConnectionFailed message)) (request_sent ["SN-000"] e)).
Proof.
  intros H. unfold testConnection, try_catch, bind.
  rewrite fetchDeviceData_eq, H. reflexivity.
Qed.

Ltac run_to_probe :=
  unfold Aggregator.run;
  cbv beta iota zeta delta
    [try_catch bind liftEnv print modify ret throw process_exit
     generateSerialNumbers createBatches of_outcome];
  cbn [env set_env].

(** The probe succeeds and the batches are made: [run] ends as
    [fetchAllData] lets it. *)
Lemma run_completes st probe batches data st1 :
  answer (length (posted (env st))) ["SN-000"] = Returned probe ->
  BatchManager.createBatches
    (BatchManager.generateSerialNumbers (TOTAL_DEVICES cfg) (DEVICE_SN_PREFIX cfg))
    (BATCH_SIZE cfg) = Returned batches ->
  fetchAllData batches (set_env (prepared batches (env st)) st) = (Returned data, st1) ->
  run st = (Returned tt, set_env (completed data (env st1)) st1).
Proof.
  intros Hprobe Hbatches Hfetch. run_to_probe.
  rewrite (testConnection_ok _ probe) by exact Hprobe.
  cbn [negb]. rewrite Hbatches. cbn [env set_env].
  rewrite !set_env_set_env. fold (prepared batches (env st)).
  rewrite Hfetch. cbn [env set_env].
  rewrite saveResults_eq. cbn [env set_env]. 
  rewrite displaySummary_eq. cbn [env set_env].
  rewrite !set_env_set_env. reflexivity.
Qed.

(** *** Three batches, the second of which always fails *)

Lemma slot_env_frame st :
  errors (slot_env st) = errors (env st) /\ posted (slot_env st) = posted (env st).
Proof.
  unfold Aggregator.slot_env. destruct (_ >? 0); split; reflexivity.
Qed.

Lemma executeAll_step (t : Task (list DeviceRecord)) tasks i total results st r e' :
  Idle st -> t (slot_env st) = (Returned r, e') ->
  executeAll_for world (t :: tasks) i total on_progress results st
  = executeAll_for world tasks (i + 1) total on_progress (results ++ [r])
      (set_env (push_log (Progress (i + 1) total) e') (scheduled st (Fulfilled r) e')).
Proof.
  intros Hidle Ht. rewrite executeAll_for_cons. unfold bind at 1.
  rewrite (schedule_idle_returned world _ t st r e' Hidle Ht). reflexivity.
Qed.

Lemma task_succeeds batch batchIndex n e :
  (forall k, exists data, answer k batch = Returned data /\ length data = n) ->
  exists data e',
    fetchBatchWithRetry batch batchIndex 0 e = (Returned data, e')
    /\ length data = n
    /\ errors e' = errors e
    /\ posted e' = posted e ++ [batch].
Proof.
  intros H. destruct (H (length (posted e) + 0)%nat) as [data [Hok Hlen]].
  destruct (retry_succeeds cfg world batch batchIndex data 0
              (S (MAX_RETRIES cfg - 0)) 0%nat (fun _ => "") e)
    as [e' (Hrun & Herr & Hpost & _)]; try assumption; try lia.
  exists data, e'. auto.
Qed.

Lemma task_exhausts batch batchIndex e :
  (forall k, exists message, answer k batch = Thrown message) ->
  exists message e',
    fetchBatchWithRetry batch batchIndex 0 e = (Returned [], e')
    /\ errors e'
       = errors e ++ [{| batch := batchIndex + 1; serialNumbers := batch;
                         error := message |}]
    /\ answer (length (posted e) + MAX_RETRIES cfg) batch = Thrown message.
Proof.
  intros H.
  pose (message := fun j =>
          match answer (length (posted e) + j) batch with
          | Thrown m => m
          | _ => ""
          end).
  assert (Hfail : forall j, (j <= MAX_RETRIES cfg)%nat ->
            answer (length (posted e) + j) batch = Thrown (message j)).
  { intros j _. unfold message.
    destruct (H (length (posted e) + j)%nat) as [m ->]. reflexivity. }
  destruct (retry_exhausted cfg world batch batchIndex (MAX_RETRIES cfg)
              (S (MAX_RETRIES cfg - 0)) 0%nat message e)
    as [e' (Hrun & Herr & _)]; try assumption; try lia.
  exists (message (MAX_RETRIES cfg)), e'.
  split; [exact Hrun|]. split; [exact Herr|]. apply Hfail. lia.
Qed.

Lemma fetchAllData_second_of_three_fails b1 b2 b3 n1 n3 st :
  Idle st ->
  (forall k, exists data, answer k b1 = Returned data /\ length data = n1) ->
  (forall k, exists message, answer k b2 = Thrown message) ->
  (forall k, exists data, answer k b3 = Returned data /\ length data = n3) ->
  exists data st1 message,
    fetchAllData [b1; b2; b3] st = (Returned data, st1)
    /\ length data = (n1 + n3)%nat
    /\ errors (env st1)
       = errors (env st) ++ [{| batch := 2; serialNumbers := b2; error := message |}]
    /\ answer (length (posted (env st)) + 1 + MAX_RETRIES cfg) b2 = Thrown message.
Proof.
  intros Hidle H1 H2 H3.
  set (sta := set_env (push_log (Info (MEstimated (length [b1; b2; b3])))
                (push_log (Info (MStartFetch (length [b1; b2; b3]))) (env st))) st).
  assert (Hidle_a : Idle sta) by exact Hidle.
  destruct (task_succeeds b1 0 n1 (slot_env sta) H1)
    as [d1 [e1 (Hrun1 & Hlen1 & Herr1 & Hpost1)]].
  set (stb := set_env (push_log (Progress (0 + 1) 3) e1)
                (scheduled sta (Fulfilled d1) e1)).
  assert (Hidle_b : Idle stb) by (split; reflexivity).
  destruct (task_exhausts b2 1 (slot_env stb) H2)
    as [message [e2 (Hrun2 & Herr2 & Hmsg)]].
  set (stc := set_env (push_log (Progress (0 + 1 + 1) 3) e2)
                (scheduled stb (Fulfilled []) e2)).
  assert (Hidle_c : Idle stc) by (split; reflexivity).
  destruct (task_succeeds b3 2 n3 (slot_env stc) H3)
    as [d3 [e3 (Hrun3 & Hlen3 & Herr3 & Hpost3)]].
  set (std := set_env (push_log (Progress (0 + 1 + 1 + 1) 3) e3)
                (scheduled stc (Fulfilled d3) e3)).
  assert (Hexec :
    executeAll_for world (batch_tasks [b1; b2; b3]) 0
      (length (batch_tasks [b1; b2; b3])) on_progress [] sta
    = (Returned [d1; []; d3], std)).
  { change (batch_tasks [b1; b2; b3])
      with [fetchBatchWithRetry b1 0 0; fetchBatchWithRetry b2 1 0;
            fetchBatchWithRetry b3 2 0].
    rewrite (executeAll_step _ _ _ _ _ sta d1 e1 Hidle_a Hrun1).
    rewrite (executeAll_step _ _ _ _ _ stb [] e2 Hidle_b Hrun2).
    rewrite (executeAll_step _ _ _ _ _ stc d3 e3 Hidle_c Hrun3).
    reflexivity. }
  rewrite (fetchAllData_eq [b1; b2; b3] st _ _ Hexec).
  do 3 eexists. split; [reflexivity|]. split; [|split].
  - simpl. rewrite app_nil_r, length_app. lia.
  - cbn [env set_env std errors push_log].
    rewrite Herr3. destruct (slot_env_frame stc) as [-> _].
    cbn [env set_env stc errors push_log].
    rewrite Herr2. destruct (slot_env_frame stb) as [-> _].
    cbn [env set_env stb errors push_log].
    rewrite Herr1. destruct (slot_env_frame sta) as [-> _].
    reflexivity.
  - rewrite <- Hmsg. f_equal.
    destruct (slot_env_frame stb) as [_ ->].
    cbn [env set_env stb posted push_log].
    rewrite Hpost1. destruct (slot_env_frame sta) as [_ ->].
    cbn [env set_env sta posted push_log].
    rewrite length_app. simpl. lia.
Qed.

Lemma run_not_fatal st probe batches :
  Idle st ->
  answer (length (posted (env st))) ["SN-000"] = Returned probe ->
  BatchManager.createBatches
    (BatchManager.generateSerialNumbers (TOTAL_DEVICES cfg) (DEVICE_SN_PREFIX cfg))
    (BATCH_SIZE cfg) = Returned batches ->
  exitCode (env (snd (run st))) = exitCode (env st).
Proof.
  intros Hidle Hprobe Hbatches.
  destruct (fetchAllData_total batches (set_env (prepared batches (env st)) st))
    as [data [st1 (Hfetch & _ & Hgrow)]]; [exact Hidle|].
  rewrite (run_completes st probe batches data st1 Hprobe Hbatches Hfetch).
  cbn [snd env set_env]. destruct (completed_frame data (env st1)) as [-> _].
  rewrite (grows_exitCode _ _ Hgrow). reflexivity.
Qed.

End Run.

Section Claims.
Variable cfg : Config.
Variable world : World.

#[local] Abbreviation answer := (answer world).
#[local] Abbreviation fetchBatchWithRetry := (fetchBatchWithRetry cfg world).
#[local] Abbreviation retry_log := (retry_log cfg).
#[local] Abbreviation run := (run cfg world).

(** C6. A batch is fetched from any environment [e], from retry count
    0.  If the first [R] requests fail, with [R] less than the maximum
    number of retries, and the next one gives [data], the call returns
    [data]: it has sent [R + 1] requests and announced the retries 1
    to [R], so it ends with a retry count of [R], and it has recorded
    no failure.  If every request fails, the call returns the empty
    list without throwing: it has sent one request more than the
    maximum number of retries, announced every retry up to the maximum,
    given up, and appended exactly one entry to the errors. *)
Theorem retry_terminal_behaviour batch batchIndex e :
  (forall R message data,
      (R < MAX_RETRIES cfg)%nat ->
      (forall j, (j < R)%nat ->
         answer (length (posted e) + j) batch = Thrown (message j)) ->
      answer (length (posted e) + R) batch = Returned data ->
      exists e',
        fetchBatchWithRetry batch batchIndex 0 e = (Returned data, e')
        /\ errors e' = errors e
        /\ posted e' = posted e ++ repeat batch (S R)
        /\ log e' = log e ++ retry_log batchIndex message 0 R)
  /\ (forall message,
      (forall j, (j <= MAX_RETRIES cfg)%nat ->
         answer (length (posted e) + j) batch = Thrown (message j)) ->
      exists e',
        fetchBatchWithRetry batch batchIndex 0 e = (Returned [], e')
        /\ errors e'
           = errors e ++ [{| batch := batchIndex + 1; serialNumbers := batch;
                             error := message (MAX_RETRIES cfg) |}]
        /\ posted e' = posted e ++ repeat batch (S (MAX_RETRIES cfg))
        /\ log e'
           = log e ++ retry_log batchIndex message 0 (MAX_RETRIES cfg)
               ++ [Error (MBatchFailed (batchIndex + 1) (MAX_RETRIES cfg)
                             (message (MAX_RETRIES cfg)))]).
Proof.
  split.
  - intros R message data HR Hfail Hok.
    destruct (retry_succeeds cfg world batch batchIndex data R
                (S (MAX_RETRIES cfg - 0)) 0%nat message e)
      as [e' (Hrun & Herr & Hpost & Hlog & _)]; try assumption; try lia.
    exists e'. auto.
  - intros message Hfail.
    destruct (retry_exhausted cfg world batch batchIndex (MAX_RETRIES cfg)
                (S (MAX_RETRIES cfg - 0)) 0%nat message e)
      as [e' (Hrun & Herr & Hpost & Hlog & _)]; try assumption; try lia.
    exists e'. auto.
Qed.

(** C2, as the code has it.  When every request for a batch fails, the
    entry appended to the errors holds the number of the batch counted
    from one (its index plus one), the identifiers of the batch, and
    the message of the last failure.  Nothing the aggregator does
    later touches an entry: a later call for any batch, and a later
    [fetchAllData], only append to the errors; [saveResults] and
    [displaySummary] leave them as they are. *)
Theorem failure_entry_recorded batch batchIndex e message :
  (forall j, (j <= MAX_RETRIES cfg)%nat ->
     answer (length (posted e) + j) batch = Thrown (message j)) ->
  (exists e',
      fetchBatchWithRetry batch batchIndex 0 e = (Returned [], e')
      /\ errors e'
         = errors e ++ [{| batch := batchIndex + 1; serialNumbers := batch;
                           error := message (MAX_RETRIES cfg) |}])
  /\ (forall batch' batchIndex' retryCount' e1,
        exists more,
          errors (snd (fetchBatchWithRetry batch' batchIndex' retryCount' e1))
          = errors e1 ++ more)
  /\ (forall batches (st : State (list DeviceRecord)),
        Idle st ->
        exists more,
          errors (env (snd (fetchAllData cfg world batches st)))
          = errors (env st) ++ more)
  /\ (forall data e1,
        errors (snd (saveResults cfg world data e1)) = errors e1
        /\ errors (snd (displaySummary cfg data e1)) = errors e1).
Proof.
  intros Hfail. split; [|split; [|split]].
  - destruct (retry_exhausted cfg world batch batchIndex (MAX_RETRIES cfg)
                (S (MAX_RETRIES cfg - 0)) 0%nat message e)
      as [e' (Hrun & Herr & _)]; try assumption; try lia.
    exists e'. auto.
  - intros batch' batchIndex' retryCount' e1.
    destruct (fetchBatchWithRetry_total cfg world batch' batchIndex' retryCount' e1)
      as [data [e' [Hrun Hgrow]]].
    rewrite Hrun. exact (grows_errors _ _ Hgrow).
  - intros batches st Hidle.
    destruct (fetchAllData_total cfg world batches st Hidle)
      as [data [st' (Hrun & _ & Hgrow)]].
    rewrite Hrun. exact (grows_errors _ _ Hgrow).
  - intros data e1. split.
    + exact (proj1 (proj2 (saveResults_frame cfg world data e1))).
    + reflexivity.
Qed.

(** C1, as the code has it.  With 23 devices and batches of 10 the
    serial numbers fall into three batches of 10, 10 and 3.  When the
    probe succeeds, every request for the second batch fails, every
    request for the first and the third returns one record per serial
    number, and the output file can be written, the report holds 13
    successful fetches, 1 failed fetch (the number of entries of the
    errors, not of serial numbers in them), and exactly one error: it
    has batch number 2, the ten serial numbers of the second batch and
    the message of the last failed request. *)
Theorem report_of_23_in_batches_of_10 clock0 :
  TOTAL_DEVICES cfg = 23%nat -> BATCH_SIZE cfg = 10 ->
  let serials := BatchManager.generateSerialNumbers 23 (DEVICE_SN_PREFIX cfg) in
  let b1 := firstn 10 serials in
  let b2 := firstn 10 (skipn 10 serials) in
  let b3 := skipn 20 serials in
  BatchManager.createBatches serials 10 = Returned [b1; b2; b3]
  /\ length b1 = 10%nat /\ length b2 = 10%nat /\ length b3 = 3%nat
  /\ ((exists probe, answer 0 ["SN-000"] = Returned probe) ->
      (forall k, exists data, answer k b1 = Returned data /\ length data = length b1) ->
      (forall k, exists message, answer k b2 = Thrown message) ->
      (forall k, exists data, answer k b3 = Returned data /\ length data = length b3) ->
      fs_mkdir world = None -> fs_writeFile world = None ->
      exists st' summary message,
        run (new_DataAggregator cfg clock0) = (Returned tt, st')
        /\ exitCode (env st') = None
        /\ disk (env st') = Some summary
        /\ Summary.totalDevices summary = 23%nat
        /\ Summary.successfulFetches summary = 13%nat
        /\ Summary.failedFetches summary = 1%nat
        /\ Summary.errors summary
           = [{| batch := 2; serialNumbers := b2; error := message |}]
        /\ answer (2 + MAX_RETRIES cfg) b2 = Thrown message).
Proof.
  intros HT HB serials b1 b2 b3.
  assert (Hcreate : BatchManager.createBatches serials 10 = Returned [b1; b2; b3])
    by (vm_compute; reflexivity).
  split; [exact Hcreate|].
  split; [reflexivity|]. split; [reflexivity|]. split; [reflexivity|].
  intros [probe Hprobe] H1 H2 H3 Hmkdir Hwrite.
  set (st0 := new_DataAggregator cfg clock0).
  assert (Hbatches :
    BatchManager.createBatches
      (BatchManager.generateSerialNumbers (TOTAL_DEVICES cfg) (DEVICE_SN_PREFIX cfg))
      (BATCH_SIZE cfg) = Returned [b1; b2; b3])
    by (rewrite HT, HB; exact Hcreate).
  destruct (fetchAllData_second_of_three_fails cfg world b1 b2 b3
              (length b1) (length b3)
              (set_env (Aggregator.prepared cfg world [b1; b2; b3] (env st0)) st0))
    as [data [st1 [message (Hfetch & Hlen & Herr & Hmsg)]]];
    try assumption; [split; reflexivity|].
  exists (set_env (Aggregator.completed cfg world data (env st1)) st1),
    (Aggregator.report cfg data (env st1)), message.
  split; [exact (run_completes cfg world st0 probe _ data st1 Hprobe Hbatches Hfetch)|].
  destruct (fetchAllData_total cfg world [b1; b2; b3]
              (set_env (Aggregator.prepared cfg world [b1; b2; b3] (env st0)) st0))
    as [data' [st1' (Hfetch' & _ & Hgrow)]]; [split; reflexivity|].
  rewrite Hfetch in Hfetch'. injection Hfetch' as <- <-.
  destruct (completed_frame cfg world data (env st1)) as (Hx & _ & _).
  cbn [env set_env].
  split; [rewrite Hx, (grows_exitCode _ _ Hgrow); reflexivity|].
  split; [exact (completed_disk cfg world data (env st1) Hmkdir Hwrite)|].
  cbn [Aggregator.report Summary.totalDevices Summary.successfulFetches
       Summary.failedFetches Summary.errors].
  rewrite Herr, Hlen. repeat split; try assumption.
Qed.

End Claims.

(** *** The claims on sample runs *)

(** C1 in a world where the batch from SN-010 on is always refused. *)
Lemma report_of_23_in_batches_of_10_witness :
  exists st' summary message,
    run cfg23 dead_batch_world (new_DataAggregator cfg23 0) = (Returned tt, st')
    /\ exitCode (env st') = None
    /\ disk (env st') = Some summary
    /\ Summary.totalDevices summary = 23%nat
    /\ Summary.successfulFetches summary = 13%nat
    /\ Summary.failedFetches summary = 1%nat
    /\ Summary.errors summary
       = [{| batch := 2;
             serialNumbers :=
               firstn 10 (skipn 10 (BatchManager.generateSerialNumbers 23 "SN-"));
             error := message |}]
    /\ answer dead_batch_world (2 + MAX_RETRIES cfg23)
         (firstn 10 (skipn 10 (BatchManager.generateSerialNumbers 23 "SN-")))
       = Thrown message.
Proof.
  refine (proj2 (proj2 (proj2 (proj2
            (report_of_23_in_batches_of_10 cfg23 dead_batch_world 0 eq_refl eq_refl))))
            _ _ _ _ eq_refl eq_refl).
  - eexists. reflexivity.
  - intros k. eexists. split; reflexivity.
  - intros k. eexists. reflexivity.
  - intros k. eexists. split; reflexivity.
Defined.

(** C1 as the specification words it fails: in that world the second
    batch fails at every attempt and the others succeed, and the report
    says 13 successful and 1 failed fetch, not 10. *)
Lemma report_counts_failed_batches :
  let b2 := firstn 10 (skipn 10 (BatchManager.generateSerialNumbers 23 "SN-")) in
  let final := snd (run cfg23 dead_batch_world (new_DataAggregator cfg23 0)) in
  (forall k, answer dead_batch_world k b2 = Thrown "API Error [500]: down")
  /\ (forall k body, hd "" body <> "SN-010" ->
        answer dead_batch_world k body = Returned (map record_of body))
  /\ option_map Summary.successfulFetches (disk (env final)) = Some 13%nat
  /\ option_map Summary.failedFetches (disk (env final)) = Some 1%nat
  /\ option_map Summary.failedFetches (disk (env final)) <> Some 10%nat
  /\ option_map (fun s => map batch (Summary.errors s)) (disk (env final)) = Some [2%nat]
  /\ option_map (fun s => map serialNumbers (Summary.errors s)) (disk (env final))
     = Some [b2].
Proof.
  intros b2 final.
  split; [intros k; reflexivity|].
  split.
  { intros k body Hne. unfold answer. simpl.
    destruct (String.eqb_spec (hd "" body) "SN-010"); [contradiction|reflexivity]. }
  split; [vm_compute; reflexivity|].
  split; [vm_compute; reflexivity|].
  split; [vm_compute; discriminate|].
  split; vm_compute; reflexivity.
Qed.

(** C2 as the specification words it fails: the task of the batch with
    index 0 fails for good and the entry it leaves has batch number 1. *)
Lemma failure_entry_counts_from_one :
  map batch (errors (snd (fetchBatchWithRetry constants offline_world
                            ["SN-000"; "SN-001"] 0 0 fresh_env)))
  = [1%nat]
  /\ map batch (errors (snd (fetchBatchWithRetry constants offline_world
                               ["SN-000"; "SN-001"] 0 0 fresh_env)))
     <> [0%nat].
Proof. split; [vm_compute; reflexivity|vm_compute; discriminate]. Qed.

(** C2 at the batch with index 0, when no request gets a response. *)
Lemma failure_entry_recorded_witness :
  (exists e',
      fetchBatchWithRetry constants offline_world ["SN-000"; "SN-001"] 0 0 fresh_env
      = (Returned [], e')
      /\ errors e'
         = errors fresh_env
           ++ [{| batch := 0 + 1; serialNumbers := ["SN-000"; "SN-001"];
                  error := "No response from server. Is the mock API running?" |}])
  /\ (forall batch' batchIndex' retryCount' e1,
        exists more,
          errors (snd (fetchBatchWithRetry constants offline_world
                         batch' batchIndex' retryCount' e1))
          = errors e1 ++ more)
  /\ (forall batches (st : State (list DeviceRecord)),
        Idle st ->
        exists more,
          errors (env (snd (fetchAllData constants offline_world batches st)))
          = errors (env st) ++ more)
  /\ (forall data e1,
        errors (snd (saveResults constants offline_world data e1)) = errors e1
        /\ errors (snd (displaySummary constants data e1)) = errors e1).
Proof.
  apply (failure_entry_recorded constants offline_world ["SN-000"; "SN-001"] 0 fresh_env
           (fun _ => "No response from server. Is the mock API running?")).
  intros j Hj. reflexivity.
Defined.

(** C6: two failures and then a success, and failures only. *)
Lemma retry_terminal_behaviour_witness :
  (exists e',
      fetchBatchWithRetry constants flaky_world ["SN-000"] 0 0 fresh_env
      = (Returned [record_of "SN-000"], e')
      /\ errors e' = errors fresh_env
      /\ posted e' = posted fresh_env ++ repeat ["SN-000"] 3
      /\ log e'
         = log fresh_env
           ++ retry_log constants 0
                (fun _ => "No response from server. Is the mock API running?") 0 2)
  /\ (exists e',
      fetchBatchWithRetry constants offline_world ["SN-000"] 0 0 fresh_env
      = (Returned [], e')
      /\ errors e'
         = errors fresh_env
           ++ [{| batch := 0 + 1; serialNumbers := ["SN-000"];
                  error := "No response from server. Is the mock API running?" |}]
      /\ posted e' = posted fresh_env ++ repeat ["SN-000"] 4
      /\ log e'
         = log fresh_env
           ++ retry_log constants 0
                (fun _ => "No response from server. Is the mock API running?") 0 3
           ++ [Error (MBatchFailed (0 + 1) 3
                        "No response from server. Is the mock API running?")]).
Proof.
  split.
  - apply (proj1 (retry_terminal_behaviour constants flaky_world ["SN-000"] 0 fresh_env)
             2%nat (fun _ => "No response from server. Is the mock API running?")
             [record_of "SN-000"]).
    + simpl. lia.
    + intros j Hj. destruct j as [|[|j]]; [reflexivity|reflexivity|lia].
    + reflexivity.
  - apply (proj2 (retry_terminal_behaviour constants offline_world ["SN-000"] 0 fresh_env)
             (fun _ => "No response from server. Is the mock API running?")).
    intros j Hj. reflexivity.
Defined.

Lemma executeAll_stops_at_rejection_witness :
  Idle fresh_limiter
  /\ exists st2,
       executeAll healthy_world
         ([task_returning 1] ++ task_throwing "boom" :: [task_returning 3])
         None fresh_limiter
       = (Thrown "boom", st2)
       /\ env st2 = slot_env healthy_world after_first_task
       /\ promises st2 = promises after_first_task ++ [Some (Rejected "boom")]
       /\ length (promises st2)
          = (length (promises fresh_limiter) + length [task_returning 1] + 1)%nat
       /\ queue (rateLimiter st2) = [] /\ isProcessing (rateLimiter st2) = false.
Proof.
  split; [split; reflexivity|].
  apply (executeAll_stops_at_rejection healthy_world nat
           [task_returning 1] (task_throwing "boom") [task_returning 3] None
           fresh_limiter [1%nat] after_first_task "boom"
           (slot_env healthy_world after_first_task)).
  - split; reflexivity.
  - vm_compute. reflexivity.
  - reflexivity.
Defined.

Example three_tasks_second_throws :
  promises (snd (executeAll healthy_world
                   [task_returning 1; task_throwing "boom"; task_returning 3]
                   None fresh_limiter))
  = [Some (Fulfilled 1%nat); Some (Rejected "boom")].
Proof. vm_compute. reflexivity. Qed.

(** *** The sequential path is a run of the transition system

    One awaited [schedule], from a limiter at rest, is the run
    [schedule_actions] of [Scheduler]: it starts the entry at the time
    the sequential model assigns to [lastRequestTime] and ends in the
    matching state.  Timers must not fire early and the task must not
    set the clock back. *)
Lemma schedule_refines {R : Type} (world : World) (st : State R)
    (s : Scheduler.sys nat R) (t : Task R) (r : R) (e' : Env) :
  Idle st -> matches st s ->
  0 <= oversleep world (timers (env st)) ->
  t (slot_env world st) = (Returned r, e') ->
  clock (slot_env world st) <= clock e' ->
  exists s',
    Scheduler.run (schedule_actions world st (Scheduler.Resolved r) e') s = Some s'
    /\ schedule world t st = (Returned r, scheduled world st (Fulfilled r) e')
    /\ matches (scheduled world st (Fulfilled r) e') s'
    /\ Scheduler.started s'
       = Scheduler.started s ++ [(length (promises st), clock (slot_env world st))]
    /\ Scheduler.settled s'
       = Scheduler.settled s ++ [(length (promises st), Scheduler.Resolved r)].
Proof.
  intros Hidle (Hi & Hq & Hp & Hl & Hloops & Hnow) Hover Ht Hclock.
  destruct Hidle as [Hq' Hp']. rewrite Hq' in Hq. rewrite Hp' in Hp. simpl in Hq.
  assert (Hslot : clock (env st)
                  + RateLimiter._calculateDelay (intervalMs (rateLimiter st))
                      (lastRequestTime (rateLimiter st)) (clock (env st))
                  <= clock (slot_env world st)).
  { unfold slot_env.
    destruct (Z.gtb_spec (RateLimiter._calculateDelay (intervalMs (rateLimiter st))
                (lastRequestTime (rateLimiter st)) (clock (env st))) 0) as [Hd|Hd].
    - simpl. lia.
    - pose proof (SchedulerFacts.calculateDelay_nonneg (intervalMs (rateLimiter st))
                    (lastRequestTime (rateLimiter st)) (clock (env st))). lia. }
  assert (Hslot0 : clock (env st) <= clock (slot_env world st)).
  { pose proof (SchedulerFacts.calculateDelay_nonneg (intervalMs (rateLimiter st))
                  (lastRequestTime (rateLimiter st)) (clock (env st))). lia. }
  unfold schedule_actions.
  destruct s as [si sq sp sl sloops snow senq sstarted ssettled].
  simpl in Hi, Hq, Hp, Hl, Hloops, Hnow. subst si sq sp sl sloops snow.
  cbn [Scheduler.run Scheduler.step Scheduler.schedule Scheduler._processQueue
       Scheduler.while_head Scheduler.set_queue Scheduler.record_enqueue
       Scheduler.set_isProcessing Scheduler.set_loops Scheduler.set_now
       Scheduler.start_now Scheduler.settle
       Scheduler.queue Scheduler.isProcessing Scheduler.loops Scheduler.now
       Scheduler.intervalMs Scheduler.lastRequestTime Scheduler.enqueued
       Scheduler.started Scheduler.settled
       app length Nat.eqb orb nth_error replace_nth remove_nth].
  destruct (Z.leb_spec 0 (clock (slot_env world st) - clock (env st))) as [_|?]; [|lia].
  cbn [Scheduler.run Scheduler.step Scheduler.set_loops Scheduler.set_now
       Scheduler.start_now Scheduler.loops Scheduler.now Scheduler.queue
       Scheduler.isProcessing Scheduler.intervalMs Scheduler.lastRequestTime
       Scheduler.enqueued Scheduler.started Scheduler.settled nth_error].
  match goal with
  | |- context [?a <=? ?b] => destruct (Z.leb_spec a b) as [_|?]; [|lia]
  end.
  cbn [Scheduler.run Scheduler.step Scheduler.set_loops Scheduler.set_now
       Scheduler.start_now Scheduler.loops Scheduler.now Scheduler.queue
       Scheduler.isProcessing Scheduler.intervalMs Scheduler.lastRequestTime
       Scheduler.enqueued Scheduler.started Scheduler.settled nth_error replace_nth].
  destruct (Z.leb_spec 0 (clock e' - clock (slot_env world st))) as [_|?]; [|lia].
  cbn [Scheduler.run Scheduler.step Scheduler.schedule Scheduler._processQueue
       Scheduler.while_head Scheduler.set_queue Scheduler.record_enqueue
       Scheduler.set_isProcessing Scheduler.set_loops Scheduler.set_now
       Scheduler.start_now Scheduler.settle
       Scheduler.queue Scheduler.isProcessing Scheduler.loops Scheduler.now
       Scheduler.intervalMs Scheduler.lastRequestTime Scheduler.enqueued
       Scheduler.started Scheduler.settled
       app length Nat.eqb orb nth_error replace_nth remove_nth].
  eexists. split; [reflexivity|].
  split; [exact (schedule_idle_returned world R t st r e' (conj Hq' Hp') Ht)|].
  split; [|split; [|reflexivity]].
  - unfold matches. cbn. repeat split; lia.
  - cbn. do 3 f_equal. lia.
Qed.

End AggregatorFacts.

(** ** The client on responses as they come *)

Module WireFacts.
Import Aggregator Wire.

Section Tasks.
Variable cfg : Config.
Variable world : World.

#[local] Abbreviation answer := (answer world).
#[local] Abbreviation fetchDeviceData := (fetchDeviceData world).
#[local] Abbreviation fetchBatchWithRetry_rec := (fetchBatchWithRetry_rec cfg world).
#[local] Abbreviation fetchBatchWithRetry := (fetchBatchWithRetry cfg world).
#[local] Abbreviation request_sent := (request_sent world).
#[local] Abbreviation timer_fired := (timer_fired world).

Lemma keeps_refl e : keeps e e.
Proof. repeat split. Qed.

Lemma keeps_trans e1 e2 e3 : keeps e1 e2 -> keeps e2 e3 -> keeps e1 e3.
Proof. intros (H1 & H2 & H3) (H1' & H2' & H3'). repeat split; congruence. Qed.

Lemma wire_answer_cases k body :
  (exists v, answer k body = Returned v)
  \/ (exists message, answer k body = Thrown message).
Proof.
  unfold Wire.answer, Wire.fetch_result.
  destruct (axios_post world k body) as [data| | |]; eauto.
  destruct data; simpl; eauto.
Qed.

Lemma wire_fetchDeviceData_eq body e :
  fetchDeviceData body e = (answer (length (posted e)) body, request_sent body e).
Proof. reflexivity. Qed.

Lemma wire_retry_step_ok fuel batch batchIndex retryCount e v :
  answer (length (posted e)) batch = Returned v ->
  fetchBatchWithRetry_rec (S fuel) batch batchIndex retryCount e
  = (Returned v, request_sent batch e).
Proof.
  intros H. simpl. unfold try_catch, bind at 1.
  rewrite wire_fetchDeviceData_eq, H. reflexivity.
Qed.

Lemma wire_retry_step_again fuel batch batchIndex retryCount e message :
  answer (length (posted e)) batch = Thrown message ->
  (retryCount < MAX_RETRIES cfg)%nat ->
  fetchBatchWithRetry_rec (S fuel) batch batchIndex retryCount e
  = fetchBatchWithRetry_rec fuel batch batchIndex (retryCount + 1)
      (timer_fired (RETRY_DELAY_MS cfg)
         (push_log (Warning (MBatchRetrying (batchIndex + 1) message
                               (retryCount + 1) (MAX_RETRIES cfg)))
            (request_sent batch e))).
Proof.
  intros H Hlt. simpl. unfold try_catch, bind at 1.
  rewrite wire_fetchDeviceData_eq, H.
  destruct (Nat.ltb_spec retryCount (MAX_RETRIES cfg)); [reflexivity|lia].
Qed.

Lemma wire_retry_step_giveup fuel batch batchIndex retryCount e message :
  answer (length (posted e)) batch = Thrown message ->
  (MAX_RETRIES cfg <= retryCount)%nat ->
  fetchBatchWithRetry_rec (S fuel) batch batchIndex retryCount e
  = (Returned (Array []),
     push_error {| batch := batchIndex + 1; serialNumbers := batch; error := message |}
       (push_log (Error (MBatchFailed (batchIndex + 1) (MAX_RETRIES cfg) message))
          (request_sent batch e))).
Proof.
  intros H Hge. simpl. unfold try_catch, bind at 1.
  rewrite wire_fetchDeviceData_eq, H.
  destruct (Nat.ltb_spec retryCount (MAX_RETRIES cfg)); [lia|reflexivity].
Qed.

(** Whatever the server answers, a call returns: what some request was
    answered, or the empty array; the exit code, the file and the
    results are not touched. *)
Lemma wire_retry_total batch batchIndex :
  forall fuel retryCount e,
    (MAX_RETRIES cfg - retryCount < fuel)%nat ->
    exists v e',
      fetchBatchWithRetry_rec fuel batch batchIndex retryCount e = (Returned v, e')
      /\ keeps e e'
      /\ ((exists k, answer k batch = Returned v) \/ v = Array []).
Proof.
  induction fuel as [|fuel IH]; intros retryCount e Hfuel; [lia|].
  destruct (wire_answer_cases (length (posted e)) batch) as [[v H]|[message H]].
  - rewrite (wire_retry_step_ok _ _ _ _ _ _ H).
    exists v, (request_sent batch e).
    split; [reflexivity|]. split; [repeat split|]. left. eauto.
  - destruct (Nat.lt_ge_cases retryCount (MAX_RETRIES cfg)) as [Hlt|Hge].
    + rewrite (wire_retry_step_again _ _ _ _ _ _ H Hlt).
      match goal with
      | |- context [fetchBatchWithRetry_rec fuel batch batchIndex _ ?x] => set (e1 := x)
      end.
      destruct (IH (retryCount + 1)%nat e1) as (v & e' & Hrun & Hkeep & Hv); [lia|].
      exists v, e'. split; [exact Hrun|]. split; [|exact Hv].
      refine (keeps_trans e e1 e' _ Hkeep). repeat split.
    + rewrite (wire_retry_step_giveup _ _ _ _ _ _ H Hge).
      eexists _, _. split; [reflexivity|]. split; [repeat split|]. right. reflexivity.
Qed.

End Tasks.

Section Limiter.
Variable world : World.
Variable R : Type.
Implicit Types (st : State R) (t : Task R).

#[local] Abbreviation schedule := (schedule world).
#[local] Abbreviation slot_env := (slot_env world).
#[local] Abbreviation scheduled := (scheduled world).
#[local] Abbreviation executeAll_for := (executeAll_for world).

Lemma wire_schedule_returned t st r e' :
  Idle st -> t (slot_env st) = (Returned r, e') ->
  schedule t st = (Returned r, scheduled st (Fulfilled r) e').
Proof.
  intros [Hq Hp] Ht. destruct st as [[interval q p last] ps e].
  simpl in Hq, Hp. subst q p.
  unfold Wire.slot_env in Ht. simpl in Ht.
  destruct (RateLimiter._calculateDelay interval last (clock e) >? 0) eqn:Hd;
    unfold Wire.schedule, Wire.scheduled, Wire.slot_env, Wire._processQueue,
      Wire.new_promise;
    cbn;
    remember (length ps) as p eqn:Hp;
    cbv beta iota zeta delta
      [_processQueue_while bind ret gets get modify try_catch liftEnv Date_now
       sleep Wire.settle await throw out_of_fuel set_queue set_isProcessing
       set_lastRequestTime set_rateLimiter set_promises set_env rateLimiter
       queue isProcessing intervalMs lastRequestTime promises env task promise
       length Nat.eqb orb];
    rewrite Hd, Ht; subst p;
    rewrite AggregatorFacts.nth_error_snoc, AggregatorFacts.replace_nth_snoc,
      AggregatorFacts.nth_error_snoc; reflexivity.
Qed.

Lemma wire_slot_env_keeps st : keeps (env st) (slot_env st).
Proof.
  unfold Wire.slot_env. destruct (_ >? 0); repeat split.
Qed.

(** With tasks that always return a result that is [Q], [executeAll]
    returns one result per task, all [Q]. *)
Lemma wire_executeAll_total (Q : R -> Prop) total tasks :
  Forall (fun t => forall e, exists r e', t e = (Returned r, e') /\ keeps e e' /\ Q r)
    tasks ->
  forall i results st,
    Idle st ->
    exists rs st',
      executeAll_for tasks i total on_progress results st = (Returned (results ++ rs), st')
      /\ Idle st' /\ keeps (env st) (env st') /\ Forall Q rs.
Proof.
  intros Htasks. induction Htasks as [|t tasks Ht _ IH]; intros i results st Hidle.
  - exists [], st. simpl. unfold ret. rewrite app_nil_r.
    split; [reflexivity|]. split; [exact Hidle|]. split; [repeat split|constructor].
  - destruct (Ht (slot_env st)) as (r & e' & Hrun & Hkeep & Hq).
    cbn [Wire.executeAll_for]. unfold bind at 1.
    rewrite (wire_schedule_returned t st r e' Hidle Hrun).
    unfold bind at 1. cbn [on_progress].
    unfold liftEnv at 1, print, modify. cbn [env scheduled Wire.scheduled].
    match goal with
    | |- context [executeAll_for tasks _ total on_progress _ ?x] => set (st1 := x)
    end.
    destruct (IH (i + 1)%nat (results ++ [r]) st1)
      as (rs & st' & Hrest & Hidle' & Hkeep' & Hall).
    { split; reflexivity. }
    exists (r :: rs), st'. rewrite Hrest, <- app_assoc.
    split; [reflexivity|]. split; [exact Hidle'|]. split; [|constructor; assumption].
    refine (keeps_trans _ _ _ (wire_slot_env_keeps st) _).
    refine (keeps_trans _ _ _ Hkeep _).
    refine (keeps_trans _ (env st1) _ _ Hkeep'). repeat split.
Qed.

End Limiter.

Section Run.
Variable cfg : Config.
Variable world : World.
Implicit Types (st : State JSValue) (e : Env).

#[local] Abbreviation answer := (answer world).
#[local] Abbreviation answered := (answered world).
#[local] Abbreviation fetchBatchWithRetry := (fetchBatchWithRetry cfg world).
#[local] Abbreviation fetchAllData := (fetchAllData cfg world).
#[local] Abbreviation saveResults := (saveResults cfg world).
#[local] Abbreviation displaySummary := (displaySummary cfg).
#[local] Abbreviation run := (run cfg world).
#[local] Abbreviation batch_tasks := (batch_tasks cfg world).
#[local] Abbreviation prepared := (prepared cfg world).
#[local] Abbreviation request_sent := (request_sent world).

(** What a task of [fetchAllData] returns. *)
#[local] Abbreviation fetched :=
  (fun v : JSValue => (exists k batch, answer k batch = Returned v) \/ v = Array []).

Lemma wire_batch_tasks_total batches :
  Forall (fun t : Task JSValue =>
            forall e, exists r e', t e = (Returned r, e') /\ keeps e e' /\ fetched r)
    (batch_tasks batches).
Proof.
  assert (H : forall start,
             Forall (fun t : Task JSValue =>
                       forall e, exists r e',
                         t e = (Returned r, e') /\ keeps e e' /\ fetched r)
               (mapi_from (fun batch index => fetchBatchWithRetry batch index 0)
                  start batches)).
  { induction batches as [|b batches IH]; intros start; simpl; constructor.
    - intros e.
      destruct (wire_retry_total cfg world b start (S (MAX_RETRIES cfg - 0)) 0%nat e)
        as (v & e' & Hrun & Hkeep & Hv); [lia|].
      exists v, e'. split; [exact Hrun|]. split; [exact Hkeep|].
      destruct Hv as [[k Hk]|Hv]; [left; eauto|right; exact Hv].
    - apply IH. }
  apply H.
Qed.

Lemma wire_set_env_set_env {R : Type} (e1 e2 : Env) (s : State R) :
  set_env e2 (set_env e1 s) = set_env e2 s.
Proof. reflexivity. Qed.

Lemma wire_set_env_env {R : Type} (s : State R) : set_env (env s) s = s.
Proof. destruct s. reflexivity. Qed.

(** The elements of what the tasks returned, as [flat] takes them, are
    elements of answers. *)
Lemma flat_fetched rs : Forall fetched rs -> Forall answered (flat rs).
Proof.
  induction 1 as [|v rs Hv _ IH]; [constructor|].
  assert (Hcons : flat (v :: rs) = flat [v] ++ flat rs)
    by (unfold flat; simpl; rewrite app_nil_r; reflexivity).
  rewrite Hcons.
  apply Forall_app. split; [|exact IH].
  apply Forall_forall. intros d Hd.
  destruct Hv as [(k & batch & Hk)| ->]; [|destruct Hd].
  exists k, batch, v. auto.
Qed.

(** [fetchAllData] returns, whatever the server answers. *)
Lemma wire_fetchAllData_total batches st :
  Idle st ->
  exists data st',
    fetchAllData batches st = (Returned data, st')
    /\ keeps (env st) (env st')
    /\ Forall answered data.
Proof.
  intros Hidle.
  destruct (wire_executeAll_total world JSValue fetched
              (length (batch_tasks batches)) (batch_tasks batches)
              (wire_batch_tasks_total batches) 0%nat []
              (set_env (push_log (Info (MEstimated (length batches)))
                          (push_log (Info (MStartFetch (length batches))) (env st))) st))
    as (rs & st1 & Hrun & _ & Hkeep & Hall).
  { exact Hidle. }
  exists (flat rs). eexists. split; [|split; [|exact (flat_fetched rs Hall)]].
  - unfold Wire.fetchAllData, Wire.executeAll. fold (batch_tasks batches).
    cbv beta iota zeta delta [bind liftEnv print modify Date_now gets ret] in *.
    cbn [env set_env clock push_log] in *.
    rewrite !wire_set_env_set_env, Hrun. reflexivity.
  - cbn [env set_env]. destruct Hkeep as (H1 & H2 & H3). repeat split; assumption.
Qed.

(** *** [saveResults] *)

Lemma wire_saveResults data e :
  exists e',
    saveResults data e = (Returned tt, e')
    /\ exitCode e' = exitCode e /\ results e' = results e /\ errors e' = errors e
    /\ (fs_mkdir world = None -> fs_writeFile world = None ->
        disk e'
        = Written {| Summary.totalDevices := TOTAL_DEVICES cfg;
                     Summary.successfulFetches := length data;
                     Summary.failedFetches := length (errors e);
                     Summary.timestamp := clock e + fs_mkdir_ms world;
                     Summary.data := data;
                     Summary.errors := errors e |})
    /\ (fs_mkdir world <> None \/ fs_writeFile world <> None ->
        disk e' = disk e \/ disk e' = Unfinished).
Proof.
  unfold Wire.saveResults, Wire.mkdir, Wire.writeFile, try_catch, bind, modify, get,
    print, throw, ret.
  destruct (fs_mkdir world) as [m1|].
  - eexists. split; [reflexivity|]. simpl. repeat split; try discriminate. auto.
  - destruct (fs_writeFile world) as [[m2 [|]]|].
    + eexists. split; [reflexivity|]. simpl. repeat split; try discriminate. auto.
    + eexists. split; [reflexivity|]. simpl. repeat split; try discriminate. auto.
    + eexists. split; [reflexivity|]. simpl. repeat split.
      intros [H|H]; contradiction.
Qed.

(** *** [displaySummary] *)

Lemma count_status_sound s data :
  existsb nullish data = false -> exists n, count_status s data = Returned n.
Proof.
  induction data as [|d data IH]; simpl; [eauto|].
  intros H. apply orb_false_iff in H. destruct H as [Hd Hrest].
  destruct (IH Hrest) as [n ->].
  destruct d; try discriminate; simpl; eauto.
Qed.

Lemma count_status_nullish s data :
  existsb nullish data = true -> exists message, count_status s data = Thrown message.
Proof.
  induction data as [|d data IH]; simpl; [discriminate|].
  intros H. destruct d; simpl in *; eauto;
    destruct (IH H) as [message ->]; eauto.
Qed.

Lemma wire_displaySummary_sound data e :
  existsb nullish data = false ->
  exists e',
    displaySummary data e = (Returned tt, e')
    /\ exitCode e' = exitCode e /\ results e' = results e
    /\ errors e' = errors e /\ disk e' = disk e.
Proof.
  intros H. unfold Wire.displaySummary, bind, get, print, modify, of_outcome, ret.
  destruct (0 <? length data)%nat.
  - destruct (count_status_sound "Online" data H) as [n1 ->].
    destruct (count_status_sound "Offline" data H) as [n2 ->].
    eexists. split; [reflexivity|]. simpl. auto.
  - eexists. split; [reflexivity|]. simpl. auto.
Qed.

Lemma wire_displaySummary_nullish data e :
  existsb nullish data = true ->
  exists message e',
    displaySummary data e = (Thrown message, e')
    /\ exitCode e' = exitCode e /\ results e' = results e
    /\ errors e' = errors e /\ disk e' = disk e.
Proof.
  intros H. unfold Wire.displaySummary, bind, get, print, modify, of_outcome, ret.
  assert (Hpos : (0 <? length data)%nat = true)
    by (destruct data; [discriminate|reflexivity]).
  rewrite Hpos.
  destruct (count_status_nullish "Online" data H) as [message ->].
  do 2 eexists. split; [reflexivity|]. simpl. auto.
Qed.

(** *** [run] *)

Lemma wire_testConnection_ok e v :
  answer (length (posted e)) ["SN-000"] = Returned v ->
  testConnection world e
  = (Returned true, push_log (Success MConnectionOk) (request_sent ["SN-000"] e)).
Proof.
  intros H. unfold Wire.testConnection, try_catch, bind at 1.
  unfold bind at 1. rewrite wire_fetchDeviceData_eq, H. reflexivity.
Qed.

Lemma wire_testConnection_failed e message :
  answer (length (posted e)) ["SN-000"] = Thrown message ->
  testConnection world e
  = (Returned false,
     push_log (Error (MConnectionFailed message)) (request_sent ["SN-000"] e)).
Proof.
  intros H. unfold Wire.testConnection, try_catch, bind at 1.
  unfold bind at 1. rewrite wire_fetchDeviceData_eq, H. reflexivity.
Qed.

Ltac wire_run_to_probe :=
  unfold Wire.run;
  cbv beta iota zeta delta
    [try_catch bind liftEnv print modify ret throw process_exit
     generateSerialNumbers createBatches of_outcome];
  cbn [env set_env].

(** The probe fails: [run] logs the fatal error and exits with code 1,
    having done nothing else. *)
Lemma wire_run_fatal st message :
  answer (length (posted (env st))) ["SN-000"] = Thrown message ->
  run st
  = (Returned tt,
     set_env
       (set_exitCode (Some 1)
          (push_log
             (Error (MFatal
                "Cannot connect to API. Please ensure the mock server is running."))
             (push_log (Error (MConnectionFailed message))
                (request_sent ["SN-000"]
                   (push_log (Info MTesting) (push_log (Info MStarting) (env st)))))))
       st).
Proof.
  intros H. wire_run_to_probe.
  rewrite (wire_testConnection_failed _ message) by exact H.
  reflexivity.
Qed.

(** The probe is answered and the batches are made: [run] ends as
    [displaySummary] does. *)
Lemma wire_run_answered st probe batches data st1 e2 o e3 :
  answer (length (posted (env st))) ["SN-000"] = Returned probe ->
  BatchManager.createBatches
    (BatchManager.generateSerialNumbers (TOTAL_DEVICES cfg) (DEVICE_SN_PREFIX cfg))
    (BATCH_SIZE cfg) = Returned batches ->
  fetchAllData batches (set_env (prepared batches (env st)) st) = (Returned data, st1) ->
  saveResults data (set_results data (env st1)) = (Returned tt, e2) ->
  displaySummary data e2 = (o, e3) ->
  run st
  = match o with
    | Returned _ => (Returned tt, set_env (push_log (Success MCompleted) e3) st1)
    | Thrown message =>
        (Returned tt,
         set_env (set_exitCode (Some 1) (push_log (Error (MFatal message)) e3)) st1)
    | OutOfFuel => (OutOfFuel, set_env e3 st1)
    end.
Proof.
  intros Hprobe Hbatches Hfetch Hsave Hshow. wire_run_to_probe.
  rewrite (wire_testConnection_ok _ probe) by exact Hprobe.
  cbn [negb]. rewrite Hbatches. cbn [env set_env].
  rewrite !wire_set_env_set_env. fold (prepared batches (env st)).
  rewrite Hfetch. cbn [env set_env].
  rewrite Hsave. cbn [env set_env].
  rewrite Hshow. destruct o as [[]|message|]; cbn [env set_env];
    rewrite ?wire_set_env_set_env; reflexivity.
Qed.


End Run.



(** A server that answers every request with status 200 and a body
    without [data]: the probe passes, every batch comes back
    [undefined], the report is written with 3 successful fetches, and
    the run is fatal all the same, since the summary cannot be
    printed. *)
Example run_fatal_after_answered_probe :
  let outcome := run cfg23 bare_world (new_DataAggregator cfg23 0 Absent) in
  answer bare_world 0 ["SN-000"] = Returned Undefined
  /\ fst outcome = Returned tt
  /\ results (env (snd outcome)) = [Undefined; Undefined; Undefined]
  /\ errors (env (snd outcome)) = []
  /\ (exists summary,
        disk (env (snd outcome)) = Written summary
        /\ Summary.successfulFetches summary = 3%nat
        /\ Summary.failedFetches summary = 0%nat)
  /\ exitCode (env (snd outcome)) = Some 1
  /\ skipn 13 (log (env (snd outcome)))
     = [Success MSaved;
        SummaryCounts 23 3 0;
        Error (MFatal "Cannot read properties of undefined (reading 'status')")].
Proof.
  cbv zeta. split; [reflexivity|]. split; [vm_compute; reflexivity|].
  split; [vm_compute; reflexivity|]. split; [vm_compute; reflexivity|].
  split; [eexists; split; [vm_compute; reflexivity|]; split; reflexivity|].
  split; vm_compute; reflexivity.
Qed.

End WireFacts.

(** * More of the code *)

(** ** utils/batchManager.js *)

Module BatchManagerCoverage.
Import BatchManager BatchManagerFacts.

(** *** [generateSerialNumbers] *)

Lemma generateSerialNumbers_for_map remaining :
  forall i prefix serialNumbers,
    generateSerialNumbers_for remaining i prefix serialNumbers
    = serialNumbers ++ map (serial prefix) (seq i remaining).
Proof.
  induction remaining as [|remaining IH]; intros i prefix serialNumbers; simpl.
  - symmetry. apply app_nil_r.
  - rewrite IH, <- app_assoc. reflexivity.
Qed.

Lemma generateSerialNumbers_map count prefix :
  generateSerialNumbers count prefix = map (serial prefix) (seq 0 count).
Proof. apply generateSerialNumbers_for_map. Qed.

Lemma generateSerialNumbers_length count prefix :
  length (generateSerialNumbers count prefix) = count.
Proof. rewrite generateSerialNumbers_map, length_map. apply length_seq. Qed.

Lemma uint_of_zeros k s d :
  NilEmpty.uint_of_string s = Some d ->
  exists d', NilEmpty.uint_of_string (zeros k ++ s) = Some d'
             /\ Nat.of_uint d' = Nat.of_uint d.
Proof.
  intros H. induction k as [|k [d' [Hd' Hv]]]; simpl.
  - exists d. auto.
  - rewrite Hd'. exists (Decimal.D0 d'). split; [reflexivity|].
    rewrite <- Hv. reflexivity.
Qed.

(** The digits of a serial number, zeros included, read back as its
    index. *)
Lemma digits_value_padded i : digits_value (padStart0 3 (toString i)) = Some i.
Proof.
  unfold digits_value, padStart0, toString.
  destruct (uint_of_zeros (3 - String.length (NilEmpty.string_of_uint (Nat.to_uint i)))
              _ _ (NilEmpty.usu (Nat.to_uint i))) as [d' [-> Hv]].
  simpl. rewrite Hv, DecimalNat.Unsigned.of_to. reflexivity.
Qed.

Lemma append_inj_r (prefix a b : string) :
  (prefix ++ a)%string = (prefix ++ b)%string -> a = b.
Proof.
  induction prefix as [|c prefix IH]; simpl; intros H; [exact H|].
  injection H as H. exact (IH H).
Qed.

Lemma serial_inj prefix i j : serial prefix i = serial prefix j -> i = j.
Proof.
  unfold serial. intros H. apply append_inj_r in H.
  apply (f_equal digits_value) in H. rewrite !digits_value_padded in H.
  injection H as H. exact H.
Qed.

(** X1. [generateSerialNumbers(count, prefix)] returns exactly [count]
    serial numbers; the one at index [i] is the prefix followed by [i]
    in decimal, padded with zeros on the left to three digits; and past
    the end there is none. *)
Theorem generateSerialNumbers_nth count prefix :
  length (generateSerialNumbers count prefix) = count
  /\ forall i,
       nth_error (generateSerialNumbers count prefix) i
       = if (i <? count)%nat
         then Some (prefix ++ padStart0 3 (toString i))%string
         else None.
Proof.
  split; [apply generateSerialNumbers_length|].
  intros i. rewrite generateSerialNumbers_map, nth_error_map, nth_error_seq.
  destruct (i <? count)%nat; reflexivity.
Qed.

(** X2. The serial numbers generated are pairwise distinct, whatever
    the count and the prefix: also beyond 999, where the numbers get
    longer than three digits. *)
Theorem generateSerialNumbers_NoDup count prefix :
  NoDup (generateSerialNumbers count prefix).
Proof.
  rewrite generateSerialNumbers_map.
  apply NoDup_map_NoDup_ForallPairs; [|apply seq_NoDup].
  intros i j _ _. apply serial_inj.
Qed.

Lemma padded_width_below_1000 :
  forallb (fun i => (String.length (padStart0 3 (toString i)) =? 3)%nat) (seq 0 1000)
  = true.
Proof. vm_compute. reflexivity. Qed.

Lemma append_length (a b : string) :
  String.length (a ++ b)%string = (String.length a + String.length b)%nat.
Proof. induction a as [|c a IH]; simpl; congruence. Qed.

Lemma zeros_length n : String.length (zeros n) = n.
Proof. induction n; simpl; congruence. Qed.

(** X3. Up to a count of 1000 every serial number is three characters
    longer than the prefix; in general no serial number is shorter than
    that, the padding never cuts digits off. *)
Theorem generateSerialNumbers_width count prefix s :
  In s (generateSerialNumbers count prefix) ->
  (String.length prefix + 3 <= String.length s)%nat
  /\ ((count <= 1000)%nat -> String.length s = (String.length prefix + 3)%nat).
Proof.
  rewrite generateSerialNumbers_map, in_map_iff. intros [i [<- Hi]].
  apply in_seq in Hi. unfold serial. rewrite append_length. split.
  - unfold padStart0. rewrite append_length, zeros_length. lia.
  - intros Hc. f_equal.
    pose proof (proj1 (forallb_forall _ _) padded_width_below_1000 i) as H.
    rewrite Nat.eqb_eq in H. apply H. apply in_seq. lia.
Qed.

(** X3 at 500 devices with the prefix of the configuration. *)
Lemma generateSerialNumbers_width_witness :
  In "SN-499" (generateSerialNumbers 500 "SN-")
  /\ ((String.length "SN-" + 3 <= String.length "SN-499")%nat
      /\ ((500 <= 1000)%nat -> String.length "SN-499" = (String.length "SN-" + 3)%nat)).
Proof.
  assert (H : In "SN-499" (generateSerialNumbers 500 "SN-")).
  { apply (nth_error_In _ 499). vm_compute. reflexivity. }
  split; [exact H|].
  exact (generateSerialNumbers_width 500 "SN-" "SN-499" H).
Defined.

(** *** [createBatches] *)

Section Batches.
Context {A : Type}.
Implicit Types (array l : list A) (batches bs : list (list A)).

Lemma Chunked_count k l bs :
  (1 <= k)%nat -> Chunked k l bs ->
  length bs = ((length l + k - 1) / k)%nat.
Proof.
  intros Hk. induction 1 as [|l bs Hl Hbs IH].
  - simpl. symmetry. apply Nat.div_small. lia.
  - simpl. rewrite IH, length_skipn.
    assert (Hn : (1 <= length l)%nat) by (destruct l; [contradiction|simpl; lia]).
    destruct (Nat.le_gt_cases (length l) k) as [Hle|Hgt].
    + replace (length l - k)%nat with 0%nat by lia.
      rewrite (Nat.div_small (0 + k - 1) k) by lia.
      apply (Nat.div_unique _ _ 1 (length l - 1)); lia.
    + replace (length l + k - 1)%nat with ((length l - k + k - 1) + 1 * k)%nat by lia.
      rewrite Nat.div_add by lia. lia.
Qed.

Lemma Chunked_bounds k l bs :
  (1 <= k)%nat -> Chunked k l bs ->
  Forall (fun b => (1 <= length b <= k)%nat) bs.
Proof.
  intros Hk. induction 1 as [|l bs Hl Hbs IH]; constructor; [|exact IH].
  rewrite length_firstn. destruct l; [contradiction|]. simpl. lia.
Qed.

Lemma Chunked_window k l bs :
  Chunked k l bs ->
  forall i, (i < length bs)%nat ->
    nth_error bs i = Some (firstn k (skipn (i * k) l)).
Proof.
  induction 1 as [|l bs Hl Hbs IH]; intros i Hi; simpl in Hi; [lia|].
  destruct i as [|i]; simpl; [reflexivity|].
  rewrite IH by lia. rewrite skipn_skipn. do 3 f_equal. lia.
Qed.

(** X4. With a batch size [K] of at least 1, [createBatches] makes the
    least number of batches that can hold the array, the length divided
    by [K] rounded up, and no batch is empty or holds more than [K]
    elements. *)
Theorem createBatches_count array (batchSize : Z) :
  1 <= batchSize ->
  exists batches,
    createBatches array batchSize = Returned batches
    /\ length batches
       = ((length array + Z.to_nat batchSize - 1) / Z.to_nat batchSize)%nat
    /\ Forall (fun b => 1 <= Z.of_nat (length b) <= batchSize) batches.
Proof.
  intros HK. destruct (createBatches_chunked array batchSize HK) as [bs [Hrun Hbs]].
  exists bs. split; [exact Hrun|]. split.
  - apply Chunked_count; [lia|exact Hbs].
  - assert (Hk : (1 <= Z.to_nat batchSize)%nat) by lia.
    eapply Forall_impl; [|exact (Chunked_bounds _ _ _ Hk Hbs)].
    simpl. intros b Hb. lia.
Qed.

(** X5. With a batch size [K] of at least 1, the batch at index [i] is
    the window of the array that starts at element [i * K] and is [K]
    long, cut at the end of the array: the batches are contiguous and
    keep the order. *)
Theorem createBatches_windows array (batchSize : Z) :
  1 <= batchSize ->
  exists batches,
    createBatches array batchSize = Returned batches
    /\ forall i, (i < length batches)%nat ->
         nth_error batches i
         = Some (firstn (Z.to_nat batchSize) (skipn (i * Z.to_nat batchSize) array)).
Proof.
  intros HK. destruct (createBatches_chunked array batchSize HK) as [bs [Hrun Hbs]].
  exists bs. split; [exact Hrun|]. exact (Chunked_window _ _ _ Hbs).
Qed.

End Batches.

(** X4 at seven elements in batches of three. *)
Lemma createBatches_count_witness :
  1 <= 3
  /\ exists batches,
       createBatches [1; 2; 3; 4; 5; 6; 7] 3 = Returned batches
       /\ length batches = ((length [1; 2; 3; 4; 5; 6; 7] + Z.to_nat 3 - 1) / Z.to_nat 3)%nat
       /\ Forall (fun b => 1 <= Z.of_nat (length b) <= 3) batches.
Proof.
  split; [lia|]. apply (createBatches_count [1; 2; 3; 4; 5; 6; 7] 3). lia.
Defined.

(** X5 at seven elements in batches of three. *)
Lemma createBatches_windows_witness :
  1 <= 3
  /\ exists batches,
       createBatches [1; 2; 3; 4; 5; 6; 7] 3 = Returned batches
       /\ forall i, (i < length batches)%nat ->
            nth_error batches i
            = Some (firstn (Z.to_nat 3) (skipn (i * Z.to_nat 3) [1; 2; 3; 4; 5; 6; 7])).
Proof.
  split; [lia|]. apply (createBatches_windows [1; 2; 3; 4; 5; 6; 7] 3). lia.
Defined.

End BatchManagerCoverage.

(** ** services/rateLimiter.js *)

Module SchedulerCoverage.
Import Scheduler SchedulerFacts.

(** X6. [_calculateDelay()] returns the time still to wait until
    [intervalMs] has passed since the last start and nothing more: the
    delay is never negative, it is zero exactly when the interval has
    passed, and [now] plus the delay is the later of [now] and the last
    start plus the interval. *)
Theorem calculateDelay_earliest_start (intervalMs lastRequestTime now : Z) :
  0 <= RateLimiter._calculateDelay intervalMs lastRequestTime now
  /\ (RateLimiter._calculateDelay intervalMs lastRequestTime now = 0
      <-> intervalMs <= now - lastRequestTime)
  /\ now + RateLimiter._calculateDelay intervalMs lastRequestTime now
     = Z.max now (lastRequestTime + intervalMs).
Proof.
  unfold RateLimiter._calculateDelay.
  destruct (Z.geb_spec (now - lastRequestTime) intervalMs); lia.
Qed.

Section Status.
Context {T R : Type}.
Implicit Types (s : sys T R).

(** X7. What [getStatus()] reports in any state the limiter can reach:
    the interval it was made with; when it reports that it is not
    processing, the queue is empty and every entry scheduled so far has
    been settled; when it reports that it is processing, exactly one
    entry is in hand. *)
Theorem getStatus_reachable interval clock0 s :
  reachable interval clock0 s ->
  Status.intervalMs (getStatus s) = interval
  /\ (Status.isProcessing (getStatus s) = false ->
      Status.queueLength (getStatus s) = 0%nat
      /\ map fst (settled s) = enqueued s)
  /\ (Status.isProcessing (getStatus s) = true ->
      length (concat (map holding (loops s))) = 1%nat).
Proof.
  intros Hr. destruct (Inv_reachable _ _ _ Hr) as [Hint Hflag Hpend Hrun _ _ _].
  simpl. split; [exact Hint|]. split.
  - intros Hp. destruct Hflag as [[Hp' _]|[_ [Hl Hq]]]; [congruence|].
    rewrite Hq. split; [reflexivity|].
    rewrite Hpend, Hrun, Hl, Hq. simpl. rewrite !app_nil_r. reflexivity.
  - intros Hp. destruct Hflag as [[_ [act Hl]]|[Hp' _]]; [|congruence].
    rewrite Hl. destruct act; reflexivity.
Qed.

(** X8. A limiter at rest does not hold a task back needlessly.  When
    [schedule] is called while nothing is being processed, the entry is
    taken from the queue at once; it can start without any time passing
    exactly when the interval has passed since the last start, and then
    it starts at the present time. *)
Theorem schedule_at_rest interval clock0 s (t : T) :
  reachable interval clock0 s ->
  isProcessing s = false ->
  let delay := RateLimiter._calculateDelay interval (lastRequestTime s) (now s) in
  loops (schedule t s) = [Delaying t (now s + delay)]
  /\ queue (schedule t s) = []
  /\ (interval <= now s - lastRequestTime s ->
      exists s',
        run [Schedule t; Wake 0] s = Some s'
        /\ started s' = started s ++ [(t, now s)]
        /\ loops s' = [Executing t])
  /\ (now s - lastRequestTime s < interval ->
      run [Schedule t; Wake 0] s = None).
Proof.
  intros Hr Hp delay.
  destruct (Inv_reachable _ _ _ Hr) as [Hint Hflag _ _ _ _ _].
  destruct Hflag as [[Hp' _]|[_ [Hl Hq]]]; [congruence|].
  assert (Hs : schedule t s
               = set_loops T R [Delaying t (now s + delay)]
                   (set_queue T R []
                      (set_isProcessing T R true
                         (record_enqueue T R t (set_queue T R [t] s))))).
  { unfold schedule, _processQueue, while_head. simpl.
    rewrite Hp, Hq, Hint. simpl. rewrite Hl. reflexivity. }
  rewrite Hs. split; [reflexivity|]. split; [reflexivity|].
  assert (Hd := calculateDelay_nonneg interval (lastRequestTime s) (now s)).
  split.
  - intros Hel.
    assert (E : delay = 0).
    { unfold delay, RateLimiter._calculateDelay.
      destruct (Z.geb_spec (now s - lastRequestTime s) interval); lia. }
    eexists. split.
    + cbn [run step]. rewrite Hs. cbn [loops set_loops nth_error now set_queue
        set_isProcessing record_enqueue].
      destruct (Z.leb_spec (now s + delay) (now s)) as [_|?]; [reflexivity|lia].
    + split; reflexivity.
  - intros Hlt. cbn [run step]. rewrite Hs.
    cbn [loops set_loops nth_error now set_queue set_isProcessing record_enqueue].
    assert (E : 0 < delay).
    { unfold delay, RateLimiter._calculateDelay.
      destruct (Z.geb_spec (now s - lastRequestTime s) interval); lia. }
    destruct (Z.leb_spec (now s + delay) (now s)) as [?|_]; [lia|reflexivity].
Qed.

End Status.

(** X7 on the sample run. *)
Lemma getStatus_reachable_witness :
  reachable 1000 600 sample_state
  /\ (Status.intervalMs (getStatus sample_state) = 1000
      /\ (Status.isProcessing (getStatus sample_state) = false ->
          Status.queueLength (getStatus sample_state) = 0%nat
          /\ map fst (settled sample_state) = enqueued sample_state)
      /\ (Status.isProcessing (getStatus sample_state) = true ->
          length (concat (map holding (loops sample_state))) = 1%nat)).
Proof.
  assert (Hr : reachable 1000 600 sample_state)
    by (exists sample_actions; vm_compute; reflexivity).
  split; [exact Hr|]. exact (getStatus_reachable 1000 600 sample_state Hr).
Defined.

(** X8 on a limiter that has just been made, at time 5000. *)
Lemma schedule_at_rest_witness :
  reachable 1000 5000 (@init nat unit 1000 5000)
  /\ isProcessing (@init nat unit 1000 5000) = false
  /\ (loops (schedule 7%nat (@init nat unit 1000 5000))
      = [Delaying 7%nat
           (5000 + RateLimiter._calculateDelay 1000
                     (lastRequestTime (@init nat unit 1000 5000)) 5000)]
      /\ queue (schedule 7%nat (@init nat unit 1000 5000)) = []
      /\ (1000 <= now (@init nat unit 1000 5000)
                  - lastRequestTime (@init nat unit 1000 5000) ->
          exists s',
            run [Schedule 7%nat; Wake 0] (@init nat unit 1000 5000) = Some s'
            /\ started s' = started (@init nat unit 1000 5000) ++ [(7%nat, 5000)]
            /\ loops s' = [Executing 7%nat])
      /\ (now (@init nat unit 1000 5000) - lastRequestTime (@init nat unit 1000 5000)
          < 1000 ->
          run [Schedule 7%nat; Wake 0] (@init nat unit 1000 5000) = None)).
Proof.
  assert (Hr : reachable 1000 5000 (@init nat unit 1000 5000))
    by (exists []; reflexivity).
  split; [exact Hr|]. split; [reflexivity|].
  exact (schedule_at_rest 1000 5000 (@init nat unit 1000 5000) 7%nat Hr eq_refl).
Defined.

End SchedulerCoverage.

(** ** utils/signatureGenerator.js *)

Module SignatureCoverage.
Import SignatureGenerator.

Lemma append_assoc (s1 s2 s3 : string) :
  ((s1 ++ s2) ++ s3 = s1 ++ (s2 ++ s3))%string.
Proof. induction s1 as [|c s1 IH]; simpl; [|rewrite IH]; reflexivity. Qed.

Lemma parse_toString (n : Z) : parse (toString n) = Some n.
Proof.
  unfold parse, toString.
  rewrite NilZero.isi.
  - simpl. rewrite DecimalZ.of_to. reflexivity.
  - destruct n as [|p|p]; simpl; try discriminate.
    intros H. injection H as H. exact (DecimalPos.Unsigned.to_uint_nonnil p H).
  - destruct n as [|p|p]; simpl; try discriminate.
    intros H. injection H as H. exact (DecimalPos.Unsigned.to_uint_nonnil p H).
Qed.

(** X25. Whatever the hash function: the timestamp that
    [generateWithTimestamp] returns is the decimal writing of
    [Date.now()], from which the time is read back; the signature it
    returns is the one [generate] gives for that very timestamp; and
    [generate] depends on the address, the token and the timestamp
    only through their concatenation, so that moving characters from
    the end of one to the start of the next does not change the
    signature. *)
Theorem signature_of_concatenation (md5 : string -> string) (now : Z)
    (url token timestamp more : string) :
  let signed := generateWithTimestamp md5 now url token in
  parse (SignatureGenerator.timestamp signed) = Some now
  /\ signature signed = generate md5 url token (SignatureGenerator.timestamp signed)
  /\ generate md5 (url ++ more) token timestamp
     = generate md5 url (more ++ token) timestamp
  /\ generate md5 url (token ++ more) timestamp
     = generate md5 url token (more ++ timestamp).
Proof.
  simpl. split; [apply parse_toString|]. split; [reflexivity|].
  unfold generate. split; f_equal.
  - rewrite !append_assoc. reflexivity.
  - rewrite !append_assoc. reflexivity.
Qed.

End SignatureCoverage.

(** ** services/apiClient.js and core/aggregator.js *)

Module AggregatorCoverage.
Import Aggregator AggregatorFacts.

(** *** [fetchDeviceData] and [testConnection] *)



(** X10. [testConnection()] never throws and sends exactly one request,
    for the serial number SN-000 whatever the configuration; it returns
    [true] exactly when that request is answered; it does not retry, and
    it leaves the errors, the results, the output file and the exit code
    alone. *)
Theorem testConnection_contract (world : World) (e : Env) :
  exists b e',
    testConnection world e = (Returned b, e')
    /\ (b = true <-> exists data, answer world (length (posted e)) ["SN-000"] = Returned data)
    /\ posted e' = posted e ++ [["SN-000"]]
    /\ timers e' = timers e
    /\ errors e' = errors e /\ results e' = results e
    /\ disk e' = disk e /\ exitCode e' = exitCode e.
Proof.
  destruct (answer_cases world (length (posted e)) ["SN-000"]) as [[data H]|[message H]].
  - rewrite (testConnection_ok world e data H).
    do 2 eexists. split; [reflexivity|]. split; [|simpl; auto 8].
    split; [eauto|reflexivity].
  - rewrite (testConnection_failed world e message H).
    do 2 eexists. split; [reflexivity|]. split; [|simpl; auto 8].
    split; [discriminate|]. intros [data H']. rewrite H in H'. discriminate.
Qed.

(** *** [fetchBatchWithRetry], in any world *)

Section RetryCoverage.
Variable cfg : Config.
Variable world : World.

#[local] Abbreviation answer := (answer world).
#[local] Abbreviation fetchBatchWithRetry_rec := (fetchBatchWithRetry_rec cfg world).
#[local] Abbreviation fetchBatchWithRetry := (fetchBatchWithRetry cfg world).
#[local] Abbreviation request_sent := (request_sent world).
#[local] Abbreviation timer_fired := (timer_fired world).

(** What a call does, by the number [k] of requests it sends. *)
Lemma retry_requests batch batchIndex :
  forall fuel retryCount e,
    (MAX_RETRIES cfg - retryCount < fuel)%nat ->
    exists data e' k,
      fetchBatchWithRetry_rec fuel batch batchIndex retryCount e = (Returned data, e')
      /\ (1 <= k <= S (MAX_RETRIES cfg - retryCount))%nat
      /\ posted e' = posted e ++ repeat batch k
      /\ timers e' = (timers e + (k - 1))%nat
      /\ (exists l, log e' = log e ++ l /\ filter is_progress l = [])
      /\ (forward world ->
          clock e + Z.of_nat (k - 1) * Z.max (RETRY_DELAY_MS cfg) 0 <= clock e')
      /\ (forall j, (j < k - 1)%nat ->
            exists message, answer (length (posted e) + j) batch = Thrown message)
      /\ ((answer (length (posted e) + (k - 1)) batch = Returned data
           /\ errors e' = errors e)
          \/ (k = S (MAX_RETRIES cfg - retryCount) /\ data = []
              /\ exists message,
                   answer (length (posted e) + (k - 1)) batch = Thrown message
                   /\ errors e'
                      = errors e ++ [{| batch := batchIndex + 1;
                                        serialNumbers := batch;
                                        error := message |}])).
Proof.
  induction fuel as [|fuel IH]; intros retryCount e Hfuel; [lia|].
  destruct (answer_cases world (length (posted e)) batch) as [[data H]|[message H]].
  - rewrite (retry_step_ok cfg world fuel batch batchIndex retryCount e data H).
    exists data, (request_sent batch e), 1%nat.
    split; [reflexivity|]. split; [lia|]. split; [reflexivity|].
    split; [simpl; lia|].
    split; [exists []; split; [simpl; rewrite app_nil_r; reflexivity|reflexivity]|].
    split; [intros [Hl _]; simpl; specialize (Hl (length (posted e))); lia|].
    split; [intros j Hj; lia|].
    left. simpl. rewrite Nat.add_0_r. auto.
  - destruct (lt_dec retryCount (MAX_RETRIES cfg)) as [Hlt|Hge].
    + rewrite (retry_step_again cfg world fuel batch batchIndex retryCount e message H Hlt).
      match goal with
      | |- context [fetchBatchWithRetry_rec fuel batch batchIndex _ ?x] => set (e1 := x)
      end.
      destruct (IH (retryCount + 1)%nat e1)
        as (data & e' & k & Hrun & Hk & Hp & Ht & (l & Hl & Hnp) & Hc & Hfail & Hend);
        [lia|].
      assert (Hlen : length (posted e1) = S (length (posted e))).
      { subst e1. simpl. rewrite length_app. simpl. lia. }
      exists data, e', (S k).
      split; [exact Hrun|]. split; [lia|].
      split.
      { rewrite Hp. subst e1. simpl. rewrite <- app_assoc. reflexivity. }
      split.
      { rewrite Ht. subst e1. simpl. lia. }
      split.
      { eexists. split.
        - rewrite Hl. subst e1. simpl. rewrite <- app_assoc. reflexivity.
        - simpl. exact Hnp. }
      split.
      { intros Hw. specialize (Hc Hw). destruct Hw as [Hlat Hover].
        subst e1. simpl in Hc.
        specialize (Hlat (length (posted e))).
        specialize (Hover (timers e)).
        replace (S k - 1)%nat with (S (k - 1)) by lia.
        rewrite Nat2Z.inj_succ. lia. }
      split.
      { intros j Hj. destruct j as [|j].
        - rewrite Nat.add_0_r. eauto.
        - destruct (Hfail j) as [m Hm]; [lia|].
          exists m. rewrite Hlen in Hm.
          replace (length (posted e) + S j)%nat with (S (length (posted e)) + j)%nat
            by lia.
          exact Hm. }
      rewrite Hlen in Hend.
      replace (length (posted e) + (S k - 1))%nat
        with (S (length (posted e)) + (k - 1))%nat by lia.
      destruct Hend as [[Ha He]|(Hk' & Hd & m & Ha & He)].
      * left. split; [exact Ha|]. rewrite He. subst e1. reflexivity.
      * right. split; [lia|]. split; [exact Hd|]. exists m.
        split; [exact Ha|]. rewrite He. subst e1. reflexivity.
    + rewrite (retry_step_giveup cfg world fuel batch batchIndex retryCount e message H);
        [|lia].
      eexists [], _, 1%nat.
      split; [reflexivity|]. split; [lia|]. split; [reflexivity|].
      split; [simpl; lia|].
      split; [eexists; split; [reflexivity|reflexivity]|].
      split; [intros [Hl _]; simpl; specialize (Hl (length (posted e))); lia|].
      split; [intros j Hj; lia|].
      right. split; [lia|]. split; [reflexivity|].
      exists message. simpl. rewrite Nat.add_0_r. auto.
Qed.

(** X11. Whatever the server does, [fetchBatchWithRetry] returns, after
    [k] requests with [1 <= k <= MAX_RETRIES - retryCount + 1], every
    one of them for the whole batch, and [k - 1] waits; all requests
    but the last failed; and either the last was answered, its records
    are the result and the errors are as before, or the budget is used
    up, the result is empty and exactly one entry, with the message of
    the last failure, was added to the errors. *)
Theorem fetchBatchWithRetry_requests batch batchIndex retryCount e :
  exists data e' k,
    fetchBatchWithRetry batch batchIndex retryCount e = (Returned data, e')
    /\ (1 <= k <= S (MAX_RETRIES cfg - retryCount))%nat
    /\ posted e' = posted e ++ repeat batch k
    /\ timers e' = (timers e + (k - 1))%nat
    /\ (forall j, (j < k - 1)%nat ->
          exists message, answer (length (posted e) + j) batch = Thrown message)
    /\ ((answer (length (posted e) + (k - 1)) batch = Returned data
         /\ errors e' = errors e)
        \/ (k = S (MAX_RETRIES cfg - retryCount) /\ data = []
            /\ exists message,
                 answer (length (posted e) + (k - 1)) batch = Thrown message
                 /\ errors e'
                    = errors e ++ [{| batch := batchIndex + 1;
                                      serialNumbers := batch;
                                      error := message |}])).
Proof.
  destruct (retry_requests batch batchIndex (S (MAX_RETRIES cfg - retryCount))
              retryCount e)
    as (data & e' & k & Hrun & Hk & Hp & Ht & _ & _ & Hfail & Hend); [lia|].
  exists data, e', k. auto 10.
Qed.

(** X12. Where requests take time and timers do not fire early, a call
    of [fetchBatchWithRetry] lasts at least [RETRY_DELAY_MS] for each
    request it sends after the first. *)
Theorem fetchBatchWithRetry_waits batch batchIndex retryCount e :
  forward world ->
  let e' := snd (fetchBatchWithRetry batch batchIndex retryCount e) in
  clock e
  + Z.of_nat (length (posted e') - length (posted e) - 1) * Z.max (RETRY_DELAY_MS cfg) 0
  <= clock e'.
Proof.
  intros Hw.
  destruct (retry_requests batch batchIndex (S (MAX_RETRIES cfg - retryCount))
              retryCount e)
    as (data & e' & k & Hrun & Hk & Hp & _ & _ & Hc & _); [lia|].
  unfold Aggregator.fetchBatchWithRetry. rewrite Hrun. simpl.
  rewrite Hp, length_app, repeat_length.
  replace (length (posted e) + k - length (posted e) - 1)%nat with (k - 1)%nat by lia.
  exact (Hc Hw).
Qed.

End RetryCoverage.

(** X12 for two failures, then an answer: three requests, and at least
    two retry delays. *)
Lemma fetchBatchWithRetry_waits_witness :
  forward flaky_world
  /\ clock fresh_env
     + Z.of_nat (length (posted (snd (fetchBatchWithRetry constants flaky_world
                                        ["SN-000"] 0 0 fresh_env)))
                 - length (posted fresh_env) - 1)
       * Z.max (RETRY_DELAY_MS constants) 0
     <= clock (snd (fetchBatchWithRetry constants flaky_world ["SN-000"] 0 0 fresh_env)).
Proof.
  assert (Hw : forward flaky_world) by (split; intros k; simpl; lia).
  split; [exact Hw|].
  exact (fetchBatchWithRetry_waits constants flaky_world ["SN-000"] 0 0 fresh_env Hw).
Defined.

(** *** [executeAll], by one awaiting caller *)

Section LimiterCoverage.
Variable world : World.
Variable R : Type.
Implicit Types (st : State R) (t : Task R).

#[local] Abbreviation schedule := (schedule world).
#[local] Abbreviation slot_env := (slot_env world).
#[local] Abbreviation scheduled := (scheduled world).
#[local] Abbreviation executeAll_for := (executeAll_for world).
#[local] Abbreviation executeAll := (executeAll world).

(** A loop that returned went through its first task, which
    returned, and the progress callback after it. *)
Lemma executeAll_for_returned t tasks i total onProgress results st rs st' :
  Idle st ->
  executeAll_for (t :: tasks) i total onProgress results st = (Returned rs, st') ->
  exists r e' st2,
    t (slot_env st) = (Returned r, e')
    /\ rateLimiter st2 = rateLimiter (scheduled st (Fulfilled r) e')
    /\ promises st2 = promises st ++ [Some (Fulfilled r)]
    /\ Idle st2
    /\ executeAll_for tasks (i + 1)%nat total onProgress (results ++ [r]) st2
       = (Returned rs, st').
Proof.
  intros Hidle Hrun.
  rewrite executeAll_for_cons in Hrun. unfold bind at 1 in Hrun.
  destruct (t (slot_env st)) as [[r|message|] e'] eqn:Ht.
  - rewrite (schedule_idle_returned world R t st r e' Hidle Ht) in Hrun.
    unfold bind at 1 in Hrun.
    destruct (progress_call onProgress i total (scheduled st (Fulfilled r) e'))
      as [[[]|message|] st2] eqn:Hp; try discriminate.
    destruct (progress_call_limiter R _ _ _ _ _ _ Hp) as [Hrl Hps].
    exists r, e', st2.
    split; [reflexivity|]. split; [exact Hrl|]. split; [exact Hps|].
    split; [|exact Hrun].
    split; [rewrite Hrl; reflexivity|rewrite Hrl; reflexivity].
  - rewrite (schedule_idle_thrown world R t st message e' Hidle Ht) in Hrun.
    discriminate.
  - pose proof (schedule_idle_out_of_fuel world R t st e' Hidle Ht) as Hs.
    destruct (schedule t st) as [o st1]. simpl in Hs. subst o. discriminate.
Qed.

Lemma executeAll_for_served total onProgress tasks :
  forall i results st rs st',
    Idle st ->
    executeAll_for tasks i total onProgress results st = (Returned rs, st') ->
    exists new,
      rs = results ++ new
      /\ served world onProgress i total st tasks new st'
      /\ promises st' = promises st ++ map (fun r => Some (Fulfilled r)) new
      /\ Idle st'.
Proof.
  induction tasks as [|t tasks IH]; intros i results st rs st' Hidle Hrun.
  - simpl in Hrun. injection Hrun as <- <-. exists [].
    rewrite !app_nil_r. simpl. auto.
  - rewrite executeAll_for_cons in Hrun. unfold bind at 1 in Hrun.
    destruct (t (slot_env st)) as [[r|message|] e'] eqn:Ht.
    + rewrite (schedule_idle_returned world R t st r e' Hidle Ht) in Hrun.
      unfold bind at 1 in Hrun.
      destruct (progress_call onProgress i total (scheduled st (Fulfilled r) e'))
        as [[[]|message|] st2] eqn:Hp; try discriminate.
      destruct (progress_call_limiter R _ _ _ _ _ _ Hp) as [Hrl Hps].
      assert (Hidle2 : Idle st2) by (split; rewrite Hrl; reflexivity).
      destruct (IH _ _ _ _ _ Hidle2 Hrun) as (new & -> & Hserved & Hps' & Hidle').
      exists (r :: new).
      split; [rewrite <- app_assoc; reflexivity|].
      split; [simpl; exists e', st2; auto|].
      split; [|exact Hidle'].
      rewrite Hps', Hps. simpl. rewrite <- app_assoc. reflexivity.
    + rewrite (schedule_idle_thrown world R t st message e' Hidle Ht) in Hrun.
      discriminate.
    + pose proof (schedule_idle_out_of_fuel world R t st e' Hidle Ht) as Hs.
      destruct (schedule t st) as [o st1]. simpl in Hs. subst o. discriminate.
Qed.

(** X13. When [executeAll], called on a limiter at rest, returns, its
    results are those of the tasks, in the order of the tasks, each one
    the value its task returned in the environment it was run in: the
    one left by the tasks and the progress calls before it, after the
    wait for its slot.  The promises that [schedule] made for the tasks
    are fulfilled with these results, in the same order, behind those
    that were there; and the limiter is at rest again. *)
Theorem executeAll_results tasks onProgress st rs st' :
  Idle st ->
  executeAll tasks onProgress st = (Returned rs, st') ->
  served world onProgress 0 (length tasks) st tasks rs st'
  /\ promises st' = promises st ++ map (fun r => Some (Fulfilled r)) rs
  /\ Idle st'.
Proof.
  intros Hidle Hrun.
  destruct (executeAll_for_served _ _ _ _ _ _ _ _ Hidle Hrun)
    as (new & -> & Hserved & Hps & Hidle').
  auto.
Qed.

(** The slot the limiter waits for is not before now, and not before an
    interval after the last start. *)
Lemma slot_env_clock st :
  (forall k, 0 <= oversleep world k) ->
  clock (env st) <= clock (slot_env st)
  /\ lastRequestTime (rateLimiter st) + intervalMs (rateLimiter st)
     <= clock (slot_env st).
Proof.
  intros Hover. unfold Aggregator.slot_env.
  pose proof (SchedulerFacts.calculateDelay_reaches (intervalMs (rateLimiter st))
                (lastRequestTime (rateLimiter st)) (clock (env st))) as Hreach.
  pose proof (SchedulerFacts.calculateDelay_nonneg (intervalMs (rateLimiter st))
                (lastRequestTime (rateLimiter st)) (clock (env st))) as Hnn.
  specialize (Hover (timers (env st))).
  destruct (Z.gtb_spec
              (RateLimiter._calculateDelay (intervalMs (rateLimiter st))
                 (lastRequestTime (rateLimiter st)) (clock (env st))) 0);
    simpl; lia.
Qed.

Lemma executeAll_for_spacing total onProgress tasks :
  (forall k, 0 <= oversleep world k) ->
  forall i results st rs st',
    Idle st ->
    executeAll_for tasks i total onProgress results st = (Returned rs, st') ->
    intervalMs (rateLimiter st') = intervalMs (rateLimiter st)
    /\ lastRequestTime (rateLimiter st)
       + Z.of_nat (length tasks) * intervalMs (rateLimiter st)
       <= lastRequestTime (rateLimiter st')
    /\ (tasks <> [] ->
        clock (env st) + Z.of_nat (length tasks - 1) * intervalMs (rateLimiter st)
        <= lastRequestTime (rateLimiter st')).
Proof.
  intros Hover.
  induction tasks as [|t tasks IH]; intros i results st rs st' Hidle Hrun.
  - simpl in Hrun. injection Hrun as _ <-.
    split; [reflexivity|]. split; [simpl; lia|congruence].
  - destruct (executeAll_for_returned _ _ _ _ _ _ _ _ _ Hidle Hrun)
      as (r & e' & st2 & Ht & Hrl & _ & Hidle2 & Hrest).
    destruct (IH _ _ _ _ _ Hidle2 Hrest) as (Hint & Hlast & _).
    rewrite Hrl in Hint, Hlast. simpl in Hint, Hlast.
    destruct (slot_env_clock st Hover) as [Hnow Hnext].
    split; [exact Hint|].
    replace (length (t :: tasks) - 1)%nat with (length tasks) by (simpl; lia).
    change (length (t :: tasks)) with (S (length tasks)).
    rewrite Nat2Z.inj_succ.
    split; [|intros _]; lia.
Qed.

(** X14. Where timers do not fire early: when [executeAll] returns, the
    last task started at least one interval per task after the last
    start before the call, and at least one interval per task but the
    first after the call; the interval itself is never changed. *)
Theorem executeAll_spacing tasks onProgress st rs st' :
  (forall k, 0 <= oversleep world k) ->
  Idle st -> tasks <> [] ->
  executeAll tasks onProgress st = (Returned rs, st') ->
  intervalMs (rateLimiter st') = intervalMs (rateLimiter st)
  /\ lastRequestTime (rateLimiter st)
     + Z.of_nat (length tasks) * intervalMs (rateLimiter st)
     <= lastRequestTime (rateLimiter st')
  /\ clock (env st) + Z.of_nat (length tasks - 1) * intervalMs (rateLimiter st)
     <= lastRequestTime (rateLimiter st').
Proof.
  intros Hover Hidle Hne Hrun.
  destruct (executeAll_for_spacing _ _ _ Hover _ _ _ _ _ Hidle Hrun)
    as (Hint & Hlast & Hfirst).
  auto.
Qed.

End LimiterCoverage.

(** X13 for two tasks that return the time at which they run, on a
    fresh limiter with the clock at 0: the results are the times of
    their slots. *)
Lemma executeAll_results_witness :
  Idle fresh_clock_limiter
  /\ served healthy_world None 0 2 fresh_clock_limiter
       [task_reading_clock; task_reading_clock] [1001; 2002]
       (snd (executeAll healthy_world [task_reading_clock; task_reading_clock]
               None fresh_clock_limiter))
  /\ promises (snd (executeAll healthy_world [task_reading_clock; task_reading_clock]
                      None fresh_clock_limiter))
     = promises fresh_clock_limiter ++ map (fun r => Some (Fulfilled r)) [1001; 2002]
  /\ Idle (snd (executeAll healthy_world [task_reading_clock; task_reading_clock]
                  None fresh_clock_limiter)).
Proof.
  assert (Hidle : Idle fresh_clock_limiter) by (split; reflexivity).
  split; [exact Hidle|].
  apply (executeAll_results healthy_world Z [task_reading_clock; task_reading_clock]
           None fresh_clock_limiter [1001; 2002] _ Hidle).
  vm_compute. reflexivity.
Defined.

(** X14 for two tasks on a fresh limiter with the clock at 0: the
    second starts at 1000 or later. *)
Lemma executeAll_spacing_witness :
  (forall k, 0 <= oversleep healthy_world k)
  /\ Idle fresh_limiter
  /\ intervalMs (rateLimiter (snd (executeAll healthy_world
                                     [task_returning 1; task_returning 2]
                                     None fresh_limiter)))
     = intervalMs (rateLimiter fresh_limiter)
  /\ lastRequestTime (rateLimiter fresh_limiter)
     + Z.of_nat (length [task_returning 1; task_returning 2])
       * intervalMs (rateLimiter fresh_limiter)
     <= lastRequestTime (rateLimiter (snd (executeAll healthy_world
                                             [task_returning 1; task_returning 2]
                                             None fresh_limiter)))
  /\ clock (env fresh_limiter)
     + Z.of_nat (length [task_returning 1; task_returning 2] - 1)
       * intervalMs (rateLimiter fresh_limiter)
     <= lastRequestTime (rateLimiter (snd (executeAll healthy_world
                                             [task_returning 1; task_returning 2]
                                             None fresh_limiter))).
Proof.
  assert (Hover : forall k, 0 <= oversleep healthy_world k) by (intros k; simpl; lia).
  assert (Hidle : Idle fresh_limiter) by (split; reflexivity).
  split; [exact Hover|]. split; [exact Hidle|].
  apply (executeAll_spacing healthy_world nat [task_returning 1; task_returning 2]
           None fresh_limiter [1; 2]%nat _ Hover Hidle).
  - discriminate.
  - vm_compute. reflexivity.
Defined.

(** *** [fetchAllData], in any world *)

Section FetchCoverage.
Variable cfg : Config.
Variable world : World.

#[local] Abbreviation answer := (answer world).
#[local] Abbreviation fetchBatchWithRetry := (fetchBatchWithRetry cfg world).
#[local] Abbreviation fetchAllData := (fetchAllData cfg world).
#[local] Abbreviation slot_env := (slot_env world).
#[local] Abbreviation scheduled := (scheduled world).
#[local] Abbreviation explains := (explains cfg world).

Lemma mapi_from_length {A B : Type} (f : A -> nat -> B) (l : list A) :
  forall index, length (mapi_from f index l) = length l.
Proof. induction l as [|a l IH]; intros index; simpl; [|rewrite IH]; reflexivity. Qed.

Lemma slot_env_log {R : Type} (st : State R) : log (slot_env st) = log (env st).
Proof.
  unfold Aggregator.slot_env.
  destruct (RateLimiter._calculateDelay _ _ _ >? 0); reflexivity.
Qed.

Lemma slot_env_record {R : Type} (st : State R) :
  errors (slot_env st) = errors (env st) /\ posted (slot_env st) = posted (env st).
Proof.
  unfold Aggregator.slot_env.
  destruct (RateLimiter._calculateDelay _ _ _ >? 0); split; reflexivity.
Qed.

(** The loop of [executeAll] over the tasks of the batches numbered
    from [index] on. *)
Lemma batch_loop total :
  forall batches index results (st : State (list DeviceRecord)),
    Idle st ->
    exists fates counts st',
      executeAll_for world
        (mapi_from (fun batch index => fetchBatchWithRetry batch index 0) index batches)
        index total on_progress results st
      = (Returned (results ++ map fate_data fates), st')
      /\ Idle st'
      /\ explains (length (posted (env st))) batches fates counts
      /\ errors (env st') = errors (env st) ++ fate_errors index batches fates
      /\ posted (env st') = posted (env st) ++ requests_of batches counts
      /\ filter is_progress (log (env st'))
         = filter is_progress (log (env st))
           ++ map (fun i => Progress i total) (seq (S index) (length batches))
      /\ (forward world ->
          clock (env st) <= clock (env st')
          /\ (batches <> [] \/ lastRequestTime (rateLimiter st) <= clock (env st) ->
              lastRequestTime (rateLimiter st') <= clock (env st'))).
Proof.
  induction batches as [|b batches IH]; intros index results st Hidle.
  - exists [], [], st. simpl. rewrite !app_nil_r.
    split; [reflexivity|]. split; [exact Hidle|]. split; [exact I|].
    split; [reflexivity|]. split; [reflexivity|]. split; [reflexivity|].
    intros _. split; [lia|]. intros [Hne|Hle]; [congruence|exact Hle].
  - destruct (retry_requests cfg world b index (S (MAX_RETRIES cfg - 0)) 0%nat
                (slot_env st))
      as (data & e' & k & Hrun & Hk & Hp & _ & (l & Hl & Hnp) & Hc & Hfail & Hend);
      [lia|].
    destruct (slot_env_record st) as [Hserr Hspost].
    rewrite Hspost in Hp, Hfail, Hend. rewrite Hserr in Hend.
    rewrite slot_env_log in Hl.
    cbn [mapi_from].
    rewrite (executeAll_step world (fetchBatchWithRetry b index 0) _ index total
               results st data e' Hidle Hrun).
    rewrite Nat.add_1_r.
    match goal with
    | |- context [executeAll_for world _ (S index) total on_progress _ ?x] =>
        set (st1 := x)
    end.
    assert (Hidle1 : Idle st1) by (split; reflexivity).
    destruct (IH (S index) (results ++ [data]) st1 Hidle1)
      as (fates & counts & st' & Hrun' & Hidle' & Hex & Herr & Hpost & Hprog & Hclock).
    assert (Hlen : length (posted (env st1)) = (length (posted (env st)) + k)%nat).
    { subst st1. simpl. rewrite Hp, length_app, repeat_length. reflexivity. }
    rewrite Hlen in Hex.
    assert (Hprog1 : filter is_progress (log (env st1))
                     = filter is_progress (log (env st)) ++ [Progress (S index) total]).
    { subst st1. simpl. rewrite Hl, !filter_app, Hnp, app_nil_r. reflexivity. }
    assert (Hposted1 : posted (env st1) = posted (env st) ++ repeat b k).
    { subst st1. simpl. exact Hp. }
    assert (Htime : forward world ->
              clock (env st) <= clock (env st')
              /\ (b :: batches <> [] \/ lastRequestTime (rateLimiter st) <= clock (env st) ->
                  lastRequestTime (rateLimiter st') <= clock (env st'))).
    { intros Hw. destruct (Hclock Hw) as [Hmono Hlast].
      specialize (Hc Hw).
      destruct (slot_env_clock world _ st (proj2 Hw)) as [Hnow _].
      assert (Hk0 : 0 <= Z.of_nat (k - 1) * Z.max (RETRY_DELAY_MS cfg) 0) by nia.
      assert (H1 : clock (env st1) = clock e') by reflexivity.
      assert (H2 : lastRequestTime (rateLimiter st1) = clock (slot_env st))
        by reflexivity.
      split; [lia|]. intros _. apply Hlast. right. lia. }
    destruct Hend as [[Ha He]|(Hk' & Hd & message & Ha & He)].
    + exists (Fetched data :: fates), (k :: counts), st'.
      split; [rewrite Hrun', <- app_assoc; reflexivity|].
      split; [exact Hidle'|].
      split; [simpl; split; [lia|]; split; [exact Hfail|]; split; [|exact Hex];
              split; [lia|exact Ha]|].
      split; [rewrite Herr; subst st1; simpl; rewrite He; reflexivity|].
      split; [rewrite Hpost, Hposted1, <- app_assoc; reflexivity|].
      split; [|exact Htime].
      rewrite Hprog, Hprog1, <- app_assoc. reflexivity.
    + exists (GaveUp message :: fates), (k :: counts), st'.
      split; [rewrite Hrun', <- app_assoc, Hd; reflexivity|].
      split; [exact Hidle'|].
      split; [simpl; split; [lia|]; split; [exact Hfail|]; split; [|exact Hex];
              split; [lia|exact Ha]|].
      split; [rewrite Herr; subst st1; simpl; rewrite He, <- app_assoc; reflexivity|].
      split; [rewrite Hpost, Hposted1, <- app_assoc; reflexivity|].
      split; [|exact Htime].
      rewrite Hprog, Hprog1, <- app_assoc. reflexivity.
Qed.

(** [fetchAllData] in terms of the fates of its batches. *)
Lemma fetchAllData_explained batches (st : State (list DeviceRecord)) :
  Idle st ->
  exists fates counts st',
    fetchAllData batches st = (Returned (concat (map fate_data fates)), st')
    /\ Idle st'
    /\ explains (length (posted (env st))) batches fates counts
    /\ errors (env st') = errors (env st) ++ fate_errors 0 batches fates
    /\ posted (env st') = posted (env st) ++ requests_of batches counts
    /\ filter is_progress (log (env st'))
       = filter is_progress (log (env st))
         ++ map (fun i => Progress i (length batches)) (seq 1 (length batches))
    /\ (exists l,
          log (env st')
          = l ++ [Success (MFetched (length (concat (map fate_data fates)))
                             (clock (env st') - clock (env st)))])
    /\ (forward world -> batches <> [] ->
        Z.of_nat (length batches - 1) * intervalMs (rateLimiter st)
        <= clock (env st') - clock (env st)).
Proof.
  intros Hidle.
  set (st0 := set_env (push_log (Info (MEstimated (length batches)))
                         (push_log (Info (MStartFetch (length batches))) (env st))) st).
  assert (Hidle0 : Idle st0) by exact Hidle.
  destruct (batch_loop (length (batch_tasks cfg world batches)) batches 0%nat [] st0 Hidle0)
    as (fates & counts & st1 & Hrun & Hidle1 & Hex & Herr & Hpost & Hprog & Hclock).
  rewrite app_nil_l in Hrun.
  pose proof (fetchAllData_eq cfg world batches st _ st1 Hrun) as Heq.
  exists fates, counts.
  eexists. split; [exact Heq|].
  split; [exact Hidle1|]. split; [exact Hex|].
  split; [exact Herr|]. split; [exact Hpost|].
  split.
  { cbn [env set_env log push_log]. rewrite filter_app. simpl. rewrite app_nil_r.
    rewrite Hprog. subst st0. cbn [env set_env log push_log].
    rewrite !filter_app. simpl. rewrite !app_nil_r.
    unfold batch_tasks, mapi. rewrite mapi_from_length. reflexivity. }
  split.
  { cbn [env set_env log push_log clock]. eexists. reflexivity. }
  intros Hw Hne.
  destruct (Hclock Hw) as [_ Hlast]. specialize (Hlast (or_introl Hne)).
  destruct (executeAll_for_spacing world _ _ _ _ (proj2 Hw) _ _ _ _ _ Hidle0 Hrun)
    as (_ & _ & Hfirst).
  assert (Hne' : batch_tasks cfg world batches <> []).
  { intros Hnil. apply (f_equal (@length _)) in Hnil.
    unfold batch_tasks, mapi in Hnil. rewrite mapi_from_length in Hnil.
    destruct batches; [congruence|discriminate]. }
  specialize (Hfirst Hne').
  unfold batch_tasks, mapi in Hfirst. rewrite mapi_from_length in Hfirst.
  cbn [env set_env clock push_log]. subst st0. cbn [env set_env clock push_log rateLimiter] in Hfirst.
  lia.
Qed.

Lemma explains_lengths :
  forall batches fates counts offset,
    explains offset batches fates counts ->
    length fates = length batches /\ length counts = length batches.
Proof.
  induction batches as [|b batches IH]; intros [|f fates] [|k counts] offset H;
    simpl in H; try contradiction; [split; reflexivity|].
  destruct H as (_ & _ & _ & H). destruct (IH _ _ _ H) as [H1 H2].
  simpl. split; congruence.
Qed.

Lemma explains_counts :
  forall batches fates counts offset,
    explains offset batches fates counts ->
    Forall (fun k => 1 <= k <= S (MAX_RETRIES cfg))%nat counts.
Proof.
  induction batches as [|b batches IH]; intros [|f fates] [|k counts] offset H;
    simpl in H; try contradiction; [constructor|].
  destruct H as (Hk & _ & Hf & H).
  constructor; [|exact (IH _ _ _ H)].
  destruct f; destruct Hf; lia.
Qed.

Lemma requests_of_length m :
  forall batches counts,
    length counts = length batches ->
    Forall (fun k => 1 <= k <= m)%nat counts ->
    (length batches <= length (requests_of batches counts) <= length batches * m)%nat.
Proof.
  induction batches as [|b batches IH]; intros [|k counts] Hlen Hall;
    simpl in Hlen; try discriminate; [simpl; lia|].
  inversion Hall as [|? ? Hk Hall']; subst.
  specialize (IH counts ltac:(congruence) Hall').
  simpl. rewrite length_app, repeat_length. lia.
Qed.

Lemma requests_of_In :
  forall batches counts,
    length counts = length batches ->
    Forall (fun k => 1 <= k)%nat counts ->
    forall r, In r (requests_of batches counts) <-> In r batches.
Proof.
  induction batches as [|b batches IH]; intros [|k counts] Hlen Hall r;
    simpl in Hlen; try discriminate; [simpl; tauto|].
  inversion Hall as [|? ? Hk Hall']; subst.
  specialize (IH counts ltac:(congruence) Hall' r).
  simpl. rewrite in_app_iff, IH.
  split.
  - intros [Hin|Hin]; [left; symmetry; exact (repeat_spec _ _ _ Hin)|right; exact Hin].
  - intros [<-|Hin]; [left|right; exact Hin].
    destruct k; [lia|]. left. reflexivity.
Qed.

Lemma explains_accounts :
  (forall k b data, answer k b = Returned data -> length data = length b) ->
  forall batches fates counts offset index,
    explains offset batches fates counts ->
    (length (concat (map fate_data fates))
     + failed_identifiers (fate_errors index batches fates)
     = length (concat batches))%nat
    /\ (length (fate_errors index batches fates) <= length batches)%nat.
Proof.
  intros Hone.
  induction batches as [|b batches IH]; intros [|f fates] [|k counts] offset index H;
    simpl in H; try contradiction; [split; reflexivity|].
  destruct H as (_ & _ & Hf & H).
  destruct (IH _ _ _ (S index) H) as [Hsum Hlen].
  unfold failed_identifiers in *.
  simpl. rewrite !length_app.
  destruct f as [data|message]; destruct Hf as [_ Ha]; simpl.
  - rewrite (Hone _ _ _ Ha). split; lia.
  - split; lia.
Qed.

Lemma explains_answered respond base :
  forall batches fates counts index,
    (forall k b, In b batches -> answer k b = Returned (respond k b)) ->
    explains (base + index) batches fates counts ->
    map fate_data fates = mapi_from (fun b i => respond (base + i)%nat b) index batches
    /\ requests_of batches counts = batches
    /\ (forall first, fate_errors first batches fates = []).
Proof.
  induction batches as [|b batches IH]; intros [|f fates] [|k counts] index Hall H;
    simpl in H; try contradiction; [repeat split|].
  destruct H as (Hk & Hfail & Hf & H).
  assert (Hk1 : k = 1%nat).
  { destruct (Nat.eq_dec k 1) as [|Hne]; [assumption|].
    destruct (Hfail 0%nat) as [message Hm]; [lia|].
    rewrite (Hall _ b (or_introl eq_refl)) in Hm. discriminate. }
  subst k. simpl in Hf. rewrite Nat.add_0_r in Hf.
  replace (base + index + 1)%nat with (base + S index)%nat in H by lia.
  destruct (IH _ _ (S index) (fun k b' Hin => Hall k b' (or_intror Hin)) H)
    as (Hdata & Hreq & Herr).
  rewrite (Hall _ b (or_introl eq_refl)) in Hf.
  destruct f as [data|message]; destruct Hf as [_ Ha]; [|discriminate].
  injection Ha as <-.
  split; [simpl; rewrite Hdata; reflexivity|].
  split; [simpl; rewrite Hreq; reflexivity|].
  intros first. simpl. apply Herr.
Qed.

(** X15. [fetchAllData] returns whatever the server does, and what it
    does is a function of the answers: the batches are taken in order,
    each is requested until a request is answered or it has been
    requested [MAX_RETRIES + 1] times, and the requests of a batch
    follow those of the batch before.  The result is the concatenation,
    in batch order, of the records of the answered batches; the
    batches given up leave one error entry each, in batch order, with
    the batch number counted from 1, the identifiers of the batch and
    the message of its last failure. *)
Theorem fetchAllData_fates batches (st : State (list DeviceRecord)) :
  Idle st ->
  exists fates counts st',
    fetchAllData batches st = (Returned (concat (map fate_data fates)), st')
    /\ explains (length (posted (env st))) batches fates counts
    /\ errors (env st') = errors (env st) ++ fate_errors 0 batches fates
    /\ posted (env st') = posted (env st) ++ requests_of batches counts
    /\ Idle st'.
Proof.
  intros Hidle.
  destruct (fetchAllData_explained batches st Hidle)
    as (fates & counts & st' & Hrun & Hidle' & Hex & Herr & Hpost & _).
  exists fates, counts, st'. auto.
Qed.

(** X16. Where every response has one record per identifier asked for,
    no device is lost or counted twice by [fetchAllData]: the number of
    records it returns and the number of identifiers listed in the
    error entries it adds sum to the number of identifiers in the
    batches; and it adds at most one entry per batch. *)
Theorem fetchAllData_accounts batches (st : State (list DeviceRecord)) :
  Idle st ->
  (forall k b data, answer k b = Returned data -> length data = length b) ->
  exists data st' failed,
    fetchAllData batches st = (Returned data, st')
    /\ errors (env st') = errors (env st) ++ failed
    /\ (length data + failed_identifiers failed = length (concat batches))%nat
    /\ (length failed <= length batches)%nat.
Proof.
  intros Hidle Hone.
  destruct (fetchAllData_explained batches st Hidle)
    as (fates & counts & st' & Hrun & _ & Hex & Herr & _).
  destruct (explains_accounts Hone _ _ _ _ 0%nat Hex) as [Hsum Hlen].
  exists (concat (map fate_data fates)), st', (fate_errors 0 batches fates). auto.
Qed.


(** X18. Where every request for one of the batches is answered,
    [fetchAllData] sends exactly one request per batch, in batch order,
    returns the records of the responses concatenated in that order,
    and adds nothing to the errors. *)
Theorem fetchAllData_all_answered respond batches (st : State (list DeviceRecord)) :
  Idle st ->
  (forall k b, In b batches -> answer k b = Returned (respond k b)) ->
  exists st',
    fetchAllData batches st
    = (Returned (concat (mapi (fun b i => respond (length (posted (env st)) + i)%nat b)
                           batches)), st')
    /\ posted (env st') = posted (env st) ++ batches
    /\ errors (env st') = errors (env st).
Proof.
  intros Hidle Hall.
  destruct (fetchAllData_explained batches st Hidle)
    as (fates & counts & st' & Hrun & _ & Hex & Herr & Hpost & _).
  rewrite <- (Nat.add_0_r (length (posted (env st)))) in Hex.
  destruct (explains_answered respond _ _ _ _ 0%nat Hall Hex) as (Hdata & Hreq & Hnone).
  exists st'. rewrite Hrun, Hdata, Hpost, Hreq, Herr, Hnone, app_nil_r. auto.
Qed.

(** X19. [fetchAllData] reports progress once per batch, after the
    batch is done, whether it was answered or given up: the progress
    calls are (1, n), (2, n), ..., (n, n) for [n] batches, in this
    order. *)
Theorem fetchAllData_progress batches (st : State (list DeviceRecord)) :
  Idle st ->
  filter is_progress (log (env (snd (fetchAllData batches st))))
  = filter is_progress (log (env st))
    ++ map (fun i => Progress i (length batches)) (seq 1 (length batches)).
Proof.
  intros Hidle.
  destruct (fetchAllData_explained batches st Hidle)
    as (fates & counts & st' & Hrun & _ & _ & _ & _ & Hprog & _).
  rewrite Hrun. exact Hprog.
Qed.

(** X20. Where requests take time and timers do not fire early, the
    duration that [fetchAllData] logs for [n >= 1] batches is at least
    [n - 1] intervals of the limiter, however fast the server is. *)
Theorem fetchAllData_duration batches (st : State (list DeviceRecord)) :
  forward world -> Idle st -> batches <> [] ->
  exists data st' l,
    fetchAllData batches st = (Returned data, st')
    /\ log (env st')
       = l ++ [Success (MFetched (length data) (clock (env st') - clock (env st)))]
    /\ Z.of_nat (length batches - 1) * intervalMs (rateLimiter st)
       <= clock (env st') - clock (env st).
Proof.
  intros Hw Hidle Hne.
  destruct (fetchAllData_explained batches st Hidle)
    as (fates & counts & st' & Hrun & _ & _ & _ & _ & _ & [l Hlog] & Hdur).
  exists (concat (map fate_data fates)), st', l. auto.
Qed.

End FetchCoverage.

(** X15 for a batch that is answered and one that is refused. *)
Lemma fetchAllData_fates_witness :
  Idle (new_DataAggregator cfg23 0)
  /\ exists fates counts st',
       fetchAllData cfg23 dead_batch_world [["SN-000"]; ["SN-010"]]
         (new_DataAggregator cfg23 0)
       = (Returned (concat (map fate_data fates)), st')
       /\ explains cfg23 dead_batch_world
            (length (posted (env (new_DataAggregator cfg23 0))))
            [["SN-000"]; ["SN-010"]] fates counts
       /\ errors (env st')
          = errors (env (new_DataAggregator cfg23 0))
            ++ fate_errors 0 [["SN-000"]; ["SN-010"]] fates
       /\ posted (env st')
          = posted (env (new_DataAggregator cfg23 0))
            ++ requests_of [["SN-000"]; ["SN-010"]] counts
       /\ Idle st'.
Proof.
  assert (Hidle : Idle (new_DataAggregator cfg23 0)) by (split; reflexivity).
  split; [exact Hidle|].
  exact (fetchAllData_fates cfg23 dead_batch_world [["SN-000"]; ["SN-010"]] _ Hidle).
Defined.

Lemma dead_batch_world_one_record_each :
  forall k b data,
    answer dead_batch_world k b = Returned data -> length data = length b.
Proof.
  intros k b data H. unfold answer, dead_batch_world in H. cbn in H.
  destruct (hd "" b =? "SN-010")%string; [discriminate|].
  injection H as <-. apply length_map.
Qed.

(** X16 for a batch that is answered and one that is refused. *)
Lemma fetchAllData_accounts_witness :
  Idle (new_DataAggregator cfg23 0)
  /\ (forall k b data,
        answer dead_batch_world k b = Returned data -> length data = length b)
  /\ exists data st' failed,
       fetchAllData cfg23 dead_batch_world [["SN-000"]; ["SN-010"; "SN-011"]]
         (new_DataAggregator cfg23 0)
       = (Returned data, st')
       /\ errors (env st') = errors (env (new_DataAggregator cfg23 0)) ++ failed
       /\ (length data + failed_identifiers failed
           = length (concat [["SN-000"]; ["SN-010"; "SN-011"]]))%nat
       /\ (length failed <= length [["SN-000"]; ["SN-010"; "SN-011"]])%nat.
Proof.
  assert (Hidle : Idle (new_DataAggregator cfg23 0)) by (split; reflexivity).
  split; [exact Hidle|]. split; [exact dead_batch_world_one_record_each|].
  exact (fetchAllData_accounts cfg23 dead_batch_world
           [["SN-000"]; ["SN-010"; "SN-011"]] _ Hidle
           dead_batch_world_one_record_each).
Defined.


(** X18 for two batches in a world that answers every request. *)
Lemma fetchAllData_all_answered_witness :
  Idle (new_DataAggregator cfg23 0)
  /\ (forall (k : nat) b, In b [["SN-000"]; ["SN-001"]] ->
        answer healthy_world k b = Returned (map record_of b))
  /\ exists st',
       fetchAllData cfg23 healthy_world [["SN-000"]; ["SN-001"]]
         (new_DataAggregator cfg23 0)
       = (Returned (concat (mapi (fun b (i : nat) => map record_of b)
                              [["SN-000"]; ["SN-001"]])), st')
       /\ posted (env st')
          = posted (env (new_DataAggregator cfg23 0)) ++ [["SN-000"]; ["SN-001"]]
       /\ errors (env st') = errors (env (new_DataAggregator cfg23 0)).
Proof.
  assert (Hidle : Idle (new_DataAggregator cfg23 0)) by (split; reflexivity).
  assert (Hall : forall (k : nat) b, In b [["SN-000"]; ["SN-001"]] ->
                   answer healthy_world k b = Returned (map record_of b))
    by (intros k b _; reflexivity).
  split; [exact Hidle|]. split; [exact Hall|].
  exact (fetchAllData_all_answered cfg23 healthy_world (fun _ b => map record_of b)
           [["SN-000"]; ["SN-001"]] _ Hidle Hall).
Defined.

(** X19 for a batch that is answered and one that is refused. *)
Lemma fetchAllData_progress_witness :
  Idle (new_DataAggregator cfg23 0)
  /\ filter is_progress
       (log (env (snd (fetchAllData cfg23 dead_batch_world [["SN-000"]; ["SN-010"]]
                         (new_DataAggregator cfg23 0)))))
     = filter is_progress (log (env (new_DataAggregator cfg23 0)))
       ++ map (fun i => Progress i (length [["SN-000"]; ["SN-010"]]))
            (seq 1 (length [["SN-000"]; ["SN-010"]])).
Proof.
  assert (Hidle : Idle (new_DataAggregator cfg23 0)) by (split; reflexivity).
  split; [exact Hidle|].
  exact (fetchAllData_progress cfg23 dead_batch_world [["SN-000"]; ["SN-010"]] _ Hidle).
Defined.

(** X20 for three batches and an interval of one second. *)
Lemma fetchAllData_duration_witness :
  forward healthy_world
  /\ Idle (new_DataAggregator cfg23 0)
  /\ exists data st' l,
       fetchAllData cfg23 healthy_world [["SN-000"]; ["SN-001"]; ["SN-002"]]
         (new_DataAggregator cfg23 0)
       = (Returned data, st')
       /\ log (env st')
          = l ++ [Success (MFetched (length data)
                             (clock (env st') - clock (env (new_DataAggregator cfg23 0))))]
       /\ Z.of_nat (length [["SN-000"]; ["SN-001"]; ["SN-002"]] - 1)
          * intervalMs (rateLimiter (new_DataAggregator cfg23 0))
          <= clock (env st') - clock (env (new_DataAggregator cfg23 0)).
Proof.
  assert (Hw : forward healthy_world) by (split; intros k; simpl; lia).
  assert (Hidle : Idle (new_DataAggregator cfg23 0)) by (split; reflexivity).
  split; [exact Hw|]. split; [exact Hidle|].
  apply (fetchAllData_duration cfg23 healthy_world
           [["SN-000"]; ["SN-001"]; ["SN-002"]] _ Hw Hidle).
  discriminate.
Defined.

(** *** [saveResults], [displaySummary] and [run] *)

Section RunCoverage.
Variable cfg : Config.
Variable world : World.

#[local] Abbreviation answer := (answer world).
#[local] Abbreviation fetchAllData := (fetchAllData cfg world).
#[local] Abbreviation saveResults := (saveResults cfg world).
#[local] Abbreviation displaySummary := (displaySummary cfg).
#[local] Abbreviation run := (run cfg world).
#[local] Abbreviation report := (report cfg).
#[local] Abbreviation completed := (completed cfg world).
#[local] Abbreviation prepared := (prepared cfg world).

Lemma count_statuses (data : list DeviceRecord) (s1 s2 : string) :
  s1 <> s2 ->
  let count s := length (filter (fun d => (status d =? s)%string) data) in
  (count s1 + count s2 <= length data)%nat
  /\ ((count s1 + count s2 = length data)%nat
      <-> Forall (fun d => status d = s1 \/ status d = s2) data).
Proof.
  intros Hne. simpl.
  induction data as [|d data [IHle IHeq]]; simpl.
  - split; [lia|]. split; [constructor|reflexivity].
  - rewrite Forall_cons_iff, <- IHeq.
    destruct (String.eqb_spec (status d) s1) as [H1|H1];
      destruct (String.eqb_spec (status d) s2) as [H2|H2]; simpl.
    + congruence.
    + split; [lia|]. split; [intros H; split; [left; exact H1|lia]|intros [_ H]; lia].
    + split; [lia|]. split; [intros H; split; [right; exact H2|lia]|intros [_ H]; lia].
    + split; [lia|]. split; [intros H; lia|intros [[H|H] _]; contradiction].
Qed.

(** X22. [displaySummary] prints one table and changes nothing else:
    the configured total, the number of records, the number of error
    entries (batches, not devices), and, unless there are no records,
    the numbers of records whose status is Online and Offline.  These
    two never sum to more than the number of records, and sum to it
    exactly when every record has one of the two statuses. *)
Theorem displaySummary_table data e :
  exists breakdown,
    displaySummary data e
    = (Returned tt,
       push_log (SummaryTable (TOTAL_DEVICES cfg) (length data) (length (errors e))
                   breakdown) e)
    /\ (breakdown = None <-> data = [])
    /\ (forall online offline,
          breakdown = Some (online, offline) ->
          (online + offline <= length data)%nat
          /\ ((online + offline = length data)%nat
              <-> Forall (fun d => status d = "Online" \/ status d = "Offline") data)).
Proof.
  exists (if (0 <? length data)%nat
          then Some (length (filter (fun d => (status d =? "Online")%string) data),
                     length (filter (fun d => (status d =? "Offline")%string) data))
          else None).
  split; [reflexivity|].
  destruct data as [|d data].
  - simpl. split; [tauto|]. intros online offline H. discriminate.
  - remember (d :: data) as l eqn:Hl.
    assert (Hpos : (0 <? length l)%nat = true) by (subst l; reflexivity).
    rewrite Hpos. split.
    + split; [discriminate|]. intros H. subst l. discriminate.
    + intros online offline H. injection H as <- <-.
      apply (count_statuses l "Online" "Offline"). discriminate.
Qed.

Lemma completed_posted data e : posted (completed data e) = posted e.
Proof.
  unfold Aggregator.completed, Aggregator.saveResults, try_catch, bind, fs_call.
  destruct (fs_mkdir world), (fs_writeFile world); reflexivity.
Qed.

(** A run whose probe is answered, in terms of the fates of its
    batches. *)
Lemma run_explained clock0 probe :
  0 < BATCH_SIZE cfg ->
  answer 0 ["SN-000"] = Returned probe ->
  exists batches fates counts st',
    run (new_DataAggregator cfg clock0) = (Returned tt, st')
    /\ BatchManager.Chunked (Z.to_nat (BATCH_SIZE cfg))
         (BatchManager.generateSerialNumbers (TOTAL_DEVICES cfg) (DEVICE_SN_PREFIX cfg))
         batches
    /\ explains cfg world 1 batches fates counts
    /\ results (env st') = concat (map fate_data fates)
    /\ errors (env st') = fate_errors 0 batches fates
    /\ posted (env st') = ["SN-000"] :: requests_of batches counts
    /\ disk (env st')
       = match fs_mkdir world, fs_writeFile world with
         | None, None =>
             Some {| Summary.totalDevices := TOTAL_DEVICES cfg;
                     Summary.successfulFetches := length (results (env st'));
                     Summary.failedFetches := length (errors (env st'));
                     Summary.timestamp := clock (env st');
                     Summary.data := results (env st');
                     Summary.errors := errors (env st') |}
         | _, _ => None
         end.
Proof.
  intros HK Hprobe.
  set (st := new_DataAggregator cfg clock0).
  destruct (BatchManagerFacts.createBatches_chunked
              (BatchManager.generateSerialNumbers (TOTAL_DEVICES cfg)
                 (DEVICE_SN_PREFIX cfg)) (BATCH_SIZE cfg) ltac:(lia))
    as (batches & Hbatches & Hchunked).
  assert (Hidle : Idle (set_env (prepared batches (env st)) st)) by (split; reflexivity).
  destruct (fetchAllData_explained cfg world batches _ Hidle)
    as (fates & counts & st1 & Hfetch & _ & Hex & Herr & Hpost & _).
  pose proof (run_completes cfg world st probe batches _ st1 Hprobe Hbatches Hfetch)
    as Hrun.
  exists batches, fates, counts. eexists. split; [exact Hrun|].
  cbn [env set_env].
  destruct (completed_frame cfg world (concat (map fate_data fates)) (env st1))
    as (_ & Herrors & Hresults).
  split; [exact Hchunked|]. split; [exact Hex|].
  split; [exact Hresults|].
  split; [rewrite Herrors, Herr; reflexivity|].
  split; [rewrite completed_posted, Hpost; reflexivity|].
  assert (Hdisk1 : disk (env st1) = None).
  { destruct (fetchAllData_total cfg world batches _ Hidle)
      as (data' & st1' & Hfetch' & _ & Hgrow).
    rewrite Hfetch in Hfetch'. injection Hfetch' as _ <-.
    rewrite (grows_disk _ _ Hgrow). reflexivity. }
  rewrite Herrors, Hresults.
  unfold Aggregator.completed, Aggregator.saveResults, try_catch, bind, fs_call.
  destruct (fs_mkdir world), (fs_writeFile world); simpl; try exact Hdisk1.
  reflexivity.
Qed.

(** X23. In a run whose probe is answered, with a positive batch size
    and a server that gives one record per identifier asked for, no
    device is lost or counted twice: the number of records in the
    results and the number of identifiers listed in the error entries
    sum to [TOTAL_DEVICES]; so do, in the file when it is written,
    [successfulFetches] and the identifiers listed in [errors]. *)
Theorem run_accounts clock0 :
  0 < BATCH_SIZE cfg ->
  (exists probe, answer 0 ["SN-000"] = Returned probe) ->
  (forall k b data, answer k b = Returned data -> length data = length b) ->
  exists st',
    run (new_DataAggregator cfg clock0) = (Returned tt, st')
    /\ (length (results (env st')) + failed_identifiers (errors (env st'))
        = TOTAL_DEVICES cfg)%nat
    /\ (fs_mkdir world = None -> fs_writeFile world = None ->
        exists summary,
          disk (env st') = Some summary
          /\ (Summary.successfulFetches summary
              + failed_identifiers (Summary.errors summary)
              = Summary.totalDevices summary)%nat).
Proof.
  intros HK [probe Hprobe] Hone.
  destruct (run_explained clock0 probe HK Hprobe)
    as (batches & fates & counts & st' & Hrun & Hchunked & Hex & Hres & Herr & _ & Hdisk).
  destruct (explains_accounts cfg world Hone _ _ _ _ 0%nat Hex) as [Hsum _].
  rewrite (BatchManagerFacts.Chunked_concat _ _ _ Hchunked) in Hsum.
  rewrite BatchManagerCoverage.generateSerialNumbers_length in Hsum.
  exists st'. split; [exact Hrun|].
  assert (Htotal : (length (results (env st')) + failed_identifiers (errors (env st'))
                    = TOTAL_DEVICES cfg)%nat) by (rewrite Hres, Herr; exact Hsum).
  split; [exact Htotal|].
  intros H1 H2. rewrite H1, H2 in Hdisk.
  eexists. split; [exact Hdisk|]. simpl. exact Htotal.
Qed.

(** X24. In a run whose probe is answered, with a positive batch size,
    the first request is the probe; after it come at least one and at
    most [MAX_RETRIES + 1] requests per batch, for
    [ceil(TOTAL_DEVICES / BATCH_SIZE)] batches; every one of them
    carries at least one and at most [BATCH_SIZE] serial numbers; and
    the serial numbers requested are exactly the generated ones. *)
Theorem run_requests clock0 :
  0 < BATCH_SIZE cfg ->
  (exists probe, answer 0 ["SN-000"] = Returned probe) ->
  let size := Z.to_nat (BATCH_SIZE cfg) in
  let n := ((TOTAL_DEVICES cfg + size - 1) / size)%nat in
  exists requests,
    posted (env (snd (run (new_DataAggregator cfg clock0)))) = ["SN-000"] :: requests
    /\ (n <= length requests <= n * S (MAX_RETRIES cfg))%nat
    /\ Forall (fun r => (1 <= length r <= size)%nat) requests
    /\ (forall s,
          In s (concat requests)
          <-> In s (BatchManager.generateSerialNumbers (TOTAL_DEVICES cfg)
                      (DEVICE_SN_PREFIX cfg))).
Proof.
  intros HK [probe Hprobe] size n.
  destruct (run_explained clock0 probe HK Hprobe)
    as (batches & fates & counts & st' & Hrun & Hchunked & Hex & _ & _ & Hpost & _).
  assert (Hsize : (1 <= size)%nat) by (subst size; lia).
  destruct (explains_lengths cfg world _ _ _ _ Hex) as [_ Hlen].
  pose proof (explains_counts cfg world _ _ _ _ Hex) as Hcounts.
  assert (Hin : forall r, In r (requests_of batches counts) <-> In r batches).
  { apply requests_of_In; [exact Hlen|].
    eapply Forall_impl; [|exact Hcounts]. simpl. intros k Hk. lia. }
  exists (requests_of batches counts).
  rewrite Hrun. split; [exact Hpost|].
  split.
  { pose proof (requests_of_length _ _ _ Hlen Hcounts) as Hbound.
    rewrite (BatchManagerCoverage.Chunked_count _ _ _ Hsize Hchunked) in Hbound.
    rewrite BatchManagerCoverage.generateSerialNumbers_length in Hbound.
    exact Hbound. }
  split.
  { apply Forall_forall. intros r Hr. apply Hin in Hr.
    pose proof (BatchManagerCoverage.Chunked_bounds _ _ _ Hsize Hchunked) as Hb.
    rewrite Forall_forall in Hb. exact (Hb r Hr). }
  intros s. rewrite <- (BatchManagerFacts.Chunked_concat _ _ _ Hchunked).
  rewrite !in_concat. split; intros (r & Hr & Hs); exists r; split; auto;
    apply Hin; exact Hr.
Qed.

(** X26. With no devices configured, a run whose probe is answered
    completes whatever the batch size, zero and negative sizes
    included: the probe is the only request, there are no results and
    no errors, the exit code is not set, and the file, when it can be
    written, holds a summary of zeros. *)
Theorem run_no_devices clock0 :
  TOTAL_DEVICES cfg = 0%nat ->
  (exists probe, answer 0 ["SN-000"] = Returned probe) ->
  exists st',
    run (new_DataAggregator cfg clock0) = (Returned tt, st')
    /\ posted (env st') = [["SN-000"]]
    /\ results (env st') = [] /\ errors (env st') = []
    /\ exitCode (env st') = None
    /\ (fs_mkdir world = None -> fs_writeFile world = None ->
        exists summary,
          disk (env st') = Some summary
          /\ Summary.totalDevices summary = 0%nat
          /\ Summary.successfulFetches summary = 0%nat
          /\ Summary.failedFetches summary = 0%nat
          /\ Summary.data summary = [] /\ Summary.errors summary = []).
Proof.
  intros Hzero [probe Hprobe].
  set (st := new_DataAggregator cfg clock0).
  assert (Hbatches : BatchManager.createBatches
                       (BatchManager.generateSerialNumbers (TOTAL_DEVICES cfg)
                          (DEVICE_SN_PREFIX cfg)) (BATCH_SIZE cfg)
                     = Returned []) by (rewrite Hzero; reflexivity).
  assert (Hidle : Idle (set_env (prepared [] (env st)) st)) by (split; reflexivity).
  destruct (fetchAllData_explained cfg world [] _ Hidle)
    as (fates & counts & st1 & Hfetch & _ & Hex & Herr & Hpost & _).
  destruct (explains_lengths cfg world _ _ _ _ Hex) as [Hfates _].
  destruct fates; [|discriminate]. simpl in Hfetch, Herr, Hpost.
  pose proof (run_completes cfg world st probe [] _ st1 Hprobe Hbatches Hfetch) as Hrun.
  destruct (completed_frame cfg world [] (env st1)) as (_ & Herrors & Hresults).
  eexists. split; [exact Hrun|]. cbn [env set_env].
  split; [rewrite completed_posted, Hpost; reflexivity|].
  split; [exact Hresults|].
  split; [rewrite Herrors, Herr; reflexivity|].
  split.
  { pose proof (run_not_fatal cfg world st probe [] ltac:(split; reflexivity) Hprobe
                  Hbatches) as Hexit.
    rewrite Hrun in Hexit. exact Hexit. }
  intros H1 H2. rewrite (completed_disk cfg world [] (env st1) H1 H2).
  eexists. split; [reflexivity|]. simpl. rewrite Herr, Hzero. auto.
Qed.

End RunCoverage.

(** X26 without devices and with a batch size of zero. *)
Lemma run_no_devices_witness :
  TOTAL_DEVICES cfg0 = 0%nat
  /\ (exists probe, answer healthy_world 0 ["SN-000"] = Returned probe)
  /\ exists st',
       run cfg0 healthy_world (new_DataAggregator cfg0 0) = (Returned tt, st')
       /\ posted (env st') = [["SN-000"]]
       /\ results (env st') = [] /\ errors (env st') = []
       /\ exitCode (env st') = None
       /\ (fs_mkdir healthy_world = None -> fs_writeFile healthy_world = None ->
           exists summary,
             disk (env st') = Some summary
             /\ Summary.totalDevices summary = 0%nat
             /\ Summary.successfulFetches summary = 0%nat
             /\ Summary.failedFetches summary = 0%nat
             /\ Summary.data summary = [] /\ Summary.errors summary = []).
Proof.
  assert (Hprobe : exists probe, answer healthy_world 0 ["SN-000"] = Returned probe)
    by (eexists; reflexivity).
  split; [reflexivity|]. split; [exact Hprobe|].
  exact (run_no_devices cfg0 healthy_world 0 eq_refl Hprobe).
Defined.

(** X23 for 23 devices in batches of 10, the second of which is
    refused. *)
Lemma run_accounts_witness :
  0 < BATCH_SIZE cfg23
  /\ (exists probe, answer dead_batch_world 0 ["SN-000"] = Returned probe)
  /\ (forall k b data,
        answer dead_batch_world k b = Returned data -> length data = length b)
  /\ exists st',
       run cfg23 dead_batch_world (new_DataAggregator cfg23 0) = (Returned tt, st')
       /\ (length (results (env st')) + failed_identifiers (errors (env st'))
           = TOTAL_DEVICES cfg23)%nat
       /\ (fs_mkdir dead_batch_world = None -> fs_writeFile dead_batch_world = None ->
           exists summary,
             disk (env st') = Some summary
             /\ (Summary.successfulFetches summary
                 + failed_identifiers (Summary.errors summary)
                 = Summary.totalDevices summary)%nat).
Proof.
  assert (HK : 0 < BATCH_SIZE cfg23) by reflexivity.
  assert (Hprobe : exists probe, answer dead_batch_world 0 ["SN-000"] = Returned probe)
    by (eexists; reflexivity).
  split; [exact HK|]. split; [exact Hprobe|].
  split; [exact dead_batch_world_one_record_each|].
  exact (run_accounts cfg23 dead_batch_world 0 HK Hprobe
           dead_batch_world_one_record_each).
Defined.

(** X24 for 23 devices in batches of 10, the second of which is
    refused. *)
Lemma run_requests_witness :
  0 < BATCH_SIZE cfg23
  /\ (exists probe, answer dead_batch_world 0 ["SN-000"] = Returned probe)
  /\ exists requests,
       posted (env (snd (run cfg23 dead_batch_world (new_DataAggregator cfg23 0))))
       = ["SN-000"] :: requests
       /\ (3 <= length requests <= 3 * S (MAX_RETRIES cfg23))%nat
       /\ Forall (fun r => (1 <= length r <= 10)%nat) requests
       /\ (forall s,
             In s (concat requests)
             <-> In s (BatchManager.generateSerialNumbers (TOTAL_DEVICES cfg23)
                         (DEVICE_SN_PREFIX cfg23))).
Proof.
  assert (HK : 0 < BATCH_SIZE cfg23) by reflexivity.
  assert (Hprobe : exists probe, answer dead_batch_world 0 ["SN-000"] = Returned probe)
    by (eexists; reflexivity).
  split; [exact HK|]. split; [exact Hprobe|].
  exact (run_requests cfg23 dead_batch_world 0 HK Hprobe).
Defined.

End AggregatorCoverage.
